(** * RTB simulator: the request pipeline, embedded and verified

    The Go packages [openrtb], [httpclient], [dispatcher], [auction],
    [stats] and [engine] are embedded as Rocq modules of the same names.

    - [float64] values are IEEE 754 binary64 numbers ([spec_float] with
      precision 53 and maximal exponent 1024); comparisons and additions
      are the IEEE ones, NaN included.
    - [uint64] and [int64] values are integers of [Z] with the wrap-around
      written out.
    - A Go [error] is an inductive type; a nil error or nil pointer is
      [None].
    - A Go slice is a list: a nil slice and an empty slice both have
      length zero and are ranged over in the same way, and no modelled
      code compares a slice with nil.
    - A Go [map[string]T] is a [gmap string T]. *)

From Stdlib Require Import ZArith Lia.
From Stdlib Require Import Floats.SpecFloat.
From stdpp Require Import base option list gmap strings.

Open Scope string_scope.
Open Scope list_scope.
Open Scope Z_scope.

(* ===================================================================== *)
(** ** Machine numbers *)
(* ===================================================================== *)

Definition float64 := spec_float.

(** Go's [a + b], [a > b] and [a >= b] on float64. *)
Definition f64_add (a b : float64) : float64 := SFadd 53 1024 a b.
Definition f64_gt (a b : float64) : bool := SFltb b a.
Definition f64_ge (a b : float64) : bool := SFleb b a.

(** The zero value of a float64 is [+0]. *)
Definition f64_zero : float64 := S754_zero false.

(** The binary64 number nearest to the decimal literal [0.01]:
    0x1.47ae147ae147bp-7. *)
Definition f64_0_01 : float64 := S754_finite false 5764607523034235 (-59).

(** A float64 given as [m * 2^e], rounded to binary64. *)
Definition f64_of (m e : Z) : float64 := binary_normalize 53 1024 m e false.

Definition wrap_u64 (z : Z) : Z := z mod 2 ^ 64.
Definition wrap_i64 (z : Z) : Z := (z + 2 ^ 63) mod 2 ^ 64 - 2 ^ 63.

(** [x++] and [x += n] on a uint64, [x += d] on an int64. *)
Definition u64_add (x n : Z) : Z := wrap_u64 (x + n).
Definition i64_add (x d : Z) : Z := wrap_i64 (x + d).

(* ===================================================================== *)
(** ** Go errors *)
(* ===================================================================== *)

Module errors.

Inductive error : Type :=
| New (text : string)                        (* errors.New(text): a sentinel value *)
| ErrorfD (format : string) (n : Z)          (* fmt.Errorf(format, n) with a %d verb *)
| ErrorfW (format : string) (err : error)    (* fmt.Errorf(format, err) with a %w verb *)
| TimeoutError (err : error).                (* &httpclient.TimeoutError{err: err} *)

Global Instance error_eq_dec : EqDecision error.
Proof. solve_decision. Defined.

(** [Unwrap]: the error a value wraps, if any. *)
Definition Unwrap (e : error) : option error :=
  match e with
  | ErrorfW _ err => Some err
  | TimeoutError err => Some err
  | _ => None
  end.

(** [errors.Is(err, target)]: walk the chain of wrapped errors and
    compare each element with the target. *)
Fixpoint Is (err target : error) : bool :=
  bool_decide (err = target) ||
  match err with
  | ErrorfW _ inner => Is inner target
  | TimeoutError inner => Is inner target
  | _ => false
  end.

(** [errors.As(err, &te)] for [te *TimeoutError]: walk the chain and
    stop at the first element of that type. *)
Fixpoint AsTimeoutError (err : error) : bool :=
  match err with
  | TimeoutError _ => true
  | ErrorfW _ inner => AsTimeoutError inner
  | _ => false
  end.

End errors.

Module context.
Definition Canceled : errors.error := errors.New "context canceled".
Definition DeadlineExceeded : errors.error := errors.New "context deadline exceeded".
End context.

(* ===================================================================== *)
(** ** package openrtb *)
(* ===================================================================== *)

Module openrtb.

Record Bid := {
  Bid_ID : string;
  ImpID : string;
  Price : float64;
  AdID : string;
  NURL : string;
  AdM : string;
  ADomain : list string;
  CID : string;
  CrID : string;
  Cat : list string;
  W : Z;
  H : Z
}.

Record SeatBid := {
  SeatBid_Bid : list Bid;
  Seat : string
}.

Record BidResponse := {
  BidResponse_ID : string;
  BidResponse_SeatBid : list SeatBid;
  BidID : string;
  BidResponse_Cur : string;
  NBR : Z
}.

(** [&BidResponse{ID: id}]: every other field has its zero value. *)
Definition BidResponse_with_ID (id : string) : BidResponse :=
  {| BidResponse_ID := id; BidResponse_SeatBid := []; BidID := "";
     BidResponse_Cur := ""; NBR := 0 |}.

(** The impression and the request. The optional nested objects
    (banner, video, app, site, device, user) are read by no modelled
    code and are left out. *)
Record Imp := {
  Imp_ID : string;
  BidFloor : float64;
  Secure : Z;
  Tagid : string
}.

Record BidRequest := {
  BidRequest_ID : string;
  BidRequest_Imp : list Imp;
  At : Z;
  Tmax : Z;
  BidRequest_Cur : list string;
  Bcat : list string
}.

(** The loop of [IsNoBid]: return false at the first seat with a bid. *)
Fixpoint IsNoBid_loop (sbs : list SeatBid) : bool :=
  match sbs with
  | [] => true
  | sb :: rest =>
      if decide (0 < length (SeatBid_Bid sb))%nat then false
      else IsNoBid_loop rest
  end.

Definition IsNoBid (r : BidResponse) : bool :=
  if decide (length (BidResponse_SeatBid r) = 0%nat) then true
  else IsNoBid_loop (BidResponse_SeatBid r).

(** [AllBids]: the second loop appends each seat's bids to [bids]. The
    first loop only computes the capacity of the slice. *)
Definition AllBids (r : BidResponse) : list Bid :=
  fold_left (fun bids sb => bids ++ SeatBid_Bid sb) (BidResponse_SeatBid r) [].

(** [HighestBid]: [highest] is nil or points at a bid seen; a bid takes
    its place when its price is strictly above. The bid pointed at is
    returned by value. *)
Definition HighestBid_step (highest : option Bid) (bid : Bid) : option Bid :=
  match highest with
  | None => Some bid
  | Some h => if f64_gt (Price bid) (Price h) then Some bid else highest
  end.

Definition HighestBid_seat (highest : option Bid) (sb : SeatBid) : option Bid :=
  fold_left HighestBid_step (SeatBid_Bid sb) highest.

Definition HighestBid (r : BidResponse) : option Bid :=
  fold_left HighestBid_seat (BidResponse_SeatBid r) None.

End openrtb.

(* ===================================================================== *)
(** ** package config *)
(* ===================================================================== *)

Module config.

Record DSPConfig := {
  Name : string;
  Endpoint : string;
  Enabled : bool
}.

Record ServerConfig := {
  Port : Z
}.

Record SimulationConfig := {
  RequestsPerSecond : Z;
  Scenario : string
}.

(** [Type_] is the field [Type] of the source. *)
Record AuctionConfig := {
  Type_ : string;
  TimeoutMS : Z
}.

Record Config := {
  Server : ServerConfig;
  Simulation : SimulationConfig;
  Auction : AuctionConfig;
  DSPs : list DSPConfig
}.

Definition applyDefaults (c : Config) : Config :=
  {| Server :=
       {| Port := if decide (Port (Server c) = 0) then 8080 else Port (Server c) |};
     Simulation :=
       {| RequestsPerSecond :=
            if decide (RequestsPerSecond (Simulation c) = 0) then 10
            else RequestsPerSecond (Simulation c);
          Scenario :=
            if decide (Scenario (Simulation c) = "") then "mobile_app"
            else Scenario (Simulation c) |};
     Auction :=
       {| Type_ :=
            if decide (Type_ (Auction c) = "") then "first_price"
            else Type_ (Auction c);
          TimeoutMS :=
            if decide (TimeoutMS (Auction c) = 0) then 100
            else TimeoutMS (Auction c) |};
     DSPs := DSPs c |}.

(** The loop of [Validate] over the DSPs; [i] is the index of the head
    of [dsps]. *)
Fixpoint Validate_dsps (i : Z) (dsps : list DSPConfig) : option errors.error :=
  match dsps with
  | [] => None
  | dsp :: rest =>
      if decide (Endpoint dsp = "")
      then Some (errors.ErrorfD "dsps[%d].endpoint is required" i)
      else Validate_dsps (i + 1) rest
  end.

Definition Validate (c : Config) : option errors.error :=
  if decide (Port (Server c) <= 0 ∨ 65535 < Port (Server c)) then
    Some (errors.New "server.port must be between 1 and 65535")
  else if decide (RequestsPerSecond (Simulation c) <= 0) then
    Some (errors.New "simulation.requests_per_second must be positive")
  else if decide (length (DSPs c) = 0%nat) then
    Some (errors.New "at least one DSP must be configured")
  else Validate_dsps 0 (DSPs c).

Definition EnabledDSPs (c : Config) : list DSPConfig :=
  fold_left (λ enabled dsp, if Enabled dsp then enabled ++ [dsp] else enabled)
            (DSPs c) [].

Section Load.

(** [os.ReadFile(path)], and [yaml.Unmarshal(data, cfg)] into an empty
    [Config]. *)
Variable ReadFile : string → list Byte.byte * option errors.error.
Variable Unmarshal : list Byte.byte → Config * option errors.error.

Definition Load (path : string) : option Config * option errors.error :=
  let '(data, err) := ReadFile path in
  match err with
  | Some err => (None, Some (errors.ErrorfW "reading config file: %w" err))
  | None =>
      let '(cfg, err) := Unmarshal data in
      match err with
      | Some err => (None, Some (errors.ErrorfW "parsing config: %w" err))
      | None =>
          let cfg := applyDefaults cfg in
          match Validate cfg with
          | Some err => (None, Some (errors.ErrorfW "validating config: %w" err))
          | None => (Some cfg, None)
          end
      end
  end.

End Load.

End config.

(* ===================================================================== *)
(** ** package httpclient *)
(* ===================================================================== *)

Module fasthttp.

Definition ErrTimeout : errors.error := errors.New "timeout".

Record Response := {
  StatusCode : Z;
  Body : list Byte.byte
}.

End fasthttp.

Module http.
Definition StatusNoContent : Z := 204.
End http.

Module httpclient.

Import errors.

(** Durations are int64 numbers of nanoseconds. *)
Definition Millisecond : Z := 1000000.

Record Client := {
  timeout : Z;
  maxConnsPerHost : Z;
  maxIdleConns : Z
}.

Section Post.

(** The three calls of [Post] that leave the repository:
    [sonic.Marshal(req)], [c.client.DoTimeout(request, response,
    c.timeout)] on the request built from the url and the body, and
    [sonic.Unmarshal(response.Body(), &resp)]. *)
Variable Marshal : openrtb.BidRequest -> list Byte.byte * option error.
Variable DoTimeout : string -> list Byte.byte -> Z -> fasthttp.Response * option error.
Variable Unmarshal : list Byte.byte -> openrtb.BidResponse * option error.

Definition Post (c : Client) (url : string) (req : openrtb.BidRequest)
  : option openrtb.BidResponse * option error :=
  let '(body, err) := Marshal req in
  match err with
  | Some err => (None, Some (ErrorfW "marshal request: %w" err))
  | None =>
      let '(response, err) := DoTimeout url body (timeout c) in
      match err with
      | Some err =>
          if Is err fasthttp.ErrTimeout
          then (None, Some (TimeoutError err))
          else (None, Some (ErrorfW "do request: %w" err))
      | None =>
          let statusCode := fasthttp.StatusCode response in
          if decide (statusCode = http.StatusNoContent)
          then (Some (openrtb.BidResponse_with_ID (openrtb.BidRequest_ID req)), None)
          else if decide (400 <= statusCode)
          then (None, Some (ErrorfD "server error: status %d" statusCode))
          else
            let '(resp, err) := Unmarshal (fasthttp.Body response) in
            match err with
            | Some err => (None, Some (ErrorfW "unmarshal response: %w" err))
            | None => (Some resp, None)
            end
      end
  end.

End Post.

(** [IsTimeout(err)]: [errors.As] on a nil error is false. *)
Definition IsTimeout (err : option error) : bool :=
  match err with
  | Some e => AsTimeoutError e
  | None => false
  end.

Definition Second : Z := 1000 * Millisecond.

(** The options of the package. *)
Inductive Option :=
| WithTimeout (d : Z)
| WithMaxConnsPerHost (n : Z)
| WithMaxIdleConns (n : Z).

Definition applyOption (c : Client) (opt : Option) : Client :=
  match opt with
  | WithTimeout d =>
      {| timeout := d; maxConnsPerHost := maxConnsPerHost c;
         maxIdleConns := maxIdleConns c |}
  | WithMaxConnsPerHost n =>
      {| timeout := timeout c; maxConnsPerHost := n;
         maxIdleConns := maxIdleConns c |}
  | WithMaxIdleConns n =>
      {| timeout := timeout c; maxConnsPerHost := maxConnsPerHost c;
         maxIdleConns := n |}
  end.

(** The fields of the [fasthttp.Client] that [New] sets. *)
Record fasthttpClient := {
  MaxConnsPerHost : Z;
  MaxIdleConnDuration : Z;
  ReadTimeout : Z;
  WriteTimeout : Z;
  MaxConnWaitTimeout : Z;
  DisableHeaderNamesNormalizing : bool;
  DisablePathNormalizing : bool;
  MaxResponseBodySize : Z
}.

(** [New]: the client, and the [fasthttp.Client] its [client] field
    points at. *)
Definition New (opts : list Option) : Client * fasthttpClient :=
  let c :=
    fold_left applyOption opts
      {| timeout := 100 * Millisecond; maxConnsPerHost := 100;
         maxIdleConns := 100 |} in
  (c,
   {| MaxConnsPerHost := maxConnsPerHost c;
      MaxIdleConnDuration := 30 * Second;
      ReadTimeout := timeout c;
      WriteTimeout := timeout c;
      MaxConnWaitTimeout := timeout c;
      DisableHeaderNamesNormalizing := true;
      DisablePathNormalizing := true;
      MaxResponseBodySize := 64 * 1024 |}).

End httpclient.

(* ===================================================================== *)
(** ** package dispatcher *)
(* ===================================================================== *)

Module dispatcher.

Import errors.

Record Result := {
  DSPName : string;
  Response : option openrtb.BidResponse;
  Error : option error;
  Latency : Z
}.

(** The zero value [Result{}], which fills a slice made by [make]. *)
Definition Result_zero : Result :=
  {| DSPName := ""; Response := None; Error := None; Latency := 0 |}.

Record indexedResult := {
  idx : nat;
  result : Result
}.

(** What one run of [callDSP] observes of the world: whether the
    context is done at the first [select] (and then [ctx.Err()]), the
    value of [d.client.Post(dsp.Endpoint, req)], the time it took, and
    whether the context is done at the second [select]. *)
Record callEnv := {
  ctxBefore : option error;
  postResult : option openrtb.BidResponse * option error;
  elapsed : Z;
  ctxAfter : option error
}.

Definition callDSP (env : callEnv) (dsp : config.DSPConfig) : Result :=
  let name := config.Name dsp in
  match ctxBefore env with
  | Some ctxErr =>
      {| DSPName := name; Response := None; Error := Some ctxErr; Latency := 0 |}
  | None =>
      let '(resp, err) := postResult env in
      match err with
      | Some err =>
          match ctxAfter env with
          | Some ctxErr =>
              {| DSPName := name; Response := None; Error := Some ctxErr;
                 Latency := elapsed env |}
          | None =>
              {| DSPName := name; Response := None; Error := Some err;
                 Latency := elapsed env |}
          end
      | None =>
          {| DSPName := name; Response := resp; Error := None;
             Latency := elapsed env |}
      end
  end.

(** What one [select] of the collecting loop takes: the context is done
    (with [ctx.Err()]), or the message of the goroutine started for the
    DSP of the given ordinal is the next one on the channel. *)
Inductive selected :=
| ctxDone (ctxErr : error)
| received (i : nat).

(** The loop run on cancellation: every slot whose name is empty gets
    the DSP's name and the context's error. [results] has the length of
    [dsps], so [dsps[i]] is always in range. *)
Definition fillRemaining (dsps : list config.DSPConfig) (ctxErr : error)
    (results : list Result) : list Result :=
  imap (fun i r =>
          if decide (DSPName r = "") then
            match dsps !! i with
            | Some dsp =>
                {| DSPName := config.Name dsp; Response := None;
                   Error := Some ctxErr; Latency := 0 |}
            | None => r
            end
          else r) results.

(** The message goroutine [i] puts on the channel. *)
Definition message (dsps : list config.DSPConfig) (envs : nat -> callEnv) (i : nat)
    : option indexedResult :=
  dsp ← dsps !! i; Some {| idx := i; result := callDSP (envs i) dsp |}.

(** The collecting loop, [for received < len(d.dsps) { select ... }].
    The schedule lists what each [select] takes; when it is used up
    while results are still missing, the loop waits for ever ([None]).
    The channel only ever holds messages of started goroutines. *)
Fixpoint collect (dsps : list config.DSPConfig) (envs : nat -> callEnv)
    (schedule : list selected) (results : list Result) (nreceived : nat)
    : option (list Result) :=
  if decide (nreceived < length dsps)%nat then
    match schedule with
    | [] => None
    | ctxDone ctxErr :: _ => Some (fillRemaining dsps ctxErr results)
    | received i :: schedule' =>
        match message dsps envs i with
        | Some r =>
            collect dsps envs schedule' (<[idx r := result r]> results) (S nreceived)
        | None => None
        end
    end
  else Some results.

Definition Dispatch (dsps : list config.DSPConfig) (envs : nat -> callEnv)
    (schedule : list selected) : option (list Result) :=
  if decide (length dsps = 0%nat) then Some []
  else collect dsps envs schedule (replicate (length dsps) Result_zero) 0.

(** [AllBids(results)] of the dispatcher package. *)
Definition AllBids (results : list Result) : list openrtb.Bid :=
  fold_left (fun bids r =>
               match Error r, Response r with
               | None, Some resp => bids ++ openrtb.AllBids resp
               | _, _ => bids
               end) results [].

(** The dispatcher. Its [client] is nil until [New] has applied the
    options. *)
Record Dispatcher := {
  client : option (httpclient.Client * httpclient.fasthttpClient);
  dsps : list config.DSPConfig;
  timeout : Z;
  maxConnsPerHost : Z
}.

Inductive Option :=
| WithTimeout (d : Z)
| WithMaxConnsPerHost (n : Z).

Definition applyOption (d : Dispatcher) (opt : Option) : Dispatcher :=
  match opt with
  | WithTimeout t =>
      {| client := client d; dsps := dsps d; timeout := t;
         maxConnsPerHost := maxConnsPerHost d |}
  | WithMaxConnsPerHost n =>
      {| client := client d; dsps := dsps d; timeout := timeout d;
         maxConnsPerHost := n |}
  end.

Definition New (configured : list config.DSPConfig) (opts : list Option) : Dispatcher :=
  let d :=
    fold_left applyOption opts
      {| client := None; dsps := configured;
         timeout := 100 * httpclient.Millisecond; maxConnsPerHost := 100 |} in
  {| client :=
       Some (httpclient.New
               [httpclient.WithTimeout (timeout d);
                httpclient.WithMaxConnsPerHost (maxConnsPerHost d)]);
     dsps := dsps d; timeout := timeout d;
     maxConnsPerHost := maxConnsPerHost d |}.

End dispatcher.

(* ===================================================================== *)
(** ** package auction *)
(* ===================================================================== *)

Module auction.

Record BidWithDSP := {
  Bid : openrtb.Bid;
  DSPName : string
}.

Record Outcome := {
  RequestID : string;
  Winner : option openrtb.Bid;
  WinningDSP : string;
  ClearingPrice : float64;
  AllBids : list BidWithDSP
}.

(** The innermost loop of [Run], over the bids of one seat. *)
Definition collectSeat (name : string) (bidFloor : float64)
    (eligibleBids : list BidWithDSP) (sb : openrtb.SeatBid) : list BidWithDSP :=
  fold_left (fun eligible bid =>
               if f64_ge (openrtb.Price bid) bidFloor
               then eligible ++ [{| Bid := bid; DSPName := name |}]
               else eligible)
            (openrtb.SeatBid_Bid sb) eligibleBids.

(** The body of the outer loop of [Run], for one result. *)
Definition collectResult (bidFloor : float64) (eligibleBids : list BidWithDSP)
    (r : dispatcher.Result) : list BidWithDSP :=
  match dispatcher.Error r, dispatcher.Response r with
  | None, Some resp =>
      fold_left (collectSeat (dispatcher.DSPName r) bidFloor)
                (openrtb.BidResponse_SeatBid resp) eligibleBids
  | _, _ => eligibleBids
  end.

(** The loop that finds the highest bid: [rest] is what is left to
    range over and [i] the index of its head. [eligibleBids[highestIdx]]
    is always in range, as [highestIdx] is zero or an index seen. *)
Fixpoint highestLoop (eligibleBids rest : list BidWithDSP) (i highestIdx : nat) : nat :=
  match rest with
  | [] => highestIdx
  | b :: rest' =>
      let highestIdx' :=
        match eligibleBids !! highestIdx with
        | Some h =>
            if f64_gt (openrtb.Price (Bid b)) (openrtb.Price (Bid h))
            then i else highestIdx
        | None => highestIdx
        end in
      highestLoop eligibleBids rest' (S i) highestIdx'
  end.

Definition Run (requestID : string) (bidFloor : float64)
    (results : list dispatcher.Result) : Outcome :=
  let eligibleBids := fold_left (collectResult bidFloor) results [] in
  let outcome :=
    {| RequestID := requestID; Winner := None; WinningDSP := "";
       ClearingPrice := f64_zero; AllBids := eligibleBids |} in
  if decide (length eligibleBids = 0%nat) then outcome
  else
    let highestIdx := highestLoop eligibleBids eligibleBids 0 0 in
    match eligibleBids !! highestIdx with
    | Some winner =>
        {| RequestID := requestID;
           Winner := Some (Bid winner);
           WinningDSP := DSPName winner;
           ClearingPrice := openrtb.Price (Bid winner);
           AllBids := eligibleBids |}
    | None => outcome
    end.

End auction.

(* ===================================================================== *)
(** ** package stats *)
(* ===================================================================== *)

Module stats.

(** Counters are uint64, [totalLatency] is a [time.Duration] (int64). *)
Record dspStatsInternal := {
  requests : Z;
  bids : Z;
  wins : Z;
  noBids : Z;
  errors : Z;
  totalLatency : Z
}.

(** [&dspStatsInternal{}]. *)
Definition dspStatsInternal_zero : dspStatsInternal :=
  {| requests := 0; bids := 0; wins := 0; noBids := 0; errors := 0;
     totalLatency := 0 |}.

(** The collector. Its mutex serialises the calls; each operation
    below is one critical section. *)
Record Collector := {
  totalRequests : Z;
  totalBids : Z;
  totalWins : Z;
  totalNoBids : Z;
  totalErrors : Z;
  totalRevenue : float64;
  dspStats : gmap string dspStatsInternal
}.

Definition New : Collector :=
  {| totalRequests := 0; totalBids := 0; totalWins := 0; totalNoBids := 0;
     totalErrors := 0; totalRevenue := f64_zero; dspStats := ∅ |}.

(** [getOrCreateDSP]: the entry of the map for [name], made and stored
    first when there is none. The map holds pointers: the entry that is
    returned is the one in the map. *)
Definition getOrCreateDSP (m : gmap string dspStatsInternal) (name : string)
    : gmap string dspStatsInternal * dspStatsInternal :=
  match m !! name with
  | Some dsp => (m, dsp)
  | None => (<[name := dspStatsInternal_zero]> m, dspStatsInternal_zero)
  end.

(** A write through the pointer that [getOrCreateDSP] returned for [name]. *)
Definition storeDSP (m : gmap string dspStatsInternal) (name : string)
    (dsp : dspStatsInternal) : gmap string dspStatsInternal :=
  <[name := dsp]> m.

(** The global part of [RecordAuction], before the loops. *)
Definition recordOutcome (c : Collector) (outcome : auction.Outcome) : Collector :=
  let totalRequests' := u64_add (totalRequests c) 1 in
  let totalBids' :=
    u64_add (totalBids c) (Z.of_nat (length (auction.AllBids outcome))) in
  match auction.Winner outcome with
  | Some _ =>
      {| totalRequests := totalRequests'; totalBids := totalBids';
         totalWins := u64_add (totalWins c) 1;
         totalNoBids := totalNoBids c;
         totalErrors := totalErrors c;
         totalRevenue := f64_add (totalRevenue c) (auction.ClearingPrice outcome);
         dspStats := dspStats c |}
  | None =>
      {| totalRequests := totalRequests'; totalBids := totalBids';
         totalWins := totalWins c;
         totalNoBids := u64_add (totalNoBids c) 1;
         totalErrors := totalErrors c;
         totalRevenue := totalRevenue c;
         dspStats := dspStats c |}
  end.

(** The body of the loop over the results. *)
Definition recordResult (c : Collector) (r : dispatcher.Result) : Collector :=
  let '(m, dsp) := getOrCreateDSP (dspStats c) (dispatcher.DSPName r) in
  let requests' := u64_add (requests dsp) 1 in
  let totalLatency' := i64_add (totalLatency dsp) (dispatcher.Latency r) in
  match dispatcher.Error r with
  | Some _ =>
      {| totalRequests := totalRequests c; totalBids := totalBids c;
         totalWins := totalWins c; totalNoBids := totalNoBids c;
         totalErrors := u64_add (totalErrors c) 1;
         totalRevenue := totalRevenue c;
         dspStats :=
           storeDSP m (dispatcher.DSPName r)
             {| requests := requests'; bids := bids dsp; wins := wins dsp;
                noBids := noBids dsp; errors := u64_add (errors dsp) 1;
                totalLatency := totalLatency' |} |}
  | None =>
      let noBids' :=
        match dispatcher.Response r with
        | Some resp =>
            if openrtb.IsNoBid resp then u64_add (noBids dsp) 1 else noBids dsp
        | None => noBids dsp
        end in
      {| totalRequests := totalRequests c; totalBids := totalBids c;
         totalWins := totalWins c; totalNoBids := totalNoBids c;
         totalErrors := totalErrors c;
         totalRevenue := totalRevenue c;
         dspStats :=
           storeDSP m (dispatcher.DSPName r)
             {| requests := requests'; bids := bids dsp; wins := wins dsp;
                noBids := noBids'; errors := errors dsp;
                totalLatency := totalLatency' |} |}
  end.

(** [bidsByDSP[b.DSPName]++] for every eligible bid. The counts are
    ints; a count of the elements of a slice fits one. *)
Definition countBids (bs : list auction.BidWithDSP) : gmap string Z :=
  fold_left (fun bidsByDSP b =>
               <[auction.DSPName b :=
                   default 0 (bidsByDSP !! auction.DSPName b) + 1]> bidsByDSP)
            bs ∅.

(** The body of the loop over [bidsByDSP]. *)
Definition recordBids (c : Collector) (entry : string * Z) : Collector :=
  let '(dspName, count) := entry in
  let '(m, dsp) := getOrCreateDSP (dspStats c) dspName in
  {| totalRequests := totalRequests c; totalBids := totalBids c;
     totalWins := totalWins c; totalNoBids := totalNoBids c;
     totalErrors := totalErrors c; totalRevenue := totalRevenue c;
     dspStats :=
       storeDSP m dspName
         {| requests := requests dsp; bids := u64_add (bids dsp) count;
            wins := wins dsp; noBids := noBids dsp; errors := errors dsp;
            totalLatency := totalLatency dsp |} |}.

(** The last step: the win of the winning DSP. *)
Definition recordWin (c : Collector) (outcome : auction.Outcome) : Collector :=
  match auction.Winner outcome with
  | Some _ =>
      if decide (auction.WinningDSP outcome = "") then c
      else
        let '(m, dsp) := getOrCreateDSP (dspStats c) (auction.WinningDSP outcome) in
        {| totalRequests := totalRequests c; totalBids := totalBids c;
           totalWins := totalWins c; totalNoBids := totalNoBids c;
           totalErrors := totalErrors c; totalRevenue := totalRevenue c;
           dspStats :=
             storeDSP m (auction.WinningDSP outcome)
               {| requests := requests dsp; bids := bids dsp;
                  wins := u64_add (wins dsp) 1; noBids := noBids dsp;
                  errors := errors dsp; totalLatency := totalLatency dsp |} |}
  | None => c
  end.

(** [RecordAuction]. Go ranges over [bidsByDSP] in an unspecified
    order; [order] is the order taken, a permutation of the map's
    entries. *)
Definition RecordAuction_in (order : list (string * Z)) (c : Collector)
    (outcome : auction.Outcome) (results : list dispatcher.Result) : Collector :=
  let c1 := recordOutcome c outcome in
  let c2 := fold_left recordResult results c1 in
  let c3 := fold_left recordBids order c2 in
  recordWin c3 outcome.

Definition RecordAuction (c : Collector) (outcome : auction.Outcome)
    (results : list dispatcher.Result) : Collector :=
  RecordAuction_in (map_to_list (countBids (auction.AllBids outcome)))
                   c outcome results.

Record DSPStats := {
  Requests : Z;
  Bids : Z;
  Wins : Z;
  NoBids : Z;
  Errors : Z;
  AvgLatency : Z
}.

Record Snapshot_t := {
  TotalRequests : Z;
  TotalBids : Z;
  TotalWins : Z;
  TotalNoBids : Z;
  TotalErrors : Z;
  TotalRevenue : float64;
  DSPStats_map : gmap string DSPStats
}.

(** [internal.totalLatency / time.Duration(internal.requests)]: the
    conversion of the uint64 to int64 wraps, the division truncates. *)
Definition avgLatency (internal : dspStatsInternal) : Z :=
  if decide (0 < requests internal)
  then wrap_i64 (Z.quot (totalLatency internal) (wrap_i64 (requests internal)))
  else 0.

Definition Snapshot (c : Collector) : Snapshot_t :=
  {| TotalRequests := totalRequests c;
     TotalBids := totalBids c;
     TotalWins := totalWins c;
     TotalNoBids := totalNoBids c;
     TotalErrors := totalErrors c;
     TotalRevenue := totalRevenue c;
     DSPStats_map :=
       (fun internal =>
          {| Requests := requests internal; Bids := bids internal;
             Wins := wins internal; NoBids := noBids internal;
             Errors := errors internal;
             AvgLatency := avgLatency internal |}) <$> dspStats c |}.

Definition Reset (c : Collector) : Collector :=
  {| totalRequests := 0; totalBids := 0; totalWins := 0; totalNoBids := 0;
     totalErrors := 0; totalRevenue := f64_zero; dspStats := ∅ |}.

End stats.

(* ===================================================================== *)
(** ** package engine *)
(* ===================================================================== *)

Module engine.

Definition ErrAlreadyRunning : errors.error := errors.New "engine is already running".
Definition ErrNotRunning : errors.error := errors.New "engine is not running".

(** The engine. Each context made by [Start] has a number; [cancel]
    holds the number of the context whose cancel function is stored
    ([None] is the nil function). [loops] lists the contexts of the
    loop goroutines that have not returned yet: it stands for the
    WaitGroup, whose counter is its length. [cancelled] lists the
    contexts cancelled so far and [nextCtx] numbers the next context. *)
Record Engine := {
  rps : Z;
  bidFloor : float64;
  running : bool;
  cancel : option nat;
  loops : list nat;
  cancelled : list nat;
  nextCtx : nat
}.

(** The options of the package. *)
Inductive Option :=
| WithRPS (rps : Z)
| WithBidFloor (floor : float64).

Definition applyOption (e : Engine) (opt : Option) : Engine :=
  match opt with
  | WithRPS n =>
      {| rps := n; bidFloor := bidFloor e; running := running e;
         cancel := cancel e; loops := loops e; cancelled := cancelled e;
         nextCtx := nextCtx e |}
  | WithBidFloor floor =>
      {| rps := rps e; bidFloor := floor; running := running e;
         cancel := cancel e; loops := loops e; cancelled := cancelled e;
         nextCtx := nextCtx e |}
  end.

Definition New (opts : list Option) : Engine :=
  fold_left applyOption opts
    {| rps := 100; bidFloor := f64_0_01; running := false; cancel := None;
       loops := []; cancelled := []; nextCtx := 0 |}.

(** [Start], one critical section: the error returned and the engine
    afterwards. The goroutine it spawns runs [loop], whose first
    statements are [loopInterval] below: it lives, and returns once its
    context is done, only when they give it a ticker. Without one it
    panics and the process ends, so what is stated of an engine after a
    [Start] that succeeded assumes [is_Some (loopInterval e)]. *)
Definition Start (e : Engine) : option errors.error * Engine :=
  if running e then (Some ErrAlreadyRunning, e)
  else
    (None,
     {| rps := rps e; bidFloor := bidFloor e;
        running := true;
        cancel := Some (nextCtx e);
        loops := nextCtx e :: loops e;
        cancelled := cancelled e;
        nextCtx := S (nextCtx e) |}).

(** The first part of [Stop]: read [e.cancel] under the lock and call
    it when it is not nil. *)
Definition Stop_cancel (e : Engine) : Engine :=
  match cancel e with
  | Some ctx =>
      {| rps := rps e; bidFloor := bidFloor e; running := running e;
         cancel := cancel e; loops := loops e;
         cancelled := ctx :: cancelled e; nextCtx := nextCtx e |}
  | None => e
  end.

(** A loop goroutine returns, and calls [e.wg.Done()], once its
    context is done. *)
Definition loopsLeft (e : Engine) : list nat :=
  filter (fun ctx => ctx ∉ cancelled e) (loops e).

(** [e.wg.Wait()]: returns when every loop goroutine has returned, and
    never when one of them has a context that nobody cancels ([None]). *)
Definition wgWait (e : Engine) : option Engine :=
  if decide (loopsLeft e = []) then
    Some {| rps := rps e; bidFloor := bidFloor e; running := running e;
            cancel := cancel e; loops := []; cancelled := cancelled e;
            nextCtx := nextCtx e |}
  else None.

(** The last part of [Stop], under the lock again. *)
Definition Stop_finish (e : Engine) : Engine :=
  {| rps := rps e; bidFloor := bidFloor e; running := false; cancel := None;
     loops := loops e; cancelled := cancelled e; nextCtx := nextCtx e |}.

Definition Stop (e : Engine) : option Engine :=
  e' ← wgWait (Stop_cancel e); Some (Stop_finish e').

Definition IsRunning (e : Engine) : bool := running e.

(** The bid floor of a tick: the floor of the first impression if
    there is one and its floor is above zero, the engine's otherwise. *)
Definition tickBidFloor (e : Engine) (req : openrtb.BidRequest) : float64 :=
  match openrtb.BidRequest_Imp req with
  | imp0 :: _ =>
      if f64_gt (openrtb.BidFloor imp0) f64_zero
      then openrtb.BidFloor imp0
      else bidFloor e
  | [] => bidFloor e
  end.

Section tick.

(** The collaborators of the engine, behind their interfaces: the
    request [e.generator.Generate()] returns at this tick, what
    [e.dispatcher.Dispatch(ctx, req)] returns, and [e.auction.Run]. *)
Variable Generate : openrtb.BidRequest.
Variable Dispatch : openrtb.BidRequest -> list dispatcher.Result.
Variable Run : string -> float64 -> list dispatcher.Result -> auction.Outcome.

Definition tick (e : Engine) (c : stats.Collector) : stats.Collector :=
  let req := Generate in
  let bidFloor := tickBidFloor e req in
  let results := Dispatch req in
  let outcome := Run (openrtb.BidRequest_ID req) bidFloor results in
  stats.RecordAuction c outcome results.

End tick.


(** [time.Second], in nanoseconds. *)
Definition Second : Z := 1000000000.

(** The start of [loop]: [interval := time.Second / time.Duration(e.rps)]
    and [time.NewTicker(interval)]. The division panics when [e.rps] is
    zero and [NewTicker] panics when the interval is not positive;
    [None] stands for the panic. Go's division truncates towards zero. *)
Definition loopInterval (e : Engine) : option Z :=
  let d := wrap_i64 (rps e) in
  if decide (d = 0) then None
  else
    let interval := Z.quot Second d in
    if decide (interval ≤ 0) then None else Some interval.

(** What the [select] of [Shutdown] takes: [done] is closed (the
    goroutine that waits for the loops has seen them return), or the
    context of the caller is done (with [ctx.Err()]). *)
Inductive shutdownSelected :=
| doneClosed
| ctxExpired (ctxErr : errors.error).

(** [Shutdown]: the error returned and the engine afterwards; [None]
    when [done] is waited for and the loops never return. *)
Definition Shutdown (sel : shutdownSelected) (e : Engine)
    : option (option errors.error * Engine) :=
  let e1 := Stop_cancel e in
  match sel with
  | doneClosed => e' ← wgWait e1; Some (None, Stop_finish e')
  | ctxExpired ctxErr => Some (Some ctxErr, e1)
  end.

End engine.

(* ===================================================================== *)
(** ** Bytes and strings *)
(* ===================================================================== *)

Module bytes.

(** A byte is a number below 256. [u8_add] is [+] on bytes and on
    uint8. *)
Definition wrap_u8 (z : Z) : Z := z mod 256.
Definition u8_add (a b : Z) : Z := wrap_u8 (a + b).

Definition byte_of_Z (z : Z) : Byte.byte :=
  default Byte.x00 (Byte.of_N (Z.to_N (wrap_u8 z))).

(** [string(buf)] and [[]byte(s)]. *)
Definition go_string (buf : list Z) : string :=
  String.string_of_list_byte (byte_of_Z <$> buf).

Definition bytes_of (s : string) : list Z :=
  (λ b, Z.of_N (Byte.to_N b)) <$> String.list_byte_of_string s.

(** [copy(dst, src)]: the first [min(len(dst), len(src))] bytes of
    [dst] are overwritten. *)
Definition copy (dst src : list Z) : list Z :=
  take (length dst) src ++ drop (length src) dst.

(** [buf[i] = b], which panics ([None]) when [i] is out of range. *)
Definition store (buf : list Z) (i : nat) (b : Z) : option (list Z) :=
  if decide (i < length buf)%nat then Some (<[i := b]> buf) else None.

(** The loop [for i := hi; i >= lo; i-- { buf[i] = '0' + byte(n%10);
    n /= 10 }] of [nextID] and [randomAppID], for [iters = hi - lo + 1]
    iterations; every index it writes is in range there. *)
Fixpoint writeDigits (iters : nat) (i : nat) (buf : list Z) (n : Z) : list Z :=
  match iters with
  | O => buf
  | S iters' =>
      writeDigits iters' (i - 1) (<[i := u8_add 48 (wrap_u8 (n mod 10))]> buf) (n / 10)
  end.

End bytes.

(* ===================================================================== *)
(** ** package generator *)
(* ===================================================================== *)

Module generator.

(** The generator; its scenario is behind an interface and is a
    parameter of [Generate]. *)
Record Generator := {
  counter : Z;
  timeout : Z;
  auctionType : Z
}.

Inductive Option :=
| WithTimeout (ms : Z)
| WithAuctionType (at_ : Z).

Definition applyOption (g : Generator) (opt : Option) : Generator :=
  match opt with
  | WithTimeout ms =>
      {| counter := counter g; timeout := ms; auctionType := auctionType g |}
  | WithAuctionType a =>
      {| counter := counter g; timeout := timeout g; auctionType := a |}
  end.

Definition AuctionFirstPrice : Z := 1.

Definition New (opts : list Option) : Generator :=
  fold_left applyOption opts
    {| counter := 0; timeout := 100; auctionType := AuctionFirstPrice |}.

(** The bytes of the ID made for the counter value [n]. *)
Definition nextID_bytes (n : Z) : list Z :=
  let buf := replicate 12 0 in
  let buf := bytes.copy (take 4 buf) (bytes.bytes_of "req-") ++ drop 4 buf in
  bytes.writeDigits 8 11 buf n.

(** [nextID]: the counter is incremented atomically and the ID is made
    from its new value. *)
Definition nextID (g : Generator) : string * Generator :=
  let n := u64_add (counter g) 1 in
  (bytes.go_string (nextID_bytes n),
   {| counter := n; timeout := timeout g; auctionType := auctionType g |}).

Section Generate.

(** What [g.scenario.Generate(id)] returns. *)
Variable scenarioGenerate : string → openrtb.BidRequest.

Definition Generate (g : Generator) : openrtb.BidRequest * Generator :=
  let '(id, g') := nextID g in
  let req := scenarioGenerate id in
  let req :=
    if decide (0 < timeout g) then
      {| openrtb.BidRequest_ID := openrtb.BidRequest_ID req;
         openrtb.BidRequest_Imp := openrtb.BidRequest_Imp req;
         openrtb.At := openrtb.At req;
         openrtb.Tmax := timeout g;
         openrtb.BidRequest_Cur := openrtb.BidRequest_Cur req;
         openrtb.Bcat := openrtb.Bcat req |}
    else req in
  let req :=
    if decide (0 < auctionType g) then
      {| openrtb.BidRequest_ID := openrtb.BidRequest_ID req;
         openrtb.BidRequest_Imp := openrtb.BidRequest_Imp req;
         openrtb.At := auctionType g;
         openrtb.Tmax := openrtb.Tmax req;
         openrtb.BidRequest_Cur := openrtb.BidRequest_Cur req;
         openrtb.Bcat := openrtb.Bcat req |}
    else req in
  (req, g').

(** [k] calls of [Generate] in a row: the requests, oldest first, and
    the generator afterwards. *)
Fixpoint GenerateN (k : nat) (g : Generator) : list openrtb.BidRequest * Generator :=
  match k with
  | O => ([], g)
  | S k' =>
      let '(req, g1) := Generate g in
      let '(reqs, g2) := GenerateN k' g1 in
      (req :: reqs, g2)
  end.

End Generate.

End generator.

(* ===================================================================== *)
(** ** package scenarios: the byte-level helpers *)
(* ===================================================================== *)

Module scenarios.

Definition hexChars : string := "0123456789abcdef".

(** [writeUint8(buf[off:], n)] on the array [buf]: the array afterwards
    and the number of bytes written, or a panic ([None]) when the slice
    or an index is out of range. [n] is a uint8. *)
Definition writeUint8 (buf : list Z) (off : nat) (n : Z) : option (list Z * nat) :=
  if decide (length buf < off)%nat then None
  else if decide (100 <= n) then
    buf ← bytes.store buf off (bytes.u8_add 48 (n / 100));
    buf ← bytes.store buf (off + 1) (bytes.u8_add 48 ((n / 10) mod 10));
    buf ← bytes.store buf (off + 2) (bytes.u8_add 48 (n mod 10));
    Some (buf, 3%nat)
  else if decide (10 <= n) then
    buf ← bytes.store buf off (bytes.u8_add 48 (n / 10));
    buf ← bytes.store buf (off + 1) (bytes.u8_add 48 (n mod 10));
    Some (buf, 2%nat)
  else
    buf ← bytes.store buf off (bytes.u8_add 48 n);
    Some (buf, 1%nat).

(** [randomIP], given the four numbers [rand.IntN(223)], [rand.IntN(256)],
    [rand.IntN(256)] and [rand.IntN(254)] return. *)
Definition randomIP (r1 r2 r3 r4 : Z) : option string :=
  let buf := replicate 15 0 in
  let n := 0%nat in
  '(buf, k) ← writeUint8 buf n (bytes.wrap_u8 (r1 + 1));
  let n := (n + k)%nat in
  buf ← bytes.store buf n 46;
  let n := (n + 1)%nat in
  '(buf, k) ← writeUint8 buf n (bytes.wrap_u8 r2);
  let n := (n + k)%nat in
  buf ← bytes.store buf n 46;
  let n := (n + 1)%nat in
  '(buf, k) ← writeUint8 buf n (bytes.wrap_u8 r3);
  let n := (n + k)%nat in
  buf ← bytes.store buf n 46;
  let n := (n + 1)%nat in
  '(buf, k) ← writeUint8 buf n (bytes.wrap_u8 (r4 + 1));
  let n := (n + k)%nat in
  if decide (n ≤ length buf)%nat then Some (bytes.go_string (take n buf)) else None.

(** [randomUserID], given the number [rand.IntN(16)] returns at each
    iteration; [i] is the index written and [iters] the iterations left.
    Indexing [hexChars] out of range panics. *)
Fixpoint randomUserID_loop (iters : nat) (i : nat) (rs : nat → Z) (buf : list Z)
    : option (list Z) :=
  match iters with
  | O => Some buf
  | S iters' =>
      if decide (0 ≤ rs i) then
        c ← bytes.bytes_of hexChars !! Z.to_nat (rs i);
        buf ← bytes.store buf i c;
        randomUserID_loop iters' (S i) rs buf
      else None
  end.

Definition randomUserID (rs : nat → Z) : option string :=
  bytes.go_string <$> randomUserID_loop 32 0 rs (replicate 32 0).

(** [randomAppID], given the number [rand.IntN(1000000)] returns. *)
Definition randomAppID_bytes (n : Z) : list Z :=
  let buf := replicate 10 0 in
  let buf := bytes.copy (take 4 buf) (bytes.bytes_of "app-") ++ drop 4 buf in
  bytes.writeDigits 6 9 buf n.

Definition randomAppID (n : Z) : string := bytes.go_string (randomAppID_bytes n).

End scenarios.

(* ===================================================================== *)
(** ** The specification's words, as definitions *)
(* ===================================================================== *)

(** The eligible bids as the specification describes them: flatten the
    bids of every seat of every result without error and with a
    response, keep those at or above the floor, tag each with the name
    of the DSP of its result. *)
Definition tagBid (name : string) (bid : openrtb.Bid) : auction.BidWithDSP :=
  {| auction.Bid := bid; auction.DSPName := name |}.

Definition priceOf (e : auction.BidWithDSP) : float64 :=
  openrtb.Price (auction.Bid e).

Definition aboveFloor (bidFloor : float64) (bid : openrtb.Bid) : bool :=
  f64_ge (openrtb.Price bid) bidFloor.

Definition eligibleOf (bidFloor : float64) (r : dispatcher.Result)
    : list auction.BidWithDSP :=
  match dispatcher.Error r, dispatcher.Response r with
  | None, Some resp =>
      List.map (tagBid (dispatcher.DSPName r))
        (List.filter (aboveFloor bidFloor)
           (List.flat_map openrtb.SeatBid_Bid (openrtb.BidResponse_SeatBid resp)))
  | _, _ => []
  end.

Definition eligibleBids_spec (bidFloor : float64) (results : list dispatcher.Result)
    : list auction.BidWithDSP :=
  List.flat_map (eligibleOf bidFloor) results.

(** What the collecting loop of [Dispatch] sees of a schedule: the
    ordinals received before the context is first seen done, and the
    error of the context at that point, if it comes. *)
Fixpoint arrivals (schedule : list dispatcher.selected) : list nat :=
  match schedule with
  | dispatcher.received i :: schedule' => i :: arrivals schedule'
  | _ => []
  end.

Fixpoint cancelCause (schedule : list dispatcher.selected) : option errors.error :=
  match schedule with
  | [] => None
  | dispatcher.ctxDone ctxErr :: _ => Some ctxErr
  | dispatcher.received _ :: schedule' => cancelCause schedule'
  end.

(** The outcome made up for a DSP on cancellation. *)
Definition cancelledResult (dsp : config.DSPConfig) (ctxErr : errors.error)
    : dispatcher.Result :=
  {| dispatcher.DSPName := config.Name dsp; dispatcher.Response := None;
     dispatcher.Error := Some ctxErr; dispatcher.Latency := 0 |}.

(* ===================================================================== *)
(** ** Scenarios *)
(* ===================================================================== *)

Module scenario.

Definition bid (id : string) (price : float64) : openrtb.Bid :=
  {| openrtb.Bid_ID := id; openrtb.ImpID := "imp-1"; openrtb.Price := price;
     openrtb.AdID := ""; openrtb.NURL := ""; openrtb.AdM := "";
     openrtb.ADomain := []; openrtb.CID := ""; openrtb.CrID := "";
     openrtb.Cat := []; openrtb.W := 0; openrtb.H := 0 |}.

Definition response (id : string) (seats : list (list openrtb.Bid))
    : openrtb.BidResponse :=
  {| openrtb.BidResponse_ID := id;
     openrtb.BidResponse_SeatBid :=
       List.map (λ bs, {| openrtb.SeatBid_Bid := bs; openrtb.Seat := "" |}) seats;
     openrtb.BidID := ""; openrtb.BidResponse_Cur := ""; openrtb.NBR := 0 |}.

Definition answered (name : string) (resp : openrtb.BidResponse) (latency : Z)
    : dispatcher.Result :=
  {| dispatcher.DSPName := name; dispatcher.Response := Some resp;
     dispatcher.Error := None; dispatcher.Latency := latency |}.

Definition failed (name : string) (err : errors.error) (latency : Z)
    : dispatcher.Result :=
  {| dispatcher.DSPName := name; dispatcher.Response := None;
     dispatcher.Error := Some err; dispatcher.Latency := latency |}.

(** Prices 0.5, 1.5, 2 and 3. *)
Definition p0_5 : float64 := f64_of 1 (-1).
Definition p1_5 : float64 := f64_of 3 (-1).
Definition p2 : float64 := f64_of 2 0.
Definition p3 : float64 := f64_of 3 0.

(** One DSP answers with two bids of one seat, at 2 and 3. *)
Definition twoBidsOneSeat : list dispatcher.Result :=
  [answered "dsp1" (response "req-1" [[bid "bid-1" p2; bid "bid-2" p3]]) 10].

(** Two DSPs quote the same price. *)
Definition tie : list dispatcher.Result :=
  [answered "dsp1" (response "req-1" [[bid "bid-1" p2]]) 10;
   answered "dsp2" (response "req-1" [[bid "bid-2" p2]]) 12].

End scenario.

(** The slots of the result array once the messages of the goroutines
    listed in [got] have been stored. *)
Definition slots (dsps : list config.DSPConfig) (envs : nat → dispatcher.callEnv)
    (got : list nat) : list dispatcher.Result :=
  imap (λ i dsp, if decide (i ∈ got) then dispatcher.callDSP (envs i) dsp
                 else dispatcher.Result_zero) dsps.

Module scenario_dispatch.

(** Two DSPs, the first configured without a name (the configuration
    only requires an endpoint). Both answer with a bid; the first
    message is received, then the context is seen cancelled. *)
Definition dsps : list config.DSPConfig :=
  [{| config.Name := ""; config.Endpoint := "http://dsp-a/bid";
      config.Enabled := true |};
   {| config.Name := "dsp2"; config.Endpoint := "http://dsp-b/bid";
      config.Enabled := true |}].

Definition named : list config.DSPConfig :=
  [{| config.Name := "dsp1"; config.Endpoint := "http://dsp-a/bid";
      config.Enabled := true |};
   {| config.Name := "dsp2"; config.Endpoint := "http://dsp-b/bid";
      config.Enabled := true |}].

Definition resp : openrtb.BidResponse :=
  scenario.response "req-1" [[scenario.bid "bid-1" scenario.p2]].

Definition envs (i : nat) : dispatcher.callEnv :=
  {| dispatcher.ctxBefore := None;
     dispatcher.postResult := (Some resp, None);
     dispatcher.elapsed := 10 * httpclient.Millisecond;
     dispatcher.ctxAfter := None |}.

Definition schedule : list dispatcher.selected :=
  [dispatcher.received 0; dispatcher.ctxDone context.Canceled].

End scenario_dispatch.

Module scenario_http.

Definition request : openrtb.BidRequest :=
  {| openrtb.BidRequest_ID := "req-1";
     openrtb.BidRequest_Imp :=
       [{| openrtb.Imp_ID := "imp-1"; openrtb.BidFloor := scenario.p0_5;
           openrtb.Secure := 0; openrtb.Tagid := "" |}];
     openrtb.At := 1; openrtb.Tmax := 100;
     openrtb.BidRequest_Cur := ["USD"]; openrtb.Bcat := [] |}.

Definition client : httpclient.Client :=
  {| httpclient.timeout := 100 * httpclient.Millisecond;
     httpclient.maxConnsPerHost := 100; httpclient.maxIdleConns := 100 |}.

(** A server that answers every request with the given status and an
    empty body; a decoder that fails on every body. *)
Definition Marshal (req : openrtb.BidRequest) : list Byte.byte * option errors.error :=
  ([], None).

Definition answer (status : Z) (url : string) (body : list Byte.byte) (timeout : Z)
    : fasthttp.Response * option errors.error :=
  ({| fasthttp.StatusCode := status; fasthttp.Body := [] |}, None).

Definition noAnswer (err : errors.error) (url : string) (body : list Byte.byte)
    (timeout : Z) : fasthttp.Response * option errors.error :=
  ({| fasthttp.StatusCode := 0; fasthttp.Body := [] |}, Some err).

Definition Unmarshal (body : list Byte.byte)
    : openrtb.BidResponse * option errors.error :=
  (openrtb.BidResponse_with_ID "", Some (errors.New "invalid json")).

End scenario_http.

(** The counters of a DSP as a snapshot would show them: those of its
    entry, or zeros when the map has no entry for it. *)
Definition dspOf (c : stats.Collector) (name : string) : stats.dspStatsInternal :=
  default stats.dspStatsInternal_zero (stats.dspStats c !! name).

(** A uint64 counter incremented by one, [k] times. *)
Definition incr_times (k : nat) (x : Z) : Z := Nat.iter k (λ v, u64_add v 1) x.

(** What the loop body of [RecordAuction] does to the counters of the
    DSP of a result. *)
Definition updResult (r : dispatcher.Result) (dsp : stats.dspStatsInternal)
    : stats.dspStatsInternal :=
  {| stats.requests := u64_add (stats.requests dsp) 1;
     stats.bids := stats.bids dsp;
     stats.wins := stats.wins dsp;
     stats.noBids :=
       match dispatcher.Error r, dispatcher.Response r with
       | None, Some resp =>
           if openrtb.IsNoBid resp then u64_add (stats.noBids dsp) 1
           else stats.noBids dsp
       | _, _ => stats.noBids dsp
       end;
     stats.errors :=
       match dispatcher.Error r with
       | Some _ => u64_add (stats.errors dsp) 1
       | None => stats.errors dsp
       end;
     stats.totalLatency := i64_add (stats.totalLatency dsp) (dispatcher.Latency r) |}.

Definition addBids (count : Z) (dsp : stats.dspStatsInternal) : stats.dspStatsInternal :=
  {| stats.requests := stats.requests dsp;
     stats.bids := u64_add (stats.bids dsp) count;
     stats.wins := stats.wins dsp;
     stats.noBids := stats.noBids dsp;
     stats.errors := stats.errors dsp;
     stats.totalLatency := stats.totalLatency dsp |}.

(** The results of one DSP, those that carry an error, and those that
    carry no error and a response that is a no-bid. *)
Definition resultsOf (name : string) (results : list dispatcher.Result)
    : list dispatcher.Result :=
  filter (λ r, dispatcher.DSPName r = name) results.

Definition hasError (r : dispatcher.Result) : Prop :=
  dispatcher.Error r ≠ None.

Definition isNoBidResult (r : dispatcher.Result) : Prop :=
  dispatcher.Error r = None
  ∧ ∃ resp, dispatcher.Response r = Some resp ∧ openrtb.IsNoBid resp = true.

Global Instance hasError_dec r : Decision (hasError r).
Proof. unfold hasError. apply _. Defined.

Global Instance isNoBidResult_dec r : Decision (isNoBidResult r).
Proof.
  unfold isNoBidResult.
  destruct (dispatcher.Error r) as [e|].
  - right. by intros [? _].
  - destruct (dispatcher.Response r) as [resp|].
    + destruct (openrtb.IsNoBid resp) eqn:E.
      * left. split; [done|]. by exists resp.
      * right. intros [_ (resp' & [= <-] & H)]. congruence.
    + right. by intros [_ (resp' & ? & _)].
Defined.

(** The number of eligible bids of an outcome that carry a DSP's name. *)
Definition bidsOf (name : string) (bs : list auction.BidWithDSP) : Z :=
  Z.of_nat (length (filter (λ b, auction.DSPName b = name) bs)).

(** A run of the collector: the calls of [RecordAuction] in order. *)
Definition recordAll (c : stats.Collector)
    (calls : list (auction.Outcome * list dispatcher.Result)) : stats.Collector :=
  fold_left (λ c call, stats.RecordAuction c call.1 call.2) calls c.

Definition hasWinner (o : auction.Outcome) : bool :=
  match auction.Winner o with Some _ => true | None => false end.

(** The sum of float64 numbers, accumulated from zero in order. *)
Definition f64_sum (l : list float64) : float64 := fold_left f64_add l f64_zero.

Definition clearingPrices (calls : list (auction.Outcome * list dispatcher.Result))
    : list float64 :=
  List.map (λ call, auction.ClearingPrice call.1)
    (List.filter (λ call, hasWinner call.1) calls).

Definition countWinners (calls : list (auction.Outcome * list dispatcher.Result)) : Z :=
  Z.of_nat (length (List.filter (λ call, hasWinner call.1) calls)).

Definition countNoWinner (calls : list (auction.Outcome * list dispatcher.Result)) : Z :=
  Z.of_nat (length (List.filter (λ call, negb (hasWinner call.1)) calls)).

Definition countEligible (calls : list (auction.Outcome * list dispatcher.Result)) : Z :=
  fold_right (λ call n, Z.of_nat (length (auction.AllBids call.1)) + n) 0 calls.

Module scenario_stats.

(** One auction over [scenario.twoBidsOneSeat] at floor 0.5, and one
    over a DSP that times out. *)
Definition timedOut : list dispatcher.Result :=
  [scenario.failed "dsp1" (errors.TimeoutError fasthttp.ErrTimeout) 50000000].

Definition calls : list (auction.Outcome * list dispatcher.Result) :=
  [(auction.Run "req-1" scenario.p0_5 scenario.twoBidsOneSeat,
    scenario.twoBidsOneSeat);
   (auction.Run "req-2" scenario.p0_5 timedOut, timedOut)].

(** A result with neither an error nor a response. *)
Definition silent : dispatcher.Result :=
  {| dispatcher.DSPName := "dsp1"; dispatcher.Response := None;
     dispatcher.Error := None; dispatcher.Latency := 5000000 |}.

End scenario_stats.

(** The states of the engine's life cycle. An engine is idle when it is
    not running, holds no cancel function and has no loop goroutine; it
    is stopping from [Stop]'s call of the cancel function until [Stop]
    clears the running flag. *)
Definition idle (e : engine.Engine) : Prop :=
  engine.running e = false ∧ engine.cancel e = None ∧ engine.loops e = [].

(** The floor the options configure: the one of the last [WithBidFloor],
    0.01 without any. *)
Definition configuredFloor (opts : list engine.Option) : float64 :=
  fold_left (λ floor opt,
               match opt with
               | engine.WithBidFloor f => f
               | engine.WithRPS _ => floor
               end) opts f64_0_01.

Module scenario_engine.

Definition noImp : openrtb.BidRequest :=
  {| openrtb.BidRequest_ID := "req-0"; openrtb.BidRequest_Imp := [];
     openrtb.At := 1; openrtb.Tmax := 100;
     openrtb.BidRequest_Cur := []; openrtb.Bcat := [] |}.

Definition zeroFloor : openrtb.BidRequest :=
  {| openrtb.BidRequest_ID := "req-1";
     openrtb.BidRequest_Imp :=
       [{| openrtb.Imp_ID := "imp-1"; openrtb.BidFloor := f64_zero;
           openrtb.Secure := 0; openrtb.Tagid := "" |}];
     openrtb.At := 1; openrtb.Tmax := 100;
     openrtb.BidRequest_Cur := []; openrtb.Bcat := [] |}.

End scenario_engine.

Module scenario_bids.

(** A response whose first bid has a NaN price and whose second bid is
    priced 3; a response with bids at 2, 3 and 3 over two seats. *)
Definition nanFirst : openrtb.BidResponse :=
  scenario.response "req-1"
    [[scenario.bid "bid-1" S754_nan; scenario.bid "bid-2" scenario.p3]].

Definition twoSeats : openrtb.BidResponse :=
  scenario.response "req-1"
    [[scenario.bid "bid-1" scenario.p2; scenario.bid "bid-2" scenario.p3];
     [scenario.bid "bid-3" scenario.p3]].

End scenario_bids.

(** A result carries one of a response and an error, and not both. *)
Definition oneOf (r : dispatcher.Result) : Prop :=
  dispatcher.Response r = None ↔ is_Some (dispatcher.Error r).

(** The timeout the options of the dispatcher configure: the one of the
    last [WithTimeout], 100ms without any. *)
Definition configuredTimeout (opts : list dispatcher.Option) : Z :=
  fold_left (λ t opt,
               match opt with
               | dispatcher.WithTimeout d => d
               | dispatcher.WithMaxConnsPerHost _ => t
               end) opts (100 * httpclient.Millisecond).

Definition isMaxIdleConns (opt : httpclient.Option) : bool :=
  match opt with
  | httpclient.WithMaxIdleConns _ => true
  | _ => false
  end.

Module scenario_post.

(** Two DSPs whose calls go through [Post]: the first is answered 200
    with a body that does not decode, the second is not answered in
    time. *)
Definition env (DoTimeout : string → list Byte.byte → Z
                            → fasthttp.Response * option errors.error)
    (url : string) : dispatcher.callEnv :=
  {| dispatcher.ctxBefore := None;
     dispatcher.postResult :=
       httpclient.Post scenario_http.Marshal DoTimeout scenario_http.Unmarshal
         scenario_http.client url scenario_http.request;
     dispatcher.elapsed := 10 * httpclient.Millisecond;
     dispatcher.ctxAfter := None |}.

Definition envs (i : nat) : dispatcher.callEnv :=
  match i with
  | O => env (scenario_http.answer 200) "http://dsp-a/bid"
  | _ => env (scenario_http.noAnswer fasthttp.ErrTimeout) "http://dsp-b/bid"
  end.

Definition allReceived : list dispatcher.selected :=
  [dispatcher.received 1; dispatcher.received 0].

End scenario_post.

Module scenario_config.

(** A configuration file that only lists DSPs: one enabled without a
    name, one disabled. *)
Definition onlyDSPs : config.Config :=
  {| config.Server := {| config.Port := 0 |};
     config.Simulation := {| config.RequestsPerSecond := 0; config.Scenario := "" |};
     config.Auction := {| config.Type_ := ""; config.TimeoutMS := 0 |};
     config.DSPs :=
       [{| config.Name := ""; config.Endpoint := "http://dsp-a/bid";
           config.Enabled := true |};
        {| config.Name := "dsp2"; config.Endpoint := "http://dsp-b/bid";
           config.Enabled := false |}] |}.

(** The second DSP has no endpoint. *)
Definition missingEndpoint : config.Config :=
  {| config.Server := {| config.Port := 8080 |};
     config.Simulation :=
       {| config.RequestsPerSecond := 10; config.Scenario := "mobile_app" |};
     config.Auction := {| config.Type_ := "first_price"; config.TimeoutMS := 100 |};
     config.DSPs :=
       [{| config.Name := "dsp1"; config.Endpoint := "http://dsp-a/bid";
           config.Enabled := true |};
        {| config.Name := "dsp2"; config.Endpoint := "";
           config.Enabled := true |}] |}.

Definition ReadFile (path : string) : list Byte.byte * option errors.error :=
  ([], None).

Definition Unmarshal (data : list Byte.byte) : config.Config * option errors.error :=
  (onlyDSPs, None).

End scenario_config.

(** Reading decimal digits: the number a sequence of ASCII digits
    denotes, and what a digit is. *)
Definition isDigit (b : Z) : Prop := 48 ≤ b ≤ 57.

Definition decimalValue (bs : list Z) : Z :=
  fold_left (λ acc b, acc * 10 + (b - 48)) bs 0.

(** The [k] low decimal digits of [n] in ASCII, most significant first. *)
Fixpoint digitsOf (k : nat) (n : Z) : list Z :=
  match k with
  | O => []
  | S k' => digitsOf k' (n / 10) ++ [48 + n mod 10]
  end.

(** The value of a lower-case hexadecimal digit. *)
Definition hexValue (b : Z) : option Z :=
  if decide (48 ≤ b ≤ 57) then Some (b - 48)
  else if decide (97 ≤ b ≤ 102) then Some (b - 87)
  else None.

(** The IDs of a list of requests. *)
Definition requestIDs (reqs : list openrtb.BidRequest) : list string :=
  openrtb.BidRequest_ID <$> reqs.

Module scenario_generator.

(** A scenario that, like the mobile-app scenario, puts the ID it is
    given in the request, with a timeout and an auction type of its
    own. *)
Definition scenarioGenerate (id : string) : openrtb.BidRequest :=
  {| openrtb.BidRequest_ID := id;
     openrtb.BidRequest_Imp :=
       [{| openrtb.Imp_ID := "imp-1"; openrtb.BidFloor := scenario.p0_5;
           openrtb.Secure := 1; openrtb.Tagid := "" |}];
     openrtb.At := 2; openrtb.Tmax := 250;
     openrtb.BidRequest_Cur := ["USD"]; openrtb.Bcat := [] |}.

End scenario_generator.

(* ===================================================================== *)
(** ** api: the HTTP handlers that control the engine *)
(* ===================================================================== *)

Module api.

Definition MethodGet : string := "GET".
Definition MethodPost : string := "POST".

Definition StatusOK : Z := 200.
Definition StatusMethodNotAllowed : Z := 405.
Definition StatusConflict : Z := 409.
Definition StatusInternalServerError : Z := 500.

(** The values the handlers encode as JSON: [StatusResponse],
    [ErrorResponse] (with a literal text, or with [err.Error()]), the
    snapshot of the statistics and the configuration. *)
Inductive payload :=
| StatusResponse (Running : bool) (Message : string)
| ErrorResponse (Error : string)
| ErrorResponse_of (err : errors.error)
| SnapshotOf (snap : stats.Snapshot_t)
| ConfigOf (cfg : config.Config).

(** What a handler writes: [http.Error(w, msg, code)], a header with a
    plain body, or [s.writeJSON(w, status, v)]. *)
Inductive response :=
| httpError (msg : string) (code : Z)
| written (code : Z) (body : string)
| writeJSON (status : Z) (v : payload).

Definition statusCode (r : response) : Z :=
  match r with
  | httpError _ code => code
  | written code _ => code
  | writeJSON status _ => status
  end.

Definition methodNotAllowed : response :=
  httpError "Method not allowed" StatusMethodNotAllowed.

Definition handleHealth (method : string) : response :=
  if decide (method ≠ MethodGet) then methodNotAllowed
  else written StatusOK "ok".

Definition handleStatus (method : string) (e : engine.Engine) : response :=
  if decide (method ≠ MethodGet) then methodNotAllowed
  else writeJSON StatusOK (StatusResponse (engine.IsRunning e) "").

(** [handleStart], with the engine of the package behind the
    [EngineController] interface: the response and the engine
    afterwards. As for [engine.Start], what follows a start that
    succeeded assumes that the loop goroutine gets its ticker. *)
Definition handleStart (method : string) (e : engine.Engine)
    : response * engine.Engine :=
  if decide (method ≠ MethodPost) then (methodNotAllowed, e)
  else if engine.IsRunning e then
    (writeJSON StatusConflict (ErrorResponse "engine is already running"), e)
  else
    match engine.Start e with
    | (Some err, e') =>
        (writeJSON StatusInternalServerError (ErrorResponse_of err), e')
    | (None, e') =>
        (writeJSON StatusOK (StatusResponse true "simulation started"), e')
    end.

(** [handleStop]: [None] when [Stop] does not return. *)
Definition handleStop (method : string) (e : engine.Engine)
    : option (response * engine.Engine) :=
  if decide (method ≠ MethodPost) then Some (methodNotAllowed, e)
  else
    e' ← engine.Stop e;
    Some (writeJSON StatusOK (StatusResponse false "simulation stopped"), e').

Definition handleStats (method : string) (c : stats.Collector) : response :=
  if decide (method ≠ MethodGet) then methodNotAllowed
  else writeJSON StatusOK (SnapshotOf (stats.Snapshot c)).

Definition handleConfig (method : string) (cfg : config.Config) : response :=
  if decide (method ≠ MethodGet) then methodNotAllowed
  else writeJSON StatusOK (ConfigOf cfg).

End api.

(* ===================================================================== *)
(** ** Order facts on binary64 numbers *)
(* ===================================================================== *)

Ltac compare_cases :=
  repeat match goal with
    | H : context [Pos.compare_cont Eq ?a ?b] |- _ =>
        change (Pos.compare_cont Eq a b) with (Pos.compare a b) in H
    | |- context [Pos.compare_cont Eq ?a ?b] =>
        change (Pos.compare_cont Eq a b) with (Pos.compare a b)
    end;
  repeat match goal with
    | H : context [Z.compare ?a ?b] |- _ => destruct (Z.compare_spec a b)
    | H : context [Pos.compare ?a ?b] |- _ => destruct (Pos.compare_spec a b)
    | |- context [Z.compare ?a ?b] => destruct (Z.compare_spec a b)
    | |- context [Pos.compare ?a ?b] => destruct (Pos.compare_spec a b)
    end;
  simpl in *; try congruence; try lia.

Ltac float_cases a :=
  destruct a as [[]|[]| |[] ? ?]; simpl in *; try congruence.

Lemma SFcompare_antisym (a b : float64) :
  SFcompare b a = CompOpp <$> SFcompare a b.
Proof.
  float_cases a; float_cases b; f_equal; compare_cases.
Qed.

Lemma SFcompare_lt_trans (a b c : float64) :
  SFcompare a b = Some Lt → SFcompare b c = Some Lt → SFcompare a c = Some Lt.
Proof.
  float_cases a; float_cases b; float_cases c; intros; f_equal; compare_cases.
Qed.

Lemma SFcompare_eq_lt_trans (a b c : float64) :
  SFcompare a b = Some Eq → SFcompare b c = Some Lt → SFcompare a c = Some Lt.
Proof.
  float_cases a; float_cases b; float_cases c; intros; f_equal; compare_cases.
Qed.

Lemma SFcompare_lt_eq_trans (a b c : float64) :
  SFcompare a b = Some Lt → SFcompare b c = Some Eq → SFcompare a c = Some Lt.
Proof.
  float_cases a; float_cases b; float_cases c; intros; f_equal; compare_cases.
Qed.

Lemma SFcompare_refl (a : float64) : a ≠ S754_nan → SFcompare a a = Some Eq.
Proof.
  float_cases a; intros; f_equal; compare_cases.
Qed.

(** A number that compares with something is not a NaN, and two such
    numbers compare with each other. *)
Lemma f64_ge_not_nan (a b : float64) : f64_ge a b = true → a ≠ S754_nan.
Proof. unfold f64_ge, SFleb. float_cases a; float_cases b. Qed.

Lemma SFcompare_total (a b : float64) :
  a ≠ S754_nan → b ≠ S754_nan → ∃ c, SFcompare a b = Some c.
Proof. float_cases a; float_cases b; eauto. Qed.

Lemma f64_gt_irrefl (a : float64) : f64_gt a a = false.
Proof.
  unfold f64_gt, SFltb. destruct a; try done.
  all: by rewrite SFcompare_refl.
Qed.

Lemma f64_gt_trans (a b c : float64) :
  f64_gt a b = true → f64_gt b c = true → f64_gt a c = true.
Proof.
  unfold f64_gt, SFltb. intros Hab Hbc.
  destruct (SFcompare b a) as [[]|] eqn:E1; try done.
  destruct (SFcompare c b) as [[]|] eqn:E2; try done.
  by rewrite (SFcompare_lt_trans c b a).
Qed.

(** Among numbers, "not above" is "at most". *)
Lemma f64_not_gt_ge (a b : float64) :
  a ≠ S754_nan → b ≠ S754_nan → f64_gt a b = false → f64_ge b a = true.
Proof.
  unfold f64_gt, f64_ge, SFltb, SFleb. intros Ha Hb.
  destruct (SFcompare_total a b Ha Hb) as [c Hc].
  rewrite (SFcompare_antisym a b), Hc. by destruct c.
Qed.

Lemma f64_gt_ge (a b : float64) : f64_gt a b = true → f64_ge a b = true.
Proof. unfold f64_gt, f64_ge, SFltb, SFleb. by destruct (SFcompare b a) as [[]|]. Qed.

Lemma f64_ge_refl (a : float64) : a ≠ S754_nan → f64_ge a a = true.
Proof. intros. unfold f64_ge, SFleb. by rewrite SFcompare_refl. Qed.

(** [c > b] and [b >= a] give [c > a]. *)
Lemma f64_gt_ge_trans (a b c : float64) :
  f64_gt c b = true → f64_ge b a = true → f64_gt c a = true.
Proof.
  unfold f64_gt, f64_ge, SFltb, SFleb. intros Hcb Hba.
  destruct (SFcompare b c) as [[]|] eqn:E1; try done.
  destruct (SFcompare a b) as [[]|] eqn:E2; try done.
  - by rewrite (SFcompare_eq_lt_trans a b c).
  - by rewrite (SFcompare_lt_trans a b c).
Qed.

(* ===================================================================== *)
(** ** openrtb: no-bid responses *)
(* ===================================================================== *)

Lemma AllBids_flat_map (r : openrtb.BidResponse) :
  openrtb.AllBids r
  = List.flat_map openrtb.SeatBid_Bid (openrtb.BidResponse_SeatBid r).
Proof.
  unfold openrtb.AllBids.
  assert (∀ sbs acc,
    fold_left (λ bids sb, bids ++ openrtb.SeatBid_Bid sb) sbs acc
    = acc ++ List.flat_map openrtb.SeatBid_Bid sbs) as H.
  { induction sbs as [|sb sbs IH]; intros acc; simpl.
    - by rewrite app_nil_r.
    - by rewrite IH, app_assoc. }
  by rewrite H.
Qed.

Lemma IsNoBid_loop_Forall (sbs : list openrtb.SeatBid) :
  openrtb.IsNoBid_loop sbs = true
  ↔ Forall (λ sb, openrtb.SeatBid_Bid sb = []) sbs.
Proof.
  induction sbs as [|sb sbs IH]; simpl.
  - split; [constructor | done].
  - rewrite Forall_cons, <- IH. case_decide as Hlen.
    + split; [done|]. intros [Hnil _]. rewrite Hnil in Hlen. simpl in Hlen. lia.
    + split; [|tauto]. intros ?. split; [|done].
      destruct (openrtb.SeatBid_Bid sb); [done|]. simpl in Hlen. lia.
Qed.

Lemma flat_map_nil_Forall {A B} (f : A → list B) (l : list A) :
  List.flat_map f l = [] ↔ Forall (λ x, f x = []) l.
Proof.
  induction l as [|x l IH]; simpl.
  - split; [constructor | done].
  - rewrite Forall_cons, <- IH. split.
    + intros H. by apply app_eq_nil in H.
    + intros [-> ->]. done.
Qed.

Example IsNoBid_without_seats :
  openrtb.IsNoBid (openrtb.BidResponse_with_ID "req-1") = true.
Proof. reflexivity. Qed.

Example IsNoBid_empty_seats :
  openrtb.IsNoBid (scenario.response "req-1" [[]; []]) = true
  ∧ openrtb.AllBids (scenario.response "req-1" [[]; []]) = [].
Proof. split; reflexivity. Qed.

Example IsNoBid_second_seat_bids :
  openrtb.IsNoBid
    (scenario.response "req-1" [[]; [scenario.bid "bid-1" scenario.p2]])
  = false.
Proof. reflexivity. Qed.

(** C9. [IsNoBid r] holds exactly when every seat-bid group of [r] has
    no bid; a response without seat-bid groups (the nil array) and one
    whose groups are all empty are both no-bids; and [IsNoBid r] holds
    exactly when [AllBids r] is the empty list. *)
Theorem IsNoBid_iff_all_seats_empty (r : openrtb.BidResponse) :
  (openrtb.IsNoBid r = true
   ↔ Forall (λ sb, openrtb.SeatBid_Bid sb = []) (openrtb.BidResponse_SeatBid r))
  ∧ (openrtb.BidResponse_SeatBid r = [] → openrtb.IsNoBid r = true)
  ∧ (openrtb.IsNoBid r = true ↔ openrtb.AllBids r = []).
Proof.
  assert (openrtb.IsNoBid r = true
          ↔ Forall (λ sb, openrtb.SeatBid_Bid sb = []) (openrtb.BidResponse_SeatBid r))
    as Hiff.
  { unfold openrtb.IsNoBid. case_decide as Hlen.
    - apply length_zero_iff_nil in Hlen. rewrite Hlen. split; [constructor | done].
    - apply IsNoBid_loop_Forall. }
  split; [exact Hiff|]. split.
  - intros Hnil. apply Hiff. rewrite Hnil. constructor.
  - rewrite Hiff, AllBids_flat_map. symmetry. apply flat_map_nil_Forall.
Qed.

(* ===================================================================== *)
(** ** auction: the eligible bids *)
(* ===================================================================== *)

Lemma collectSeat_app (name : string) (bidFloor : float64)
    (acc : list auction.BidWithDSP) (sb : openrtb.SeatBid) :
  auction.collectSeat name bidFloor acc sb
  = acc ++ List.map (tagBid name)
             (List.filter (aboveFloor bidFloor) (openrtb.SeatBid_Bid sb)).
Proof.
  unfold auction.collectSeat. generalize (openrtb.SeatBid_Bid sb) as bs.
  intros bs. revert acc.
  induction bs as [|b bs IH]; intros acc; simpl.
  - by rewrite app_nil_r.
  - rewrite IH. unfold aboveFloor at 2.
    destruct (f64_ge (openrtb.Price b) bidFloor); simpl; [|done].
    by rewrite <- app_assoc.
Qed.

Lemma collectSeats_app (name : string) (bidFloor : float64)
    (sbs : list openrtb.SeatBid) (acc : list auction.BidWithDSP) :
  fold_left (auction.collectSeat name bidFloor) sbs acc
  = acc ++ List.map (tagBid name)
             (List.filter (aboveFloor bidFloor)
                (List.flat_map openrtb.SeatBid_Bid sbs)).
Proof.
  revert acc. induction sbs as [|sb sbs IH]; intros acc; simpl.
  - by rewrite app_nil_r.
  - rewrite IH, collectSeat_app, List.filter_app, List.map_app.
    by rewrite <- app_assoc.
Qed.

Lemma collectResult_app (bidFloor : float64) (acc : list auction.BidWithDSP)
    (r : dispatcher.Result) :
  auction.collectResult bidFloor acc r = acc ++ eligibleOf bidFloor r.
Proof.
  unfold auction.collectResult, eligibleOf.
  destruct (dispatcher.Error r), (dispatcher.Response r);
    rewrite ?app_nil_r; try done.
  apply collectSeats_app.
Qed.

Lemma collectResults_app (bidFloor : float64) (results : list dispatcher.Result)
    (acc : list auction.BidWithDSP) :
  fold_left (auction.collectResult bidFloor) results acc
  = acc ++ eligibleBids_spec bidFloor results.
Proof.
  revert acc. induction results as [|r results IH]; intros acc; simpl.
  - by rewrite app_nil_r.
  - rewrite IH, collectResult_app. by rewrite <- app_assoc.
Qed.

Lemma Run_AllBids (requestID : string) (bidFloor : float64)
    (results : list dispatcher.Result) :
  auction.AllBids (auction.Run requestID bidFloor results)
  = eligibleBids_spec bidFloor results.
Proof.
  unfold auction.Run. rewrite (collectResults_app bidFloor results []). simpl.
  case_decide; [done|].
  by destruct (_ !! _).
Qed.

(** C2. The eligible bids of the outcome of [Run] are, in order, the
    bids of every seat-bid group of every result with no error and a
    response, restricted to those priced at or above the floor, each
    tagged with the name of the DSP of its result; and when no bid is
    left, the outcome has no winner, an empty winning-DSP name and an
    empty list of eligible bids. *)
Theorem Run_eligible_bids (requestID : string) (bidFloor : float64)
    (results : list dispatcher.Result) :
  auction.AllBids (auction.Run requestID bidFloor results)
  = eligibleBids_spec bidFloor results
  ∧ (eligibleBids_spec bidFloor results = [] →
     auction.Winner (auction.Run requestID bidFloor results) = None
     ∧ auction.WinningDSP (auction.Run requestID bidFloor results) = ""
     ∧ auction.AllBids (auction.Run requestID bidFloor results) = []).
Proof.
  split; [apply Run_AllBids|].
  intros Hnil. unfold auction.Run.
  rewrite (collectResults_app bidFloor results []). simpl. rewrite Hnil.
  by case_decide.
Qed.

(* ===================================================================== *)
(** ** auction: the winner *)
(* ===================================================================== *)

(** Where an eligible bid comes from. *)
Lemma eligibleBids_spec_origin (bidFloor : float64)
    (results : list dispatcher.Result) (e : auction.BidWithDSP) :
  e ∈ eligibleBids_spec bidFloor results →
  f64_ge (priceOf e) bidFloor = true
  ∧ ∃ r resp sb,
      r ∈ results
      ∧ dispatcher.Error r = None
      ∧ dispatcher.Response r = Some resp
      ∧ sb ∈ openrtb.BidResponse_SeatBid resp
      ∧ auction.Bid e ∈ openrtb.SeatBid_Bid sb
      ∧ auction.DSPName e = dispatcher.DSPName r.
Proof.
  rewrite list_elem_of_In. unfold eligibleBids_spec.
  rewrite List.in_flat_map. intros (r & Hr & He).
  unfold eligibleOf in He.
  destruct (dispatcher.Error r) eqn:Herr; [by destruct He|].
  destruct (dispatcher.Response r) as [resp|] eqn:Hresp; [|by destruct He].
  apply List.in_map_iff in He as (b & <- & Hb).
  apply List.filter_In in Hb as [Hb Hfloor].
  apply List.in_flat_map in Hb as (sb & Hsb & Hb).
  split; [exact Hfloor|].
  exists r, resp, sb. rewrite !list_elem_of_In. done.
Qed.

(** The invariant of the loop that finds the highest bid: [highestIdx]
    indexes a bid that is at least every bid seen so far and strictly
    above every bid before it. *)
Lemma highestLoop_first_max (all : list auction.BidWithDSP) :
  Forall (λ e, priceOf e ≠ S754_nan) all →
  ∀ rest pre h,
    all = pre ++ rest →
    (h < length all)%nat →
    (∀ j e eh, (j < length pre)%nat → all !! j = Some e → all !! h = Some eh →
               f64_ge (priceOf eh) (priceOf e) = true) →
    (∀ j e eh, (j < h)%nat → all !! j = Some e → all !! h = Some eh →
               f64_gt (priceOf eh) (priceOf e) = true) →
    ∃ eh,
      all !! auction.highestLoop all rest (length pre) h = Some eh
      ∧ (∀ e, e ∈ all → f64_ge (priceOf eh) (priceOf e) = true)
      ∧ (∀ j e, (j < auction.highestLoop all rest (length pre) h)%nat →
                all !! j = Some e → f64_gt (priceOf eh) (priceOf e) = true).
Proof.
  intros Hnan rest. induction rest as [|b rest IH]; intros pre h Hall Hh Hge Hgt.
  - simpl. rewrite app_nil_r in Hall. subst pre.
    destruct (lookup_lt_is_Some_2 all h Hh) as [eh Heh].
    exists eh. split; [done|]. split.
    + intros e He. apply list_elem_of_lookup in He as [j Hj].
      apply (Hge j e eh); [by eapply lookup_lt_Some|done|done].
    + intros j e Hj He. by apply (Hgt j e eh).
  - simpl. destruct (lookup_lt_is_Some_2 all h Hh) as [eh Heh]. rewrite Heh.
    assert (all !! length pre = Some b) as Hb.
    { rewrite Hall. by rewrite list_lookup_middle. }
    pose proof (Forall_lookup_1 _ _ _ _ Hnan Hb) as Hbn.
    pose proof (Forall_lookup_1 _ _ _ _ Hnan Heh) as Hehn.
    simpl in Hbn, Hehn.
    replace (S (length pre)) with (length (pre ++ [b]))
      by (rewrite length_app; simpl; lia).
    fold (priceOf b). fold (priceOf eh).
    destruct (f64_gt (priceOf b) (priceOf eh)) eqn:Hcmp.
    + apply IH.
      * by rewrite <- app_assoc.
      * by eapply lookup_lt_Some.
      * intros j e eh' Hj He Heh'. rewrite Hb in Heh'. injection Heh' as <-.
        rewrite length_app in Hj. simpl in Hj.
        destruct (decide (j = length pre)) as [->|Hne].
        -- rewrite Hb in He. injection He as <-. by apply f64_ge_refl.
        -- apply f64_gt_ge. eapply f64_gt_ge_trans; [exact Hcmp|].
           apply (Hge j e eh); [lia|done|done].
      * intros j e eh' Hj He Heh'. rewrite Hb in Heh'. injection Heh' as <-.
        eapply f64_gt_ge_trans; [exact Hcmp|].
        apply (Hge j e eh); [lia|done|done].
    + apply IH.
      * by rewrite <- app_assoc.
      * done.
      * intros j e eh' Hj He Heh'. rewrite Heh in Heh'. injection Heh' as <-.
        rewrite length_app in Hj. simpl in Hj.
        destruct (decide (j = length pre)) as [->|Hne].
        -- rewrite Hb in He. injection He as <-. by apply f64_not_gt_ge.
        -- apply (Hge j e eh); [lia|done|done].
      * done.
Qed.

(** C1. When the outcome of [Run] has a winner, the winner is one of the
    eligible bids of the outcome, the winning DSP is the DSP of that
    bid (the name of a result without error whose response holds the
    bid), the clearing price is the winner's price, that price is at
    least the floor and at least the price of every eligible bid, and
    every eligible bid before the winner has a strictly lower price. *)
Theorem Run_winner_first_highest (requestID : string) (bidFloor : float64)
    (results : list dispatcher.Result) (w : openrtb.Bid) :
  auction.Winner (auction.Run requestID bidFloor results) = Some w →
  let o := auction.Run requestID bidFloor results in
  ∃ (i : nat) (e : auction.BidWithDSP),
    auction.AllBids o !! i = Some e
    ∧ auction.Bid e = w
    ∧ auction.DSPName e = auction.WinningDSP o
    ∧ auction.ClearingPrice o = openrtb.Price w
    ∧ f64_ge (openrtb.Price w) bidFloor = true
    ∧ (∀ e', e' ∈ auction.AllBids o →
             f64_ge (openrtb.Price w) (priceOf e') = true)
    ∧ (∀ j e', (j < i)%nat → auction.AllBids o !! j = Some e' →
               f64_gt (openrtb.Price w) (priceOf e') = true)
    ∧ (∃ r resp sb,
         r ∈ results
         ∧ dispatcher.Error r = None
         ∧ dispatcher.Response r = Some resp
         ∧ sb ∈ openrtb.BidResponse_SeatBid resp
         ∧ w ∈ openrtb.SeatBid_Bid sb
         ∧ dispatcher.DSPName r = auction.WinningDSP o).
Proof.
  intros Hw o. subst o. rewrite Run_AllBids. revert Hw.
  unfold auction.Run. rewrite (collectResults_app bidFloor results []). simpl.
  set (all := eligibleBids_spec bidFloor results).
  case_decide as Hlen; [done|].
  assert (Forall (λ e, priceOf e ≠ S754_nan) all) as Hnan.
  { apply Forall_forall. intros e He.
    apply eligibleBids_spec_origin in He as [Hfloor _].
    by eapply f64_ge_not_nan. }
  destruct (highestLoop_first_max all Hnan all [] 0%nat) as (eh & Heh & Hmax & Hfirst).
  - done.
  - destruct all; simpl in *; [done|lia].
  - simpl. intros; lia.
  - intros; lia.
  - simpl in Heh, Hfirst. rewrite Heh. simpl. intros [= <-].
    exists (auction.highestLoop all all 0 0), eh.
    assert (eh ∈ all) as Hin by (eapply list_elem_of_lookup; eauto).
    destruct (eligibleBids_spec_origin _ _ _ Hin)
      as (Hfloor & r & resp & sb & Hr & Herr & Hresp & Hsb & Hb & Hname).
    repeat split; try done.
    exists r, resp, sb. by rewrite <- Hname.
Qed.

Example Run_twoBidsOneSeat :
  auction.Winner (auction.Run "req-1" scenario.p0_5 scenario.twoBidsOneSeat)
  = Some (scenario.bid "bid-2" scenario.p3)
  ∧ length (auction.AllBids (auction.Run "req-1" scenario.p0_5 scenario.twoBidsOneSeat))
    = 2%nat.
Proof. by vm_compute. Qed.

Example Run_tie_first_wins :
  auction.WinningDSP (auction.Run "req-1" scenario.p0_5 scenario.tie) = "dsp1".
Proof. by vm_compute. Qed.

Example Run_all_below_floor :
  auction.Winner (auction.Run "req-1" scenario.p3 scenario.tie) = None.
Proof. by vm_compute. Qed.

Lemma Run_winner_first_highest_witness :
  auction.Winner (auction.Run "req-1" scenario.p0_5 scenario.twoBidsOneSeat)
  = Some (scenario.bid "bid-2" scenario.p3)
  ∧ ∃ (i : nat) (e : auction.BidWithDSP),
      auction.AllBids (auction.Run "req-1" scenario.p0_5 scenario.twoBidsOneSeat) !! i
      = Some e
      ∧ auction.Bid e = scenario.bid "bid-2" scenario.p3.
Proof.
  assert (auction.Winner (auction.Run "req-1" scenario.p0_5 scenario.twoBidsOneSeat)
          = Some (scenario.bid "bid-2" scenario.p3)) as Hw by (vm_compute; reflexivity).
  split; [exact Hw|].
  destruct (Run_winner_first_highest _ _ _ _ Hw) as (i & e & Hi & He & _).
  exists i, e. split; [exact Hi | exact He].
Defined.

(* ===================================================================== *)
(** ** dispatcher: the collecting loop *)
(* ===================================================================== *)

Lemma callDSP_name (env : dispatcher.callEnv) (dsp : config.DSPConfig) :
  dispatcher.DSPName (dispatcher.callDSP env dsp) = config.Name dsp.
Proof.
  unfold dispatcher.callDSP.
  destruct (dispatcher.ctxBefore env); [done|].
  destruct (dispatcher.postResult env) as [resp [err|]]; [|done].
  by destruct (dispatcher.ctxAfter env).
Qed.

Lemma slots_length dsps envs got : length (slots dsps envs got) = length dsps.
Proof. apply length_imap. Qed.

Lemma slots_lookup dsps envs got (i : nat) :
  slots dsps envs got !! i
  = (λ dsp, if decide (i ∈ got) then dispatcher.callDSP (envs i) dsp
            else dispatcher.Result_zero) <$> dsps !! i.
Proof. unfold slots. by rewrite list_lookup_imap. Qed.

Lemma slots_nil dsps envs :
  slots dsps envs [] = replicate (length dsps) dispatcher.Result_zero.
Proof.
  apply list_eq. intros i. rewrite slots_lookup.
  destruct (dsps !! i) as [dsp|] eqn:Hi; simpl.
  - rewrite lookup_replicate_2; [done|by eapply lookup_lt_Some].
  - symmetry. apply lookup_ge_None. rewrite length_replicate.
    by apply lookup_ge_None.
Qed.

Lemma slots_store dsps envs got (i : nat) (dsp : config.DSPConfig) :
  dsps !! i = Some dsp →
  <[i := dispatcher.callDSP (envs i) dsp]> (slots dsps envs got)
  = slots dsps envs (got ++ [i]).
Proof.
  intros Hi. apply list_eq. intros j. rewrite slots_lookup.
  destruct (decide (i = j)) as [<-|Hne].
  - rewrite list_lookup_insert_eq.
    + rewrite Hi. simpl. rewrite decide_True; [done|].
      apply elem_of_app. right. by apply list_elem_of_singleton.
    + rewrite slots_length. by eapply lookup_lt_Some.
  - rewrite list_lookup_insert_ne by done. rewrite slots_lookup.
    destruct (dsps !! j); [simpl|done]. f_equal.
    destruct (decide (j ∈ got)) as [Hin|Hnin].
    + rewrite decide_True; [done|]. apply elem_of_app. by left.
    + rewrite decide_False; [done|]. rewrite elem_of_app, list_elem_of_singleton.
      intros [?|?]; [done|]. by subst.
Qed.

(** The collecting loop in closed form. *)
Lemma collect_closed dsps envs (schedule : list dispatcher.selected) :
  ∀ got : list nat,
    Forall (λ i, (i < length dsps)%nat) (arrivals schedule) →
    (length got + length (arrivals schedule) ≤ length dsps)%nat →
    dispatcher.collect dsps envs schedule (slots dsps envs got) (length got)
    = if decide (length got + length (arrivals schedule) < length dsps)%nat
      then (λ ctxErr,
              dispatcher.fillRemaining dsps ctxErr
                (slots dsps envs (got ++ arrivals schedule)))
           <$> cancelCause schedule
      else Some (slots dsps envs (got ++ arrivals schedule)).
Proof.
  induction schedule as [|[ctxErr|i] schedule IH]; intros got Hlt Hlen; simpl in *.
  - rewrite app_nil_r, Nat.add_0_r. by case_decide.
  - rewrite app_nil_r, Nat.add_0_r.
    done.
  - apply Forall_cons in Hlt as [Hi Hlt].
    rewrite decide_True by lia.
    destruct (lookup_lt_is_Some_2 dsps i Hi) as [dsp Hdsp].
    unfold dispatcher.message. rewrite Hdsp. simpl.
    rewrite (slots_store dsps envs got i dsp Hdsp).
    replace (S (length got)) with (length (got ++ [i]))
      by (rewrite length_app; simpl; lia).
    rewrite IH; [|done|rewrite length_app; simpl; lia].
    rewrite <- (app_assoc got [i]). simpl.
    rewrite length_app. simpl.
    replace (length got + 1 + length (arrivals schedule))%nat
      with (length got + S (length (arrivals schedule)))%nat by lia.
    done.
Qed.

(** Goroutines send once: the ordinals received are distinct and in
    range, so there are at most [length dsps] of them, and when there
    are that many, every ordinal is among them. *)
Lemma arrivals_bounded (n : nat) (l : list nat) :
  NoDup l → Forall (λ i, (i < n)%nat) l →
  (length l ≤ n)%nat ∧ ((length l = n)%nat → ∀ i, (i < n)%nat → i ∈ l).
Proof.
  intros Hnd Hlt.
  assert (l ⊆+ seq 0 n) as Hsub.
  { apply NoDup_submseteq; [done|]. intros i Hi.
    apply elem_of_seq. rewrite Forall_forall in Hlt. specialize (Hlt i Hi). lia. }
  pose proof (submseteq_length _ _ Hsub) as Hlen. rewrite length_seq in Hlen.
  split; [done|]. intros Heq i Hi.
  assert (l ≡ₚ seq 0 n) as Hperm.
  { apply submseteq_length_Permutation; [done|]. rewrite length_seq. lia. }
  rewrite Hperm. apply elem_of_seq. lia.
Qed.

Lemma Dispatch_closed dsps envs (schedule : list dispatcher.selected) :
  NoDup (arrivals schedule) →
  Forall (λ i, (i < length dsps)%nat) (arrivals schedule) →
  dispatcher.Dispatch dsps envs schedule
  = if decide (length (arrivals schedule) < length dsps)%nat
    then (λ ctxErr,
            dispatcher.fillRemaining dsps ctxErr
              (slots dsps envs (arrivals schedule)))
         <$> cancelCause schedule
    else Some (slots dsps envs (arrivals schedule)).
Proof.
  intros Hnd Hlt.
  destruct (arrivals_bounded _ _ Hnd Hlt) as [Hlen _].
  unfold dispatcher.Dispatch. case_decide as Hzero.
  - rewrite decide_False by lia.
    apply length_zero_iff_nil in Hzero. subst dsps. done.
  - rewrite <- (slots_nil dsps envs).
    apply (collect_closed dsps envs schedule []); [done|simpl; lia].
Qed.

Lemma fillRemaining_lookup dsps ctxErr (results : list dispatcher.Result) (i : nat) :
  dispatcher.fillRemaining dsps ctxErr results !! i
  = (λ r, if decide (dispatcher.DSPName r = "") then
            match dsps !! i with
            | Some dsp => cancelledResult dsp ctxErr
            | None => r
            end
          else r) <$> results !! i.
Proof. unfold dispatcher.fillRemaining. by rewrite list_lookup_imap. Qed.

(** Whatever the order of completion, a call that returns gives one
    entry per DSP, and entry [i] carries the name of DSP [i]. It returns
    whenever the context is seen done or every message arrives. *)
Lemma Dispatch_positional dsps envs (schedule : list dispatcher.selected) :
  NoDup (arrivals schedule) →
  Forall (λ i, (i < length dsps)%nat) (arrivals schedule) →
  is_Some (cancelCause schedule) ∨ length (arrivals schedule) = length dsps →
  ∃ rs,
    dispatcher.Dispatch dsps envs schedule = Some rs
    ∧ length rs = length dsps
    ∧ ∀ i dsp, dsps !! i = Some dsp →
        ∃ r, rs !! i = Some r ∧ dispatcher.DSPName r = config.Name dsp.
Proof.
  intros Hnd Hlt Hfair. rewrite Dispatch_closed by done.
  destruct (arrivals_bounded _ _ Hnd Hlt) as [Hlen Hall].
  case_decide as Hc.
  - destruct Hfair as [[ctxErr Hcause]|Heq]; [|lia].
    rewrite Hcause. simpl. eexists. split; [done|]. split.
    + unfold dispatcher.fillRemaining. by rewrite length_imap, slots_length.
    + intros i dsp Hdsp. rewrite fillRemaining_lookup, slots_lookup, Hdsp. simpl.
      eexists. split; [done|].
      case_decide as Hname; [done|].
      case_decide; [apply callDSP_name|done].
  - eexists. split; [done|]. split; [apply slots_length|].
    intros i dsp Hdsp. rewrite slots_lookup, Hdsp. simpl.
    eexists. split; [done|].
    rewrite decide_True; [apply callDSP_name|].
    apply Hall; [lia|by eapply lookup_lt_Some].
Qed.

(** When the DSPs all have a name, a cancelled call returns what it has
    collected and a made-up outcome, with the DSP's name and the
    context's error, for every other DSP. *)
Lemma Dispatch_cancelled_named dsps envs (schedule : list dispatcher.selected)
    (ctxErr : errors.error) :
  NoDup (arrivals schedule) →
  Forall (λ i, (i < length dsps)%nat) (arrivals schedule) →
  (length (arrivals schedule) < length dsps)%nat →
  cancelCause schedule = Some ctxErr →
  Forall (λ dsp, config.Name dsp ≠ "") dsps →
  ∃ rs,
    dispatcher.Dispatch dsps envs schedule = Some rs
    ∧ ∀ i dsp, dsps !! i = Some dsp →
        rs !! i = Some (if decide (i ∈ arrivals schedule)
                        then dispatcher.callDSP (envs i) dsp
                        else cancelledResult dsp ctxErr).
Proof.
  intros Hnd Hlt Hless Hcause Hnamed. rewrite Dispatch_closed by done.
  rewrite decide_True by done. rewrite Hcause. simpl.
  eexists. split; [done|]. intros i dsp Hdsp.
  rewrite fillRemaining_lookup, slots_lookup, Hdsp. simpl. f_equal.
  pose proof (Forall_lookup_1 _ _ _ _ Hnamed Hdsp) as Hname. simpl in Hname.
  destruct (decide (i ∈ arrivals schedule)).
  - rewrite decide_False; [done|]. by rewrite callDSP_name.
  - by rewrite decide_True.
Qed.

Lemma Dispatch_no_dsps envs (schedule : list dispatcher.selected) :
  dispatcher.Dispatch [] envs schedule = Some [].
Proof. done. Qed.

Example Dispatch_cancelled_named_example :
  dispatcher.Dispatch scenario_dispatch.named scenario_dispatch.envs
    scenario_dispatch.schedule
  = Some [scenario.answered "dsp1" scenario_dispatch.resp 10000000;
          scenario.failed "dsp2" context.Canceled 0].
Proof. by vm_compute. Qed.

(** C3. A DSP configured without a name answers with a bid, its message
    is received, and the context is then seen cancelled: [Dispatch]
    returns two entries that carry the names of the two DSPs, but the
    entry of the first DSP is the made-up cancellation outcome and not
    the outcome that was collected for it. *)
Theorem Dispatch_cancel_overwrites_unnamed :
  dispatcher.callDSP (scenario_dispatch.envs 0)
    {| config.Name := ""; config.Endpoint := "http://dsp-a/bid";
       config.Enabled := true |}
  = scenario.answered "" scenario_dispatch.resp 10000000
  ∧ dispatcher.Dispatch scenario_dispatch.dsps scenario_dispatch.envs
      scenario_dispatch.schedule
    = Some [scenario.failed "" context.Canceled 0;
            scenario.failed "dsp2" context.Canceled 0].
Proof. split; by vm_compute. Qed.

(* ===================================================================== *)
(** ** httpclient: the classification of an exchange *)
(* ===================================================================== *)

Example Post_status_500 :
  httpclient.Post scenario_http.Marshal (scenario_http.answer 500)
    scenario_http.Unmarshal scenario_http.client "http://dsp/bid" scenario_http.request
  = (None, Some (errors.ErrorfD "server error: status %d" 500)).
Proof. reflexivity. Qed.

Example Post_timeout :
  httpclient.IsTimeout
    (snd (httpclient.Post scenario_http.Marshal
            (scenario_http.noAnswer fasthttp.ErrTimeout)
            scenario_http.Unmarshal scenario_http.client "http://dsp/bid"
            scenario_http.request))
  = true.
Proof. reflexivity. Qed.

Example Post_connection_refused :
  httpclient.Post scenario_http.Marshal
    (scenario_http.noAnswer (errors.New "connection refused"))
    scenario_http.Unmarshal scenario_http.client "http://dsp/bid" scenario_http.request
  = (None, Some (errors.ErrorfW "do request: %w" (errors.New "connection refused"))).
Proof. reflexivity. Qed.

(** C5. Once the request is serialised, [Post] returns a value in every
    case, a response or else an error: a transport failure that is a
    timeout gives a [TimeoutError], which [IsTimeout] recognises; any
    other transport failure gives an error wrapping it; status 204
    gives, without error, a response that holds only the id of the
    request and is a no-bid; a status of 400 or more gives an error
    made of the status; and a 2xx status other than 204 gives an error
    wrapping the decoder's when the body does not decode and the
    decoded response, without error, when it does. *)
Theorem Post_classification
    (Marshal : openrtb.BidRequest → list Byte.byte * option errors.error)
    (DoTimeout : string → list Byte.byte → Z → fasthttp.Response * option errors.error)
    (Unmarshal : list Byte.byte → openrtb.BidResponse * option errors.error)
    (c : httpclient.Client) (url : string) (req : openrtb.BidRequest)
    (body : list Byte.byte) :
  Marshal req = (body, None) →
  let post := httpclient.Post Marshal DoTimeout Unmarshal c url req in
  (fst post = None ↔ is_Some (snd post))
  ∧ (∀ response err,
       DoTimeout url body (httpclient.timeout c) = (response, Some err) →
       (errors.Is err fasthttp.ErrTimeout = true →
        post = (None, Some (errors.TimeoutError err))
        ∧ httpclient.IsTimeout (snd post) = true)
       ∧ (errors.Is err fasthttp.ErrTimeout = false →
          post = (None, Some (errors.ErrorfW "do request: %w" err))))
  ∧ (∀ response,
       DoTimeout url body (httpclient.timeout c) = (response, None) →
       (fasthttp.StatusCode response = 204 →
        post = (Some (openrtb.BidResponse_with_ID (openrtb.BidRequest_ID req)), None)
        ∧ openrtb.IsNoBid (openrtb.BidResponse_with_ID (openrtb.BidRequest_ID req))
          = true)
       ∧ (400 ≤ fasthttp.StatusCode response →
          post = (None, Some (errors.ErrorfD "server error: status %d"
                                (fasthttp.StatusCode response))))
       ∧ (200 ≤ fasthttp.StatusCode response < 300 →
          fasthttp.StatusCode response ≠ 204 →
          ∀ resp,
            (∀ err, Unmarshal (fasthttp.Body response) = (resp, Some err) →
                    post = (None, Some (errors.ErrorfW "unmarshal response: %w" err)))
            ∧ (Unmarshal (fasthttp.Body response) = (resp, None) →
               post = (Some resp, None)))).
Proof.
  intros Hm post. subst post. unfold httpclient.Post. rewrite Hm.
  split; [|split].
  - destruct (DoTimeout url body (httpclient.timeout c)) as [response [err|]].
    + destruct (errors.Is err fasthttp.ErrTimeout); simpl; split; eauto.
    + repeat case_decide; simpl.
      * split; [done|]. by intros [? ?].
      * split; eauto.
      * destruct (Unmarshal (fasthttp.Body response)) as [resp [err|]]; simpl.
        -- split; eauto.
        -- split; [done|]. by intros [? ?].
  - intros response err ->. split.
    + by intros ->.
    + by intros ->.
  - intros response ->. simpl. split; [|split].
    + intros ->. by rewrite decide_True.
    + intros Hge. unfold http.StatusNoContent.
      rewrite decide_False by lia. by rewrite decide_True.
    + intros Hrange Hne resp. unfold http.StatusNoContent.
      rewrite decide_False by done. rewrite decide_False by lia.
      split.
      * by intros err ->.
      * by intros ->.
Qed.

Lemma Post_classification_witness :
  scenario_http.Marshal scenario_http.request = ([], None)
  ∧ httpclient.Post scenario_http.Marshal (scenario_http.answer 204)
      scenario_http.Unmarshal scenario_http.client "http://dsp/bid"
      scenario_http.request
    = (Some (openrtb.BidResponse_with_ID "req-1"), None).
Proof.
  split; [reflexivity|].
  destruct (Post_classification scenario_http.Marshal (scenario_http.answer 204)
              scenario_http.Unmarshal scenario_http.client "http://dsp/bid"
              scenario_http.request [] eq_refl) as (_ & _ & Hstatus).
  destruct (Hstatus _ eq_refl) as (H204 & _).
  exact (proj1 (H204 eq_refl)).
Defined.

(* ===================================================================== *)
(** ** stats: the per-DSP counters *)
(* ===================================================================== *)

Lemma getOrCreateDSP_insert (m : gmap string stats.dspStatsInternal) (name : string)
    (dsp' : stats.dspStatsInternal) :
  stats.storeDSP (stats.getOrCreateDSP m name).1 name dsp' = <[name := dsp']> m
  ∧ (stats.getOrCreateDSP m name).2
    = default stats.dspStatsInternal_zero (m !! name).
Proof.
  unfold stats.getOrCreateDSP, stats.storeDSP.
  destruct (m !! name); simpl; [done|]. by rewrite insert_insert_eq.
Qed.

Lemma recordResult_dspStats (c : stats.Collector) (r : dispatcher.Result) :
  stats.dspStats (stats.recordResult c r)
  = <[dispatcher.DSPName r := updResult r (dspOf c (dispatcher.DSPName r))]>
      (stats.dspStats c).
Proof.
  unfold stats.recordResult, updResult, dspOf.
  destruct (getOrCreateDSP_insert (stats.dspStats c) (dispatcher.DSPName r)
              stats.dspStatsInternal_zero) as [_ Hdsp].
  destruct (stats.getOrCreateDSP (stats.dspStats c) (dispatcher.DSPName r))
    as [m dsp] eqn:Hget.
  simpl in Hdsp. subst dsp.
  assert (∀ dsp', stats.storeDSP m (dispatcher.DSPName r) dsp'
                  = <[dispatcher.DSPName r := dsp']> (stats.dspStats c)) as Hstore.
  { intros dsp'.
    destruct (getOrCreateDSP_insert (stats.dspStats c) (dispatcher.DSPName r) dsp')
      as [H _]. by rewrite Hget in H. }
  destruct (dispatcher.Error r); simpl; rewrite Hstore; [done|].
  by destruct (dispatcher.Response r).
Qed.

Lemma recordResult_dspOf (c : stats.Collector) (r : dispatcher.Result) (d : string) :
  dspOf (stats.recordResult c r) d
  = if decide (dispatcher.DSPName r = d) then updResult r (dspOf c d) else dspOf c d.
Proof.
  unfold dspOf at 1. rewrite recordResult_dspStats.
  case_decide as Hd.
  - subst d. by rewrite lookup_insert_eq.
  - by rewrite lookup_insert_ne.
Qed.

Lemma recordResults_dspOf (results : list dispatcher.Result) (c : stats.Collector)
    (d : string) :
  dspOf (fold_left stats.recordResult results c) d
  = fold_left (flip updResult) (resultsOf d results) (dspOf c d).
Proof.
  revert c. induction results as [|r results IH]; intros c; simpl; [done|].
  rewrite IH, recordResult_dspOf. unfold resultsOf. rewrite filter_cons.
  by case_decide.
Qed.

Lemma recordBids_dspOf (c : stats.Collector) (name : string) (count : Z) (d : string) :
  dspOf (stats.recordBids c (name, count)) d
  = if decide (name = d) then addBids count (dspOf c d) else dspOf c d.
Proof.
  unfold dspOf at 1, stats.recordBids.
  destruct (getOrCreateDSP_insert (stats.dspStats c) name
              stats.dspStatsInternal_zero) as [_ Hdsp].
  destruct (stats.getOrCreateDSP (stats.dspStats c) name) as [m dsp] eqn:Hget.
  simpl in Hdsp. subst dsp. simpl.
  match goal with |- context [stats.storeDSP m name ?dsp'] =>
    destruct (getOrCreateDSP_insert (stats.dspStats c) name dsp') as [H _];
    rewrite Hget in H; simpl in H; rewrite H
  end.
  case_decide as Hd.
  - subst d. by rewrite lookup_insert_eq.
  - by rewrite lookup_insert_ne.
Qed.

Lemma recordBidsLoop_dspOf (order : list (string * Z)) (c : stats.Collector)
    (d : string) :
  NoDup order.*1 →
  dspOf (fold_left stats.recordBids order c) d
  = match (list_to_map order : gmap string Z) !! d with
    | Some count => addBids count (dspOf c d)
    | None => dspOf c d
    end.
Proof.
  revert c. induction order as [|[name count] order IH]; intros c Hnd; [done|].
  rewrite fmap_cons in Hnd. apply NoDup_cons in Hnd as [Hfresh Hnd].
  change (fold_left stats.recordBids ((name, count) :: order) c)
    with (fold_left stats.recordBids order (stats.recordBids c (name, count))).
  rewrite list_to_map_cons, IH by done.
  rewrite recordBids_dspOf. case_decide as Hd.
  - subst d. rewrite lookup_insert_eq.
    by rewrite (not_elem_of_list_to_map_1 order name).
  - by rewrite lookup_insert_ne.
Qed.

Lemma bidsOf_cons (d : string) (b : auction.BidWithDSP) (bs : list auction.BidWithDSP) :
  bidsOf d (b :: bs)
  = if decide (auction.DSPName b = d) then bidsOf d bs + 1 else bidsOf d bs.
Proof.
  unfold bidsOf. rewrite filter_cons. case_decide; [|done]. simpl length. lia.
Qed.

Lemma bidsOf_nonneg (d : string) (bs : list auction.BidWithDSP) : 0 ≤ bidsOf d bs.
Proof. unfold bidsOf. lia. Qed.

Lemma countBids_fold_lookup (bs : list auction.BidWithDSP) (m : gmap string Z)
    (d : string) :
  fold_left (λ bidsByDSP b,
               <[auction.DSPName b :=
                   default 0 (bidsByDSP !! auction.DSPName b) + 1]> bidsByDSP) bs m
    !! d
  = if decide (bidsOf d bs = 0) then m !! d
    else Some (default 0 (m !! d) + bidsOf d bs).
Proof.
  revert m. induction bs as [|b bs IH]; intros m; simpl; [done|].
  rewrite IH, bidsOf_cons. clear IH.
  pose proof (bidsOf_nonneg d bs) as Hk.
  destruct (decide (auction.DSPName b = d)) as [Hd|Hd].
  - subst d. rewrite lookup_insert_eq.
    rewrite (decide_False (P := _ + 1 = 0)) by lia.
    destruct (decide (bidsOf (auction.DSPName b) bs = 0)) as [Hz|Hz];
      simpl; apply (f_equal Some); lia.
  - by rewrite lookup_insert_ne.
Qed.

Lemma countBids_lookup (bs : list auction.BidWithDSP) (d : string) :
  stats.countBids bs !! d
  = if decide (bidsOf d bs = 0) then None else Some (bidsOf d bs).
Proof.
  unfold stats.countBids. rewrite countBids_fold_lookup, lookup_empty. simpl.
  by case_decide.
Qed.

Lemma recordWin_dspOf (c : stats.Collector) (o : auction.Outcome) (d : string) :
  let before := dspOf c d in
  let after := dspOf (stats.recordWin c o) d in
  stats.requests after = stats.requests before
  ∧ stats.bids after = stats.bids before
  ∧ stats.noBids after = stats.noBids before
  ∧ stats.errors after = stats.errors before
  ∧ stats.totalLatency after = stats.totalLatency before.
Proof.
  simpl. unfold stats.recordWin.
  destruct (auction.Winner o); [|done]. case_decide; [done|].
  unfold dspOf at 1 3 5 7 9.
  destruct (getOrCreateDSP_insert (stats.dspStats c) (auction.WinningDSP o)
              stats.dspStatsInternal_zero) as [_ Hdsp].
  destruct (stats.getOrCreateDSP (stats.dspStats c) (auction.WinningDSP o))
    as [m dsp] eqn:Hget.
  simpl in Hdsp. subst dsp. simpl.
  match goal with |- context [stats.storeDSP m _ ?dsp'] =>
    destruct (getOrCreateDSP_insert (stats.dspStats c) (auction.WinningDSP o) dsp')
      as [Hst _];
    rewrite Hget in Hst; simpl in Hst; rewrite Hst
  end.
  destruct (decide (auction.WinningDSP o = d)) as [Hd|Hd].
  - subst d. rewrite lookup_insert_eq. done.
  - rewrite lookup_insert_ne by done. done.
Qed.

Lemma incr_times_succ_r (k : nat) (x : Z) :
  incr_times (S k) x = incr_times k (u64_add x 1).
Proof. unfold incr_times. by rewrite Nat.iter_succ_r. Qed.

Lemma updResults_fields (l : list dispatcher.Result) (x : stats.dspStatsInternal) :
  let y := fold_left (flip updResult) l x in
  stats.requests y = incr_times (length l) (stats.requests x)
  ∧ stats.totalLatency y
    = fold_left i64_add (dispatcher.Latency <$> l) (stats.totalLatency x)
  ∧ stats.errors y = incr_times (length (filter hasError l)) (stats.errors x)
  ∧ stats.noBids y = incr_times (length (filter isNoBidResult l)) (stats.noBids x)
  ∧ stats.bids y = stats.bids x
  ∧ stats.wins y = stats.wins x.
Proof.
  simpl. revert x. induction l as [|r l IH]; intros x; [done|].
  change (fold_left (flip updResult) (r :: l) x)
    with (fold_left (flip updResult) l (updResult r x)).
  destruct (IH (updResult r x)) as (Hreq & Hlat & Herr & Hnb & Hbids & Hwins).
  rewrite Hreq, Hlat, Herr, Hnb, Hbids, Hwins. clear IH Hreq Hlat Herr Hnb Hbids Hwins.
  rewrite !filter_cons. simpl length. rewrite incr_times_succ_r.
  repeat split; try done.
  - simpl. destruct (decide (hasError r)) as [He|He]; unfold hasError in He.
    + destruct (dispatcher.Error r) as [e|]; [|done].
      simpl length. by rewrite incr_times_succ_r.
    + destruct (dispatcher.Error r) as [e|]; [|done]. by destruct He.
  - unfold updResult. simpl. destruct (decide (isNoBidResult r)) as [Hnb|Hnb].
    + destruct Hnb as [Herr (resp & Hresp & Hno)]. rewrite Herr, Hresp, Hno.
      simpl length. by rewrite incr_times_succ_r.
    + destruct (dispatcher.Error r) as [e|] eqn:Herr; [done|].
      destruct (dispatcher.Response r) as [resp|] eqn:Hresp; [|done].
      destruct (openrtb.IsNoBid resp) eqn:Hno; [|done].
      exfalso. apply Hnb. split; [done|]. by exists resp.
Qed.

(** What the loops of [RecordAuction] leave alone. *)
Lemma recordResult_totals (c : stats.Collector) (r : dispatcher.Result) :
  let c' := stats.recordResult c r in
  stats.totalRequests c' = stats.totalRequests c
  ∧ stats.totalBids c' = stats.totalBids c
  ∧ stats.totalWins c' = stats.totalWins c
  ∧ stats.totalNoBids c' = stats.totalNoBids c
  ∧ stats.totalRevenue c' = stats.totalRevenue c
  ∧ stats.totalErrors c'
    = if decide (hasError r) then u64_add (stats.totalErrors c) 1
      else stats.totalErrors c.
Proof.
  simpl. unfold stats.recordResult.
  destruct (stats.getOrCreateDSP _ _) as [m dsp].
  destruct (decide (hasError r)) as [He|He]; unfold hasError in He.
  - destruct (dispatcher.Error r); [done|]. by destruct He.
  - destruct (dispatcher.Error r); [|done]. by destruct He.
Qed.

Lemma recordResults_totals (results : list dispatcher.Result) (c : stats.Collector) :
  let c' := fold_left stats.recordResult results c in
  stats.totalRequests c' = stats.totalRequests c
  ∧ stats.totalBids c' = stats.totalBids c
  ∧ stats.totalWins c' = stats.totalWins c
  ∧ stats.totalNoBids c' = stats.totalNoBids c
  ∧ stats.totalRevenue c' = stats.totalRevenue c
  ∧ stats.totalErrors c'
    = incr_times (length (filter hasError results)) (stats.totalErrors c).
Proof.
  simpl. revert c. induction results as [|r results IH]; intros c; [done|].
  change (fold_left stats.recordResult (r :: results) c)
    with (fold_left stats.recordResult results (stats.recordResult c r)).
  destruct (IH (stats.recordResult c r)) as (H1 & H2 & H3 & H4 & H5 & H6).
  destruct (recordResult_totals c r) as (G1 & G2 & G3 & G4 & G5 & G6).
  rewrite H1, H2, H3, H4, H5, H6, G1, G2, G3, G4, G5, G6.
  repeat split; try done.
  rewrite filter_cons. case_decide; [|done].
  simpl length. by rewrite incr_times_succ_r.
Qed.

Lemma recordBids_totals (c : stats.Collector) (entry : string * Z) :
  let c' := stats.recordBids c entry in
  stats.totalRequests c' = stats.totalRequests c
  ∧ stats.totalBids c' = stats.totalBids c
  ∧ stats.totalWins c' = stats.totalWins c
  ∧ stats.totalNoBids c' = stats.totalNoBids c
  ∧ stats.totalRevenue c' = stats.totalRevenue c
  ∧ stats.totalErrors c' = stats.totalErrors c.
Proof.
  simpl. unfold stats.recordBids. destruct entry as [name count].
  by destruct (stats.getOrCreateDSP _ _) as [m dsp].
Qed.

Lemma recordBidsLoop_totals (order : list (string * Z)) (c : stats.Collector) :
  let c' := fold_left stats.recordBids order c in
  stats.totalRequests c' = stats.totalRequests c
  ∧ stats.totalBids c' = stats.totalBids c
  ∧ stats.totalWins c' = stats.totalWins c
  ∧ stats.totalNoBids c' = stats.totalNoBids c
  ∧ stats.totalRevenue c' = stats.totalRevenue c
  ∧ stats.totalErrors c' = stats.totalErrors c.
Proof.
  simpl. revert c. induction order as [|entry order IH]; intros c; [done|].
  change (fold_left stats.recordBids (entry :: order) c)
    with (fold_left stats.recordBids order (stats.recordBids c entry)).
  destruct (IH (stats.recordBids c entry)) as (H1 & H2 & H3 & H4 & H5 & H6).
  destruct (recordBids_totals c entry) as (G1 & G2 & G3 & G4 & G5 & G6).
  by rewrite H1, H2, H3, H4, H5, H6, G1, G2, G3, G4, G5, G6.
Qed.

Lemma recordWin_totals (c : stats.Collector) (o : auction.Outcome) :
  let c' := stats.recordWin c o in
  stats.totalRequests c' = stats.totalRequests c
  ∧ stats.totalBids c' = stats.totalBids c
  ∧ stats.totalWins c' = stats.totalWins c
  ∧ stats.totalNoBids c' = stats.totalNoBids c
  ∧ stats.totalRevenue c' = stats.totalRevenue c
  ∧ stats.totalErrors c' = stats.totalErrors c.
Proof.
  simpl. unfold stats.recordWin. destruct (auction.Winner o); [|done].
  case_decide; [done|]. by destruct (stats.getOrCreateDSP _ _) as [m dsp].
Qed.

(** The counters of a DSP after one call of [RecordAuction]. *)
Lemma RecordAuction_dspOf (c : stats.Collector) (outcome : auction.Outcome)
    (results : list dispatcher.Result) (d : string) :
  let before := dspOf c d in
  let after := dspOf (stats.RecordAuction c outcome results) d in
  let mine := resultsOf d results in
  stats.requests after = incr_times (length mine) (stats.requests before)
  ∧ stats.totalLatency after
    = fold_left i64_add (dispatcher.Latency <$> mine) (stats.totalLatency before)
  ∧ stats.errors after
    = incr_times (length (filter hasError mine)) (stats.errors before)
  ∧ stats.noBids after
    = incr_times (length (filter isNoBidResult mine)) (stats.noBids before)
  ∧ stats.bids after
    = if decide (bidsOf d (auction.AllBids outcome) = 0) then stats.bids before
      else u64_add (stats.bids before) (bidsOf d (auction.AllBids outcome)).
Proof.
  simpl. unfold stats.RecordAuction, stats.RecordAuction_in.
  set (c1 := stats.recordOutcome c outcome).
  set (c2 := fold_left stats.recordResult results c1).
  set (order := map_to_list (stats.countBids (auction.AllBids outcome))).
  set (c3 := fold_left stats.recordBids order c2).
  assert (dspOf c1 d = dspOf c d) as H1.
  { unfold c1, stats.recordOutcome, dspOf. by destruct (auction.Winner outcome). }
  pose proof (recordResults_dspOf results c1 d) as H2. fold c2 in H2.
  rewrite H1 in H2.
  assert (dspOf c3 d
          = if decide (bidsOf d (auction.AllBids outcome) = 0) then dspOf c2 d
            else addBids (bidsOf d (auction.AllBids outcome)) (dspOf c2 d)) as H3.
  { unfold c3. rewrite recordBidsLoop_dspOf by apply NoDup_fst_map_to_list.
    unfold order. rewrite list_to_map_to_list, countBids_lookup.
    by case_decide. }
  destruct (recordWin_dspOf c3 outcome d) as (Wreq & Wbids & Wnb & Werr & Wlat).
  destruct (updResults_fields (resultsOf d results) (dspOf c d))
    as (Freq & Flat & Ferr & Fnb & Fbids & _).
  rewrite <- H2 in Freq, Flat, Ferr, Fnb, Fbids.
  rewrite Wreq, Wbids, Wnb, Werr, Wlat.
  rewrite H3. case_decide; simpl; rewrite ?Fbids; done.
Qed.

(** The global errors counter after one call of [RecordAuction]. *)
Lemma RecordAuction_totalErrors (c : stats.Collector) (outcome : auction.Outcome)
    (results : list dispatcher.Result) :
  stats.totalErrors (stats.RecordAuction c outcome results)
  = incr_times (length (filter hasError results)) (stats.totalErrors c).
Proof.
  unfold stats.RecordAuction, stats.RecordAuction_in.
  set (c1 := stats.recordOutcome c outcome).
  set (c2 := fold_left stats.recordResult results c1).
  set (order := map_to_list (stats.countBids (auction.AllBids outcome))).
  set (c3 := fold_left stats.recordBids order c2).
  destruct (recordWin_totals c3 outcome) as (_ & _ & _ & _ & _ & ->).
  destruct (recordBidsLoop_totals order c2) as (_ & _ & _ & _ & _ & Te3).
  fold c3 in Te3. rewrite Te3.
  destruct (recordResults_totals results c1) as (_ & _ & _ & _ & _ & Te2).
  fold c2 in Te2. rewrite Te2.
  unfold c1, stats.recordOutcome. by destruct (auction.Winner outcome).
Qed.

(** C7. After [RecordAuction], for every DSP: its requests counter has
    been incremented by one for each of its results, and its cumulative
    latency has had the latency of each of them added; its errors
    counter has been incremented by one for each of its results that
    carries an error, and so has the global errors counter for each
    result that carries one; its no-bids counter has been incremented by
    one for each of its results that carries no error and a no-bid
    response; and its bids counter has been incremented by the number of
    eligible bids of the outcome tagged with its name, whatever the
    responses hold. *)
Theorem RecordAuction_per_DSP (c : stats.Collector) (outcome : auction.Outcome)
    (results : list dispatcher.Result) (d : string) :
  let before := dspOf c d in
  let after := dspOf (stats.RecordAuction c outcome results) d in
  let mine := resultsOf d results in
  stats.requests after = incr_times (length mine) (stats.requests before)
  ∧ stats.totalLatency after
    = fold_left i64_add (dispatcher.Latency <$> mine) (stats.totalLatency before)
  ∧ stats.errors after
    = incr_times (length (filter hasError mine)) (stats.errors before)
  ∧ stats.totalErrors (stats.RecordAuction c outcome results)
    = incr_times (length (filter hasError results)) (stats.totalErrors c)
  ∧ stats.noBids after
    = incr_times (length (filter isNoBidResult mine)) (stats.noBids before)
  ∧ stats.bids after
    = if decide (bidsOf d (auction.AllBids outcome) = 0) then stats.bids before
      else u64_add (stats.bids before) (bidsOf d (auction.AllBids outcome)).
Proof.
  intros before after mine. subst before after mine.
  destruct (RecordAuction_dspOf c outcome results d)
    as (Hreq & Hlat & Herr & Hnb & Hbids).
  pose proof (RecordAuction_totalErrors c outcome results) as Htotal.
  split; [exact Hreq|]. split; [exact Hlat|]. split; [exact Herr|].
  split; [exact Htotal|]. split; [exact Hnb|exact Hbids].
Qed.

(** The order in which the loop ranges over [bidsByDSP] does not
    matter: the entries have distinct names, and the updates of two
    different DSPs commute. *)
Lemma recordBids_insert (c : stats.Collector) (name : string) (count : Z) :
  stats.recordBids c (name, count)
  = {| stats.totalRequests := stats.totalRequests c;
       stats.totalBids := stats.totalBids c;
       stats.totalWins := stats.totalWins c;
       stats.totalNoBids := stats.totalNoBids c;
       stats.totalErrors := stats.totalErrors c;
       stats.totalRevenue := stats.totalRevenue c;
       stats.dspStats := <[name := addBids count (dspOf c name)]> (stats.dspStats c) |}.
Proof.
  unfold stats.recordBids, dspOf.
  destruct (getOrCreateDSP_insert (stats.dspStats c) name
              stats.dspStatsInternal_zero) as [_ Hdsp].
  destruct (stats.getOrCreateDSP (stats.dspStats c) name) as [m dsp] eqn:Hget.
  simpl in Hdsp. subst dsp.
  match goal with |- context [stats.storeDSP m name ?dsp'] =>
    destruct (getOrCreateDSP_insert (stats.dspStats c) name dsp') as [Hst _];
    rewrite Hget in Hst; simpl in Hst; rewrite Hst
  end.
  done.
Qed.

Lemma recordBids_commute (c : stats.Collector) (x y : string * Z) :
  x.1 ≠ y.1 →
  stats.recordBids (stats.recordBids c x) y
  = stats.recordBids (stats.recordBids c y) x.
Proof.
  destruct x as [n1 k1], y as [n2 k2]. intros Hne. simpl in Hne.
  rewrite !recordBids_insert. simpl. unfold dspOf. simpl.
  rewrite !lookup_insert_ne by done. f_equal.
  by apply insert_insert_ne.
Qed.

Lemma recordBidsLoop_Permutation (l1 l2 : list (string * Z)) :
  l1 ≡ₚ l2 → NoDup l1.*1 →
  ∀ c, fold_left stats.recordBids l1 c = fold_left stats.recordBids l2 c.
Proof.
  induction 1 as [|x l1 l2 Hperm IH|x y l|l1 l2 l3 H12 IH12 H23 IH23]; intros Hnd c.
  - done.
  - rewrite fmap_cons in Hnd. apply NoDup_cons in Hnd as [_ Hnd].
    change (fold_left stats.recordBids l1 (stats.recordBids c x)
            = fold_left stats.recordBids l2 (stats.recordBids c x)).
    by apply IH.
  - rewrite !fmap_cons in Hnd. apply NoDup_cons in Hnd as [Hy _].
    change (fold_left stats.recordBids l
              (stats.recordBids (stats.recordBids c y) x)
            = fold_left stats.recordBids l
                (stats.recordBids (stats.recordBids c x) y)).
    rewrite (recordBids_commute c y x); [done|].
    intros Heq. apply Hy. rewrite Heq. by left.
  - rewrite IH12 by done. apply IH23. by rewrite <- H12.
Qed.

Lemma RecordAuction_any_order (order : list (string * Z)) (c : stats.Collector)
    (outcome : auction.Outcome) (results : list dispatcher.Result) :
  order ≡ₚ map_to_list (stats.countBids (auction.AllBids outcome)) →
  stats.RecordAuction_in order c outcome results
  = stats.RecordAuction c outcome results.
Proof.
  intros Hperm. unfold stats.RecordAuction, stats.RecordAuction_in. f_equal.
  symmetry. apply recordBidsLoop_Permutation; [done|].
  apply NoDup_fst_map_to_list.
Qed.

(* ===================================================================== *)
(** ** stats: the global counters of a run *)
(* ===================================================================== *)

Lemma wrap_u64_idemp (z : Z) : wrap_u64 (wrap_u64 z) = wrap_u64 z.
Proof. unfold wrap_u64. by rewrite Z.mod_mod. Qed.

Lemma u64_add_wrap_l (a b : Z) : u64_add (wrap_u64 a) b = wrap_u64 (a + b).
Proof. unfold u64_add, wrap_u64. by rewrite Zplus_mod_idemp_l. Qed.

Lemma wrap_u64_small (z : Z) : 0 ≤ z < 2 ^ 64 → wrap_u64 z = z.
Proof. intros. unfold wrap_u64. by apply Z.mod_small. Qed.

(** A uint64 that starts at zero and is added to step by step holds the
    sum of the steps, wrapped. *)
Lemma u64_accumulate (steps : list Z) (a : Z) :
  fold_left u64_add steps (wrap_u64 a) = wrap_u64 (a + fold_right Z.add 0 steps).
Proof.
  revert a. induction steps as [|s steps IH]; intros a; simpl.
  - by rewrite Z.add_0_r.
  - rewrite u64_add_wrap_l, IH. f_equal. lia.
Qed.

Lemma incr_times_wrap (k : nat) (a : Z) :
  incr_times k (wrap_u64 a) = wrap_u64 (a + Z.of_nat k).
Proof.
  revert a. induction k as [|k IH]; intros a.
  - simpl. by rewrite Z.add_0_r.
  - rewrite incr_times_succ_r, u64_add_wrap_l, IH. f_equal. lia.
Qed.

Lemma RecordAuction_totals (c : stats.Collector) (o : auction.Outcome)
    (results : list dispatcher.Result) :
  let c' := stats.RecordAuction c o results in
  stats.totalRequests c' = u64_add (stats.totalRequests c) 1
  ∧ stats.totalBids c'
    = u64_add (stats.totalBids c) (Z.of_nat (length (auction.AllBids o)))
  ∧ stats.totalWins c'
    = (if hasWinner o then u64_add (stats.totalWins c) 1 else stats.totalWins c)
  ∧ stats.totalNoBids c'
    = (if hasWinner o then stats.totalNoBids c else u64_add (stats.totalNoBids c) 1)
  ∧ stats.totalRevenue c'
    = (if hasWinner o then f64_add (stats.totalRevenue c) (auction.ClearingPrice o)
       else stats.totalRevenue c).
Proof.
  simpl. unfold stats.RecordAuction, stats.RecordAuction_in.
  set (c1 := stats.recordOutcome c o).
  set (c2 := fold_left stats.recordResult results c1).
  set (c3 := fold_left stats.recordBids _ c2).
  destruct (recordWin_totals c3 o) as (-> & -> & -> & -> & -> & _).
  destruct (recordBidsLoop_totals
              (map_to_list (stats.countBids (auction.AllBids o))) c2)
    as (H1 & H2 & H3 & H4 & H5 & _).
  fold c3 in H1, H2, H3, H4, H5. rewrite H1, H2, H3, H4, H5.
  destruct (recordResults_totals results c1) as (G1 & G2 & G3 & G4 & G5 & _).
  fold c2 in G1, G2, G3, G4, G5. rewrite G1, G2, G3, G4, G5.
  unfold c1, stats.recordOutcome, hasWinner.
  by destruct (auction.Winner o).
Qed.

Lemma recordAll_totals (calls : list (auction.Outcome * list dispatcher.Result))
    (c : stats.Collector) :
  let c' := recordAll c calls in
  stats.totalRequests c'
  = fold_left u64_add (List.map (λ _, 1) calls) (stats.totalRequests c)
  ∧ stats.totalBids c'
    = fold_left u64_add
        (List.map (λ call, Z.of_nat (length (auction.AllBids call.1))) calls)
        (stats.totalBids c)
  ∧ stats.totalWins c'
    = fold_left u64_add
        (List.map (λ _, 1) (List.filter (λ call, hasWinner call.1) calls))
        (stats.totalWins c)
  ∧ stats.totalNoBids c'
    = fold_left u64_add
        (List.map (λ _, 1) (List.filter (λ call, negb (hasWinner call.1)) calls))
        (stats.totalNoBids c)
  ∧ stats.totalRevenue c'
    = fold_left f64_add (clearingPrices calls) (stats.totalRevenue c).
Proof.
  simpl. revert c. induction calls as [|[o results] calls IH]; intros c; [done|].
  change (recordAll c ((o, results) :: calls))
    with (recordAll (stats.RecordAuction c o results) calls).
  destruct (IH (stats.RecordAuction c o results)) as (H1 & H2 & H3 & H4 & H5).
  destruct (RecordAuction_totals c o results) as (G1 & G2 & G3 & G4 & G5).
  rewrite H1, H2, H3, H4, H5, G1, G2, G3, G4, G5.
  unfold clearingPrices. simpl. by destruct (hasWinner o).
Qed.

Lemma sum_ones {A} (l : list A) :
  fold_right Z.add 0 (List.map (λ _, 1) l) = Z.of_nat (length l).
Proof. induction l as [|x l IH]; simpl; [done|]. rewrite IH. lia. Qed.

Lemma sum_eligible (calls : list (auction.Outcome * list dispatcher.Result)) :
  fold_right Z.add 0
    (List.map (λ call, Z.of_nat (length (auction.AllBids call.1))) calls)
  = countEligible calls.
Proof. induction calls as [|x l IH]; simpl; [done|]. by rewrite IH. Qed.

Lemma winners_partition (calls : list (auction.Outcome * list dispatcher.Result)) :
  countWinners calls + countNoWinner calls = Z.of_nat (length calls).
Proof.
  unfold countWinners, countNoWinner.
  induction calls as [|[o rs] calls IH]; simpl; [done|].
  destruct (hasWinner o); simpl; lia.
Qed.

Lemma countEligible_nonneg (calls : list (auction.Outcome * list dispatcher.Result)) :
  0 ≤ countEligible calls.
Proof. induction calls as [|x l IH]; simpl; lia. Qed.

(** C4. After [n] calls of [RecordAuction] on a new or reset collector
    (with fewer than 2^64 calls and eligible bids, so that no counter
    wraps), a snapshot shows: [TotalRequests] is [n]; [TotalWins] counts
    the calls whose outcome has a winner and [TotalNoBids] the others, so
    that their sum is [TotalRequests]; [TotalRevenue] is the sum of the
    clearing prices of the calls with a winner; and [TotalBids] is the
    sum of the lengths of the outcomes' lists of eligible bids. Each
    call increments exactly one of the wins and no-bids counters. *)
Theorem Snapshot_totals (c0 start : stats.Collector)
    (calls : list (auction.Outcome * list dispatcher.Result)) :
  start = stats.New ∨ start = stats.Reset c0 →
  Z.of_nat (length calls) < 2 ^ 64 →
  countEligible calls < 2 ^ 64 →
  let snap := stats.Snapshot (recordAll start calls) in
  stats.TotalRequests snap = Z.of_nat (length calls)
  ∧ stats.TotalWins snap = countWinners calls
  ∧ stats.TotalNoBids snap = countNoWinner calls
  ∧ stats.TotalWins snap + stats.TotalNoBids snap = stats.TotalRequests snap
  ∧ stats.TotalRevenue snap = f64_sum (clearingPrices calls)
  ∧ stats.TotalBids snap = countEligible calls
  ∧ (∀ c o results,
       let c' := stats.RecordAuction c o results in
       if hasWinner o
       then stats.totalWins c' = u64_add (stats.totalWins c) 1
            ∧ stats.totalNoBids c' = stats.totalNoBids c
       else stats.totalNoBids c' = u64_add (stats.totalNoBids c) 1
            ∧ stats.totalWins c' = stats.totalWins c).
Proof.
  intros Hstart Hn Hbids snap.
  assert (start = stats.New) as -> by (by destruct Hstart as [->| ->]).
  subst snap. unfold stats.Snapshot. simpl.
  destruct (recordAll_totals calls stats.New) as (H1 & H2 & H3 & H4 & H5).
  simpl in H1, H2, H3, H4, H5.
  pose proof (winners_partition calls) as Hpart.
  pose proof (countEligible_nonneg calls) as Hnonneg.
  assert (0 ≤ countWinners calls ∧ 0 ≤ countNoWinner calls) as [Hw Hnw]
    by (unfold countWinners, countNoWinner; lia).
  change 0 with (wrap_u64 0) in H1, H2, H3, H4.
  rewrite u64_accumulate, sum_ones in H1, H3, H4.
  rewrite u64_accumulate, sum_eligible in H2.
  fold (countWinners calls) in H3. fold (countNoWinner calls) in H4.
  rewrite wrap_u64_small in H1, H2, H3, H4 by lia.
  rewrite H1, H2, H3, H4, H5. simpl.
  repeat split; try done.
  intros c o results. simpl.
  destruct (RecordAuction_totals c o results) as (_ & _ & G3 & G4 & _).
  rewrite G3, G4. by destruct (hasWinner o).
Qed.

Example Snapshot_totals_example :
  let snap := stats.Snapshot (recordAll stats.New scenario_stats.calls) in
  stats.TotalRequests snap = 2
  ∧ stats.TotalWins snap = 1
  ∧ stats.TotalNoBids snap = 1
  ∧ stats.TotalErrors snap = 1
  ∧ stats.TotalBids snap = 2
  ∧ stats.TotalRevenue snap = scenario.p3.
Proof. by vm_compute. Qed.

Lemma Snapshot_totals_witness :
  (stats.New = stats.New ∨ stats.New = stats.Reset stats.New)
  ∧ Z.of_nat (length scenario_stats.calls) < 2 ^ 64
  ∧ countEligible scenario_stats.calls < 2 ^ 64
  ∧ stats.TotalRequests (stats.Snapshot (recordAll stats.New scenario_stats.calls))
    = Z.of_nat (length scenario_stats.calls).
Proof.
  assert (Z.of_nat (length scenario_stats.calls) < 2 ^ 64) as Hn
    by (vm_compute; reflexivity).
  assert (countEligible scenario_stats.calls < 2 ^ 64) as Hb
    by (vm_compute; reflexivity).
  split; [by left|]. split; [exact Hn|]. split; [exact Hb|].
  exact (proj1 (Snapshot_totals stats.New stats.New scenario_stats.calls
                  (or_introl eq_refl) Hn Hb)).
Defined.

(* ===================================================================== *)
(** ** Results with neither an error nor a response *)
(* ===================================================================== *)

Example silent_result_example :
  let c := stats.RecordAuction stats.New
             (auction.Run "req-1" scenario.p0_5 [scenario_stats.silent])
             [scenario_stats.silent] in
  stats.dspStats c !! "dsp1"
  = Some {| stats.requests := 1; stats.bids := 0; stats.wins := 0;
            stats.noBids := 0; stats.errors := 0;
            stats.totalLatency := 5000000 |}
  ∧ stats.totalErrors c = 0 ∧ stats.totalNoBids c = 1.
Proof. by vm_compute. Qed.

(** C10. A result with neither an error nor a response gives [Run] no
    eligible bid, and the loop body of [RecordAuction] adds one to the
    requests counter of its DSP and its latency to the cumulative
    latency of that DSP, and changes nothing else: not the errors, the
    no-bids, the bids or the wins of that DSP, not the global errors
    counter, and no counter of another DSP. After one auction over such
    a result alone, on a new collector, the requests counter of the DSP
    is 1 and its bids, no-bids and errors counters are 0. *)
Theorem silent_result_only_counts_request (r : dispatcher.Result) :
  dispatcher.Error r = None →
  dispatcher.Response r = None →
  (∀ requestID bidFloor pre post,
     auction.AllBids (auction.Run requestID bidFloor (pre ++ r :: post))
     = auction.AllBids (auction.Run requestID bidFloor (pre ++ post)))
  ∧ (∀ c,
       let c' := stats.recordResult c r in
       let before := dspOf c (dispatcher.DSPName r) in
       let after := dspOf c' (dispatcher.DSPName r) in
       stats.requests after = u64_add (stats.requests before) 1
       ∧ stats.totalLatency after
         = i64_add (stats.totalLatency before) (dispatcher.Latency r)
       ∧ stats.errors after = stats.errors before
       ∧ stats.noBids after = stats.noBids before
       ∧ stats.bids after = stats.bids before
       ∧ stats.wins after = stats.wins before
       ∧ stats.totalErrors c' = stats.totalErrors c
       ∧ ∀ d, d ≠ dispatcher.DSPName r → dspOf c' d = dspOf c d)
  ∧ (∀ requestID bidFloor,
       let c := stats.RecordAuction stats.New
                  (auction.Run requestID bidFloor [r]) [r] in
       let dsp := dspOf c (dispatcher.DSPName r) in
       stats.requests dsp = 1
       ∧ stats.bids dsp = 0 ∧ stats.noBids dsp = 0 ∧ stats.errors dsp = 0
       ∧ stats.requests dsp > stats.bids dsp + stats.noBids dsp + stats.errors dsp).
Proof.
  intros Herr Hresp.
  assert (∀ bidFloor, eligibleOf bidFloor r = []) as Hnone.
  { intros bidFloor. unfold eligibleOf. by rewrite Herr, Hresp. }
  split; [|split].
  - intros requestID bidFloor pre post. rewrite !Run_AllBids.
    unfold eligibleBids_spec. rewrite !List.flat_map_app. simpl.
    by rewrite Hnone.
  - intros c. simpl. rewrite recordResult_dspOf, decide_True by done.
    destruct (recordResult_totals c r) as (_ & _ & _ & _ & _ & Hte).
    rewrite Hte. unfold updResult. simpl. rewrite Herr.
    rewrite decide_False by (unfold hasError; rewrite Herr; by intros H).
    rewrite Hresp. repeat (split; [done|]).
    intros d Hd. rewrite recordResult_dspOf. by rewrite decide_False.
  - intros requestID bidFloor. simpl.
    destruct (RecordAuction_dspOf stats.New (auction.Run requestID bidFloor [r]) [r]
                (dispatcher.DSPName r)) as (Hreq & _ & He & Hnb & Hbids).
    rewrite Run_AllBids in Hbids. unfold eligibleBids_spec in Hbids.
    simpl in Hbids. rewrite Hnone in Hbids. simpl in Hbids.
    unfold resultsOf in Hreq, He, Hnb. rewrite filter_cons in Hreq, He, Hnb.
    rewrite decide_True in Hreq, He, Hnb by done.
    rewrite filter_nil in Hreq, He, Hnb.
    rewrite filter_cons, filter_nil in He, Hnb.
    rewrite decide_False in He by (unfold hasError; rewrite Herr; by intros H).
    rewrite decide_False in Hnb
      by (intros [_ (resp & Hsome & _)]; rewrite Hresp in Hsome; done).
    rewrite Hreq, He, Hnb, Hbids. by vm_compute.
Qed.

Lemma silent_result_only_counts_request_witness :
  dispatcher.Error scenario_stats.silent = None
  ∧ dispatcher.Response scenario_stats.silent = None
  ∧ stats.requests
      (dspOf (stats.RecordAuction stats.New
                (auction.Run "req-1" scenario.p0_5 [scenario_stats.silent])
                [scenario_stats.silent]) "dsp1")
    = 1.
Proof.
  split; [reflexivity|]. split; [reflexivity|].
  destruct (silent_result_only_counts_request scenario_stats.silent eq_refl eq_refl)
    as (_ & _ & Hone).
  exact (proj1 (Hone "req-1" scenario.p0_5)).
Defined.

(* ===================================================================== *)
(** ** engine: the life cycle *)
(* ===================================================================== *)

Lemma New_idle (opts : list engine.Option) : idle (engine.New opts).
Proof.
  unfold engine.New.
  set (e0 := {| engine.rps := 100; engine.bidFloor := f64_0_01;
                engine.running := false; engine.cancel := None;
                engine.loops := []; engine.cancelled := [];
                engine.nextCtx := 0 |}).
  assert (idle e0) as H0 by done.
  revert H0. generalize e0. clear e0.
  induction opts as [|opt opts IH]; intros e He; simpl; [done|].
  apply IH. by destruct opt.
Qed.

Lemma Stop_idle (e : engine.Engine) : idle e → engine.Stop e = Some e.
Proof.
  intros (Hrun & Hcancel & Hloops). destruct e as [rps floor run cancel loops cd next].
  simpl in *. subst. reflexivity.
Qed.

Lemma Stop_after_Start (e : engine.Engine) :
  idle e → is_Some (engine.loopInterval e) →
  ∃ e', engine.Stop (engine.Start e).2 = Some e' ∧ idle e'.
Proof.
  intros (Hrun & Hcancel & Hloops) _. destruct e as [rps floor run cancel loops cd next].
  simpl in *. subst. unfold engine.Stop, engine.Start, engine.wgWait. simpl.
  assert (filter (λ ctx, ctx ∉ next :: cd) [next] = []) as Hleft.
  { rewrite filter_cons, decide_False; [done|].
    intros Hnot. apply Hnot. by left. }
  unfold engine.loopsLeft. simpl. rewrite Hleft. simpl.
  eexists. split; [done|]. done.
Qed.

Lemma Stop_not_running (e e' : engine.Engine) :
  engine.Stop e = Some e' → engine.IsRunning e' = false.
Proof.
  unfold engine.Stop. destruct (engine.wgWait (engine.Stop_cancel e)); [|done].
  simpl. by intros [= <-].
Qed.

Example engine_start_stop :
  let e1 := (engine.Start (engine.New [engine.WithRPS 100])).2 in
  engine.IsRunning e1 = true
  ∧ (engine.Start e1).1 = Some engine.ErrAlreadyRunning
  ∧ (engine.IsRunning <$> engine.Stop e1) = Some false.
Proof. by vm_compute. Qed.

(** C6. A new engine is idle. [Start] on an engine that is not running
    succeeds and the engine is running afterwards. [Start] on a running
    engine fails with the already-running error and leaves the engine as
    it is; an engine that is stopping (whose cancel function [Stop] has
    called) still counts as running. [Stop] on an idle engine returns
    and leaves it as it is. [Stop] on a started engine returns and
    leaves it idle, and after any [Stop] that returns, the engine is not
    running. What is said of an engine that has been started holds when
    its rate gives the loop a ticker (between 1 and 10^9 requests per
    second): with any other rate the loop goroutine panics at once. *)
Theorem engine_lifecycle :
  (∀ opts, idle (engine.New opts) ∧ engine.IsRunning (engine.New opts) = false)
  ∧ (∀ e, engine.IsRunning e = false → is_Some (engine.loopInterval e) →
          (engine.Start e).1 = None
          ∧ engine.IsRunning (engine.Start e).2 = true)
  ∧ (∀ e, engine.IsRunning e = true →
          engine.Start e = (Some engine.ErrAlreadyRunning, e))
  ∧ (∀ e, engine.IsRunning e = true →
          engine.IsRunning (engine.Stop_cancel e) = true
          ∧ engine.Start (engine.Stop_cancel e)
            = (Some engine.ErrAlreadyRunning, engine.Stop_cancel e))
  ∧ (∀ e, idle e → engine.Stop e = Some e)
  ∧ (∀ e, idle e → is_Some (engine.loopInterval e) →
          ∃ e', engine.Stop (engine.Start e).2 = Some e' ∧ idle e')
  ∧ (∀ e e', engine.Stop e = Some e' → engine.IsRunning e' = false).
Proof.
  split; [|split; [|split; [|split; [|split; [|split]]]]].
  - intros opts. split; [apply New_idle|]. by destruct (New_idle opts).
  - intros e Hrun _. unfold engine.Start, engine.IsRunning in *. by rewrite Hrun.
  - intros e Hrun. unfold engine.Start, engine.IsRunning in *. by rewrite Hrun.
  - intros e Hrun.
    assert (engine.IsRunning (engine.Stop_cancel e) = true) as Hrun'.
    { unfold engine.Stop_cancel. by destruct (engine.cancel e). }
    split; [done|]. unfold engine.Start, engine.IsRunning in *. by rewrite Hrun'.
  - apply Stop_idle.
  - apply Stop_after_Start.
  - apply Stop_not_running.
Qed.

Lemma engine_lifecycle_witness :
  is_Some (engine.loopInterval (engine.New []))
  ∧ (engine.Start (engine.New [])).1 = None
  ∧ engine.IsRunning (engine.Start (engine.New [])).2 = true
  ∧ ∃ e', engine.Stop (engine.Start (engine.New [])).2 = Some e' ∧ idle e'.
Proof.
  destruct engine_lifecycle as (Hnew & Hstart & _ & _ & _ & Hstop & _).
  assert (is_Some (engine.loopInterval (engine.New []))) as Hticker
    by (eexists; reflexivity).
  destruct (Hnew []) as [Hidle Hrun].
  destruct (Hstart (engine.New []) Hrun Hticker) as [Hnil Hrunning].
  split; [exact Hticker|]. split; [exact Hnil|]. split; [exact Hrunning|].
  exact (Hstop (engine.New []) Hidle Hticker).
Defined.

(* ===================================================================== *)
(** ** engine: the bid floor of a tick *)
(* ===================================================================== *)

Lemma applyOptions_bidFloor (opts : list engine.Option) (e : engine.Engine) :
  engine.bidFloor (fold_left engine.applyOption opts e)
  = fold_left (λ floor opt,
                 match opt with
                 | engine.WithBidFloor f => f
                 | engine.WithRPS _ => floor
                 end) opts (engine.bidFloor e).
Proof.
  revert e. induction opts as [|opt opts IH]; intros e; simpl; [done|].
  rewrite IH. by destruct opt.
Qed.

Lemma New_bidFloor (opts : list engine.Option) :
  engine.bidFloor (engine.New opts) = configuredFloor opts.
Proof. unfold engine.New. by rewrite applyOptions_bidFloor. Qed.

Lemma configuredFloor_default (opts : list engine.Option) :
  Forall (λ opt, ∀ f, opt ≠ engine.WithBidFloor f) opts →
  configuredFloor opts = f64_0_01.
Proof.
  unfold configuredFloor. generalize f64_0_01.
  induction opts as [|opt opts IH]; intros floor Hno; simpl; [done|].
  apply Forall_cons in Hno as [Hopt Hno]. rewrite IH by done.
  destruct opt as [n|f]; [done|]. by destruct (Hopt f).
Qed.

Example tick_floor_of_request :
  engine.tickBidFloor (engine.New []) scenario_http.request = scenario.p0_5.
Proof. by vm_compute. Qed.

Example tick_floor_zero_impressions :
  engine.tickBidFloor (engine.New []) scenario_engine.noImp = f64_0_01.
Proof. by vm_compute. Qed.

Example tick_floor_zero_floor :
  engine.tickBidFloor (engine.New [engine.WithBidFloor scenario.p2])
    scenario_engine.zeroFloor
  = scenario.p2.
Proof. by vm_compute. Qed.

(** C8. A tick records the auction run at the floor [tickBidFloor]:
    the floor of the first impression of the generated request when
    there is one and its floor is above zero, and the floor of the
    engine otherwise, also for a request without impressions. The floor
    of the engine is the one of the last [WithBidFloor] option, and 0.01
    when there is none. *)
Theorem tick_bid_floor :
  (∀ Generate Dispatch Run e c,
     engine.tick Generate Dispatch Run e c
     = stats.RecordAuction c
         (Run (openrtb.BidRequest_ID Generate) (engine.tickBidFloor e Generate)
              (Dispatch Generate))
         (Dispatch Generate))
  ∧ (∀ e req imp0 imps,
       openrtb.BidRequest_Imp req = imp0 :: imps →
       (f64_gt (openrtb.BidFloor imp0) f64_zero = true →
        engine.tickBidFloor e req = openrtb.BidFloor imp0)
       ∧ (f64_gt (openrtb.BidFloor imp0) f64_zero = false →
          engine.tickBidFloor e req = engine.bidFloor e))
  ∧ (∀ e req,
       openrtb.BidRequest_Imp req = [] →
       engine.tickBidFloor e req = engine.bidFloor e)
  ∧ (∀ opts, engine.bidFloor (engine.New opts) = configuredFloor opts)
  ∧ (∀ opts,
       Forall (λ opt, ∀ f, opt ≠ engine.WithBidFloor f) opts →
       engine.bidFloor (engine.New opts) = f64_0_01)
  ∧ (∀ opts f,
       engine.bidFloor (engine.New (opts ++ [engine.WithBidFloor f])) = f).
Proof.
  split; [|split; [|split; [|split; [|split]]]].
  - done.
  - intros e req imp0 imps Himp. unfold engine.tickBidFloor. rewrite Himp.
    split; by intros ->.
  - intros e req Himp. unfold engine.tickBidFloor. by rewrite Himp.
  - apply New_bidFloor.
  - intros opts Hno. by rewrite New_bidFloor, configuredFloor_default.
  - intros opts f. rewrite New_bidFloor. unfold configuredFloor.
    by rewrite fold_left_app.
Qed.

(* ===================================================================== *)
(** * Further properties of the code *)
(* ===================================================================== *)

(* ===================================================================== *)
(** ** openrtb: the highest bid of a response *)
(* ===================================================================== *)

Lemma HighestBid_flat (r : openrtb.BidResponse) :
  openrtb.HighestBid r = fold_left openrtb.HighestBid_step (openrtb.AllBids r) None.
Proof.
  rewrite AllBids_flat_map. unfold openrtb.HighestBid.
  generalize (@None openrtb.Bid) as highest.
  induction (openrtb.BidResponse_SeatBid r) as [|sb sbs IH]; intros highest; [done|].
  simpl. rewrite IH. unfold openrtb.HighestBid_seat. by rewrite fold_left_app.
Qed.

Lemma HighestBid_step_Some (bs : list openrtb.Bid) (h : openrtb.Bid) :
  ∃ b, fold_left openrtb.HighestBid_step bs (Some h) = Some b ∧ (b = h ∨ b ∈ bs).
Proof.
  revert h. induction bs as [|x bs IH]; intros h; simpl.
  - exists h. by split; [|left].
  - destruct (f64_gt (openrtb.Price x) (openrtb.Price h)).
    + destruct (IH x) as (b & Hb & Hor). exists b. split; [done|]. right.
      destruct Hor as [->|Hin]; [by left|by right].
    + destruct (IH h) as (b & Hb & Hor). exists b. split; [done|].
      destruct Hor as [->|Hin]; [by left|right; by right].
Qed.

Example HighestBid_twoSeats :
  openrtb.HighestBid scenario_bids.twoSeats
  = Some (scenario.bid "bid-2" scenario.p3).
Proof. by vm_compute. Qed.

(** X1. [HighestBid] returns nil exactly for a no-bid response, and
    otherwise one of the bids of the response. *)
Theorem HighestBid_nil_iff_no_bid (r : openrtb.BidResponse) :
  (openrtb.HighestBid r = None ↔ openrtb.IsNoBid r = true)
  ∧ (∀ b, openrtb.HighestBid r = Some b → b ∈ openrtb.AllBids r).
Proof.
  assert (openrtb.IsNoBid r = true ↔ openrtb.AllBids r = []) as Hno.
  { rewrite AllBids_flat_map, flat_map_nil_Forall.
    unfold openrtb.IsNoBid. case_decide as Hlen.
    - apply length_zero_iff_nil in Hlen. rewrite Hlen. split; [constructor|done].
    - apply IsNoBid_loop_Forall. }
  rewrite Hno, HighestBid_flat.
  destruct (openrtb.AllBids r) as [|b0 bs]; simpl.
  - split; [done|]. by intros b.
  - destruct (HighestBid_step_Some bs b0) as (b & -> & Hb). split.
    + split; intros; done.
    + intros b' [= <-]. destruct Hb as [->|Hin]; [by left|by right].
Qed.

(** The scan over the flattened bids keeps a first maximum, as long as
    no price is a NaN. *)
Lemma HighestBid_scan_first_max (bs : list openrtb.Bid) :
  Forall (λ b, openrtb.Price b ≠ S754_nan) bs →
  bs ≠ [] →
  ∃ i b,
    fold_left openrtb.HighestBid_step bs None = Some b
    ∧ bs !! i = Some b
    ∧ (∀ b', b' ∈ bs → f64_ge (openrtb.Price b) (openrtb.Price b') = true)
    ∧ (∀ j b', (j < i)%nat → bs !! j = Some b' →
               f64_gt (openrtb.Price b) (openrtb.Price b') = true).
Proof.
  induction bs as [|x bs IH] using rev_ind; intros Hnan Hne; [done|].
  apply Forall_app in Hnan as [Hnan Hx]. apply Forall_inv in Hx.
  simpl in Hx. rewrite fold_left_app. simpl.
  destruct (decide (bs = [])) as [->|Hne'].
  - simpl. exists 0%nat, x. split; [done|]. split; [done|]. split.
    + intros b' Hin. apply list_elem_of_singleton in Hin. subst b'.
      by apply f64_ge_refl.
    + intros; lia.
  - destruct (IH Hnan Hne') as (i & b & -> & Hi & Hmax & Hfirst). simpl.
    assert (openrtb.Price b ≠ S754_nan) as Hb
      by exact (Forall_lookup_1 _ _ _ _ Hnan Hi).
    pose proof (lookup_lt_Some _ _ _ Hi) as Hlt.
    destruct (f64_gt (openrtb.Price x) (openrtb.Price b)) eqn:Hcmp.
    + exists (length bs), x. split; [done|]. split; [by rewrite list_lookup_middle|].
      split.
      * intros b' Hin. apply elem_of_app in Hin as [Hin|Hin].
        -- apply f64_gt_ge. eapply f64_gt_ge_trans; [exact Hcmp|]. by apply Hmax.
        -- apply list_elem_of_singleton in Hin. subst b'. by apply f64_ge_refl.
      * intros j b' Hj Hb'. rewrite lookup_app_l in Hb' by done.
        eapply f64_gt_ge_trans; [exact Hcmp|]. apply Hmax.
        eapply list_elem_of_lookup_2; eauto.
    + exists i, b. split; [done|]. split; [by rewrite lookup_app_l|]. split.
      * intros b' Hin. apply elem_of_app in Hin as [Hin|Hin]; [by apply Hmax|].
        apply list_elem_of_singleton in Hin. subst b'. by apply f64_not_gt_ge.
      * intros j b' Hj Hb'. rewrite lookup_app_l in Hb' by lia. by eapply Hfirst.
Qed.

(** X2. When no bid of a response has a NaN price, the bid [HighestBid]
    returns has a price at least that of every bid of the response, and
    every bid before it, in the order of [AllBids], has a strictly lower
    price: on a tie the first of the highest bids is returned. *)
Theorem HighestBid_first_highest (r : openrtb.BidResponse) (b : openrtb.Bid) :
  Forall (λ b', openrtb.Price b' ≠ S754_nan) (openrtb.AllBids r) →
  openrtb.HighestBid r = Some b →
  ∃ i,
    openrtb.AllBids r !! i = Some b
    ∧ (∀ b', b' ∈ openrtb.AllBids r →
             f64_ge (openrtb.Price b) (openrtb.Price b') = true)
    ∧ (∀ j b', (j < i)%nat → openrtb.AllBids r !! j = Some b' →
               f64_gt (openrtb.Price b) (openrtb.Price b') = true).
Proof.
  intros Hnan. rewrite HighestBid_flat. intros Hb.
  destruct (decide (openrtb.AllBids r = [])) as [Hnil|Hne].
  { rewrite Hnil in Hb. done. }
  destruct (HighestBid_scan_first_max _ Hnan Hne) as (i & b' & Hb' & Hi & Hmax & Hfirst).
  rewrite Hb in Hb'. injection Hb' as <-. by exists i.
Qed.

Lemma HighestBid_first_highest_witness :
  Forall (λ b', openrtb.Price b' ≠ S754_nan) (openrtb.AllBids scenario_bids.twoSeats)
  ∧ openrtb.HighestBid scenario_bids.twoSeats = Some (scenario.bid "bid-2" scenario.p3)
  ∧ ∃ i, openrtb.AllBids scenario_bids.twoSeats !! i
         = Some (scenario.bid "bid-2" scenario.p3).
Proof.
  assert (Forall (λ b', openrtb.Price b' ≠ S754_nan)
            (openrtb.AllBids scenario_bids.twoSeats)) as Hnan.
  { repeat constructor; by vm_compute. }
  assert (openrtb.HighestBid scenario_bids.twoSeats
          = Some (scenario.bid "bid-2" scenario.p3)) as Hb by (vm_compute; reflexivity).
  split; [exact Hnan|]. split; [exact Hb|].
  destruct (HighestBid_first_highest _ _ Hnan Hb) as (i & Hi & _).
  exists i. exact Hi.
Defined.

(** X3. A bid with a NaN price that comes first in a response is what
    [HighestBid] returns, whatever the other bids are: no price compares
    above a NaN. *)
Theorem HighestBid_nan_first_stays (r : openrtb.BidResponse) (b0 : openrtb.Bid)
    (rest : list openrtb.Bid) :
  openrtb.AllBids r = b0 :: rest →
  openrtb.Price b0 = S754_nan →
  openrtb.HighestBid r = Some b0.
Proof.
  intros Hall Hnan. rewrite HighestBid_flat, Hall. simpl.
  clear Hall. induction rest as [|x rest IH]; simpl; [done|].
  unfold f64_gt, SFltb. rewrite Hnan. simpl. exact IH.
Qed.

Lemma HighestBid_nan_first_stays_witness :
  openrtb.AllBids scenario_bids.nanFirst
  = [scenario.bid "bid-1" S754_nan; scenario.bid "bid-2" scenario.p3]
  ∧ openrtb.HighestBid scenario_bids.nanFirst = Some (scenario.bid "bid-1" S754_nan).
Proof.
  split; [reflexivity|].
  exact (HighestBid_nan_first_stays scenario_bids.nanFirst _ _ eq_refl eq_refl).
Defined.

(* ===================================================================== *)
(** ** dispatcher.AllBids and the eligible bids of the auction *)
(* ===================================================================== *)

Lemma dispatcher_AllBids_flat (results : list dispatcher.Result) :
  dispatcher.AllBids results
  = List.flat_map (λ r, match dispatcher.Error r, dispatcher.Response r with
                        | None, Some resp => openrtb.AllBids resp
                        | _, _ => []
                        end) results.
Proof.
  unfold dispatcher.AllBids.
  assert (∀ acc,
    fold_left (λ bids r,
                 match dispatcher.Error r, dispatcher.Response r with
                 | None, Some resp => bids ++ openrtb.AllBids resp
                 | _, _ => bids
                 end) results acc
    = acc ++ List.flat_map (λ r, match dispatcher.Error r, dispatcher.Response r with
                                 | None, Some resp => openrtb.AllBids resp
                                 | _, _ => []
                                 end) results) as H.
  { induction results as [|r results IH]; intros acc; simpl.
    - by rewrite app_nil_r.
    - rewrite IH. destruct (dispatcher.Error r), (dispatcher.Response r);
        simpl; rewrite ?app_nil_r, <- ?app_assoc; done. }
  by rewrite H.
Qed.

Example dispatcher_AllBids_skips_errors :
  dispatcher.AllBids (scenario.twoBidsOneSeat ++ scenario_stats.timedOut)
  = [scenario.bid "bid-1" scenario.p2; scenario.bid "bid-2" scenario.p3].
Proof. reflexivity. Qed.

(** X4. The eligible bids of the auction are the bids [AllBids] of the
    dispatcher package extracts from the same results, in the same
    order, restricted to those priced at or above the floor; so the
    auction never has more eligible bids than the results hold. *)
Theorem Run_bids_among_dispatcher_AllBids (requestID : string) (bidFloor : float64)
    (results : list dispatcher.Result) :
  List.map auction.Bid (auction.AllBids (auction.Run requestID bidFloor results))
  = List.filter (aboveFloor bidFloor) (dispatcher.AllBids results)
  ∧ (length (auction.AllBids (auction.Run requestID bidFloor results))
     ≤ length (dispatcher.AllBids results))%nat.
Proof.
  assert (List.map auction.Bid
            (auction.AllBids (auction.Run requestID bidFloor results))
          = List.filter (aboveFloor bidFloor) (dispatcher.AllBids results)) as Heq.
  { rewrite Run_AllBids, dispatcher_AllBids_flat. unfold eligibleBids_spec.
    induction results as [|r results IH]; simpl; [done|].
    rewrite List.map_app, List.filter_app, IH. f_equal.
    unfold eligibleOf.
    destruct (dispatcher.Error r); [done|].
    destruct (dispatcher.Response r) as [resp|]; [|done].
    rewrite AllBids_flat_map, List.map_map. simpl. by rewrite List.map_id. }
  split; [exact Heq|].
  rewrite <- (List.length_map auction.Bid), Heq. apply List.filter_length_le.
Qed.

(* ===================================================================== *)
(** ** httpclient and dispatcher: what a result carries *)
(* ===================================================================== *)

Lemma Post_one_of Marshal DoTimeout Unmarshal (c : httpclient.Client) (url : string)
    (req : openrtb.BidRequest) :
  (httpclient.Post Marshal DoTimeout Unmarshal c url req).1 = None
  ↔ is_Some (httpclient.Post Marshal DoTimeout Unmarshal c url req).2.
Proof.
  unfold httpclient.Post.
  destruct (Marshal req) as [body [err|]]; simpl; [by eauto|].
  destruct (DoTimeout url body (httpclient.timeout c)) as [response [err|]].
  - destruct (errors.Is err fasthttp.ErrTimeout); simpl; split; eauto.
  - repeat case_decide; simpl.
    + split; [done|]. by intros [? ?].
    + split; eauto.
    + destruct (Unmarshal (fasthttp.Body response)) as [resp [err|]]; simpl.
      * split; eauto.
      * split; [done|]. by intros [? ?].
Qed.

Lemma callDSP_one_of (env : dispatcher.callEnv) (dsp : config.DSPConfig) :
  ((dispatcher.postResult env).1 = None ↔ is_Some (dispatcher.postResult env).2) →
  oneOf (dispatcher.callDSP env dsp).
Proof.
  unfold oneOf, dispatcher.callDSP. intros Hpost.
  destruct (dispatcher.ctxBefore env); simpl; [split; eauto|].
  destruct (dispatcher.postResult env) as [resp [err|]]; simpl in *.
  - destruct (dispatcher.ctxAfter env); simpl; split; eauto.
  - split.
    + intros Hnone. by apply Hpost.
    + by intros [? ?].
Qed.

Example Dispatch_through_Post :
  dispatcher.Dispatch scenario_dispatch.named scenario_post.envs
    scenario_post.allReceived
  = Some [scenario.failed "dsp1"
            (errors.ErrorfW "unmarshal response: %w" (errors.New "invalid json"))
            10000000;
          scenario.failed "dsp2" (errors.TimeoutError fasthttp.ErrTimeout) 10000000].
Proof. by vm_compute. Qed.

(** X5. When the calls of the DSPs go through [Post], every entry that
    [Dispatch] returns carries a response or else an error, never both
    and never neither, whether the entry was received from a goroutine
    or made up on cancellation. *)
Theorem Dispatch_entries_response_or_error dsps envs
    (schedule : list dispatcher.selected) (rs : list dispatcher.Result) :
  NoDup (arrivals schedule) →
  Forall (λ i, (i < length dsps)%nat) (arrivals schedule) →
  (∀ i, ∃ Marshal DoTimeout Unmarshal c url req,
          dispatcher.postResult (envs i)
          = httpclient.Post Marshal DoTimeout Unmarshal c url req) →
  dispatcher.Dispatch dsps envs schedule = Some rs →
  Forall oneOf rs.
Proof.
  intros Hnd Hlt Hpost. rewrite Dispatch_closed by done.
  assert (∀ i dsp, oneOf (dispatcher.callDSP (envs i) dsp)) as Hcall.
  { intros i dsp. apply callDSP_one_of.
    destruct (Hpost i) as (M & D & U & c & url & req & ->). apply Post_one_of. }
  assert (∀ dsp ctxErr, oneOf (cancelledResult dsp ctxErr)) as Hcancel.
  { intros dsp ctxErr. unfold oneOf. simpl. split; eauto. }
  destruct (arrivals_bounded _ _ Hnd Hlt) as [Hlen Hall].
  case_decide as Hc.
  - destruct (cancelCause schedule) as [ctxErr|]; [|done]. simpl. intros [= <-].
    apply Forall_lookup. intros i r.
    rewrite fillRemaining_lookup, slots_lookup.
    destruct (dsps !! i) as [dsp|]; [|done]. simpl. intros [= <-].
    case_decide; [done|]. case_decide; [done|].
    exfalso. by simpl in *.
  - intros [= <-]. apply Forall_lookup. intros i r. rewrite slots_lookup.
    destruct (dsps !! i) as [dsp|] eqn:Hi; [|done]. simpl. intros [= <-].
    rewrite decide_True; [done|].
    apply Hall; [lia|by eapply lookup_lt_Some].
Qed.

Lemma Dispatch_entries_response_or_error_witness :
  NoDup (arrivals scenario_post.allReceived)
  ∧ Forall (λ i, (i < length scenario_dispatch.named)%nat)
      (arrivals scenario_post.allReceived)
  ∧ Forall oneOf
      [scenario.failed "dsp1"
         (errors.ErrorfW "unmarshal response: %w" (errors.New "invalid json"))
         10000000;
       scenario.failed "dsp2" (errors.TimeoutError fasthttp.ErrTimeout) 10000000].
Proof.
  assert (NoDup (arrivals scenario_post.allReceived)) as Hnd.
  { simpl. apply NoDup_cons. split; [|apply NoDup_singleton].
    intros Hin. apply list_elem_of_singleton in Hin. discriminate Hin. }
  assert (Forall (λ i, (i < length scenario_dispatch.named)%nat)
            (arrivals scenario_post.allReceived)) as Hlt.
  { simpl. repeat constructor. }
  split; [exact Hnd|]. split; [exact Hlt|].
  apply (Dispatch_entries_response_or_error scenario_dispatch.named
           scenario_post.envs scenario_post.allReceived _ Hnd Hlt).
  - intros [|i]; simpl; unfold scenario_post.env; eauto 10.
  - vm_compute. reflexivity.
Defined.

(* ===================================================================== *)
(** ** httpclient: timeouts *)
(* ===================================================================== *)

Example IsTimeout_nil : httpclient.IsTimeout None = false.
Proof. reflexivity. Qed.

Example IsTimeout_wrapped :
  httpclient.IsTimeout
    (Some (errors.ErrorfW "dsp: %w" (errors.TimeoutError fasthttp.ErrTimeout)))
  = true.
Proof. reflexivity. Qed.

(** X6. When the request serialises and neither the transport nor the
    decoder returns an error that holds a [TimeoutError] of this package,
    the error of [Post] is recognised by [IsTimeout] exactly when the
    transport failed with an error that is [fasthttp.ErrTimeout]; server
    errors, decode errors and other transport errors are not timeouts.
    The timeout error still matches [fasthttp.ErrTimeout] under
    [errors.Is], through [Unwrap]. *)
Theorem IsTimeout_exactly_transport_timeouts
    (Marshal : openrtb.BidRequest → list Byte.byte * option errors.error)
    (DoTimeout : string → list Byte.byte → Z → fasthttp.Response * option errors.error)
    (Unmarshal : list Byte.byte → openrtb.BidResponse * option errors.error)
    (c : httpclient.Client) (url : string) (req : openrtb.BidRequest)
    (body : list Byte.byte) :
  Marshal req = (body, None) →
  (∀ err, (DoTimeout url body (httpclient.timeout c)).2 = Some err →
          errors.AsTimeoutError err = false) →
  (∀ bytes err, (Unmarshal bytes).2 = Some err → errors.AsTimeoutError err = false) →
  let post := httpclient.Post Marshal DoTimeout Unmarshal c url req in
  (httpclient.IsTimeout post.2 = true
   ↔ ∃ err, (DoTimeout url body (httpclient.timeout c)).2 = Some err
            ∧ errors.Is err fasthttp.ErrTimeout = true)
  ∧ (∀ err, post.2 = Some err → httpclient.IsTimeout post.2 = true →
            errors.Is err fasthttp.ErrTimeout = true).
Proof.
  intros Hm Htransport Hdecode post. subst post. unfold httpclient.Post. rewrite Hm.
  destruct (DoTimeout url body (httpclient.timeout c)) as [response [err|]] eqn:Hdo;
    simpl in Htransport.
  - destruct (errors.Is err fasthttp.ErrTimeout) eqn:His; simpl.
    + split.
      * split; [|done]. intros _. by exists err.
      * intros err' [= <-] _. simpl. exact His.
    + rewrite (Htransport err eq_refl). split.
      * split; [done|]. intros (err' & [= <-] & His'). congruence.
      * done.
  - assert (¬ ∃ err, None = Some err ∧ errors.Is err fasthttp.ErrTimeout = true)
      as Hno by (by intros (err & ? & _)).
    repeat case_decide; simpl.
    + split; [|done]. split; [done|]. intros H'. by destruct Hno.
    + split; [|done]. split; [done|]. intros H'. by destruct Hno.
    + destruct (Unmarshal (fasthttp.Body response)) as [resp [err|]] eqn:Hun; simpl.
      * rewrite (Hdecode (fasthttp.Body response) err) by (by rewrite Hun).
        split; [|done]. split; [done|]. intros H'. by destruct Hno.
      * split; [|done]. split; [done|]. intros H'. by destruct Hno.
Qed.

Lemma IsTimeout_exactly_transport_timeouts_witness :
  scenario_http.Marshal scenario_http.request = ([], None)
  ∧ httpclient.IsTimeout
      (httpclient.Post scenario_http.Marshal
         (scenario_http.noAnswer fasthttp.ErrTimeout) scenario_http.Unmarshal
         scenario_http.client "http://dsp/bid" scenario_http.request).2
    = true.
Proof.
  split; [reflexivity|].
  apply (proj1 (IsTimeout_exactly_transport_timeouts scenario_http.Marshal
                  (scenario_http.noAnswer fasthttp.ErrTimeout)
                  scenario_http.Unmarshal scenario_http.client "http://dsp/bid"
                  scenario_http.request [] eq_refl
                  ltac:(by intros err [= <-])
                  ltac:(by intros bytes err [= <-]))).
  exists fasthttp.ErrTimeout. split; reflexivity.
Defined.

(* ===================================================================== *)
(** ** httpclient.New and dispatcher.New *)
(* ===================================================================== *)

Lemma httpclient_applyOptions_fields (opts : list httpclient.Option) :
  ∀ c1 c2 : httpclient.Client,
    httpclient.timeout c1 = httpclient.timeout c2 →
    httpclient.maxConnsPerHost c1 = httpclient.maxConnsPerHost c2 →
    httpclient.timeout (fold_left httpclient.applyOption opts c1)
    = httpclient.timeout
        (fold_left httpclient.applyOption
           (List.filter (λ opt, negb (isMaxIdleConns opt)) opts) c2)
    ∧ httpclient.maxConnsPerHost (fold_left httpclient.applyOption opts c1)
      = httpclient.maxConnsPerHost
          (fold_left httpclient.applyOption
             (List.filter (λ opt, negb (isMaxIdleConns opt)) opts) c2).
Proof.
  induction opts as [|opt opts IH]; intros c1 c2 Ht Hm; [done|].
  destruct opt as [d|n|n]; simpl; apply IH; simpl; done.
Qed.

(** X7. The [fasthttp.Client] made by [httpclient.New] does not depend
    on the [WithMaxIdleConns] options: leaving them out gives the same
    client, with the same timeouts and connection limit. Its read, write
    and connection-wait timeouts are all the timeout the client uses for
    [DoTimeout]. *)
Theorem httpclient_New_ignores_MaxIdleConns (opts : list httpclient.Option) :
  (httpclient.New opts).2
  = (httpclient.New (List.filter (λ opt, negb (isMaxIdleConns opt)) opts)).2
  ∧ httpclient.ReadTimeout (httpclient.New opts).2
    = httpclient.timeout (httpclient.New opts).1
  ∧ httpclient.WriteTimeout (httpclient.New opts).2
    = httpclient.timeout (httpclient.New opts).1
  ∧ httpclient.MaxConnWaitTimeout (httpclient.New opts).2
    = httpclient.timeout (httpclient.New opts).1.
Proof.
  split; [|done]. unfold httpclient.New. simpl.
  set (c0 := {| httpclient.timeout := 100 * httpclient.Millisecond;
                httpclient.maxConnsPerHost := 100;
                httpclient.maxIdleConns := 100 |}).
  destruct (httpclient_applyOptions_fields opts c0 c0 eq_refl eq_refl) as [-> ->].
  done.
Qed.

Lemma dispatcher_applyOptions_timeout (opts : list dispatcher.Option)
    (d : dispatcher.Dispatcher) :
  dispatcher.timeout (fold_left dispatcher.applyOption opts d)
  = fold_left (λ t opt,
                 match opt with
                 | dispatcher.WithTimeout t' => t'
                 | dispatcher.WithMaxConnsPerHost _ => t
                 end) opts (dispatcher.timeout d)
  ∧ dispatcher.dsps (fold_left dispatcher.applyOption opts d) = dispatcher.dsps d.
Proof.
  revert d. induction opts as [|opt opts IH]; intros d; [done|].
  simpl. destruct (IH (dispatcher.applyOption d opt)) as [-> ->].
  by destruct opt.
Qed.

Example dispatcher_New_timeout_before_other_option :
  let d := dispatcher.New scenario_dispatch.named
             [dispatcher.WithTimeout (5 * httpclient.Second);
              dispatcher.WithMaxConnsPerHost 10] in
  (λ cl, (httpclient.timeout cl.1, httpclient.MaxConnsPerHost cl.2))
    <$> dispatcher.client d
  = Some (5000000000, 10).
Proof. reflexivity. Qed.

(** X8. [dispatcher.New] makes its HTTP client after the options are
    applied: whatever the options and their order, the client's timeout,
    and the read, write and connection-wait timeouts of its
    [fasthttp.Client], are the dispatcher's timeout, which is the one of
    the last [WithTimeout] option and 100ms without any; the connection
    limit is the dispatcher's; and the DSPs are those given. *)
Theorem dispatcher_New_client_timeout (configured : list config.DSPConfig)
    (opts : list dispatcher.Option) :
  let d := dispatcher.New configured opts in
  dispatcher.dsps d = configured
  ∧ dispatcher.timeout d = configuredTimeout opts
  ∧ ∃ c fc,
      dispatcher.client d = Some (c, fc)
      ∧ httpclient.timeout c = dispatcher.timeout d
      ∧ httpclient.ReadTimeout fc = dispatcher.timeout d
      ∧ httpclient.WriteTimeout fc = dispatcher.timeout d
      ∧ httpclient.MaxConnWaitTimeout fc = dispatcher.timeout d
      ∧ httpclient.MaxConnsPerHost fc = dispatcher.maxConnsPerHost d.
Proof.
  simpl. unfold dispatcher.New. simpl.
  set (d0 := {| dispatcher.client := None; dispatcher.dsps := configured;
                dispatcher.timeout := 100 * httpclient.Millisecond;
                dispatcher.maxConnsPerHost := 100 |}).
  destruct (dispatcher_applyOptions_timeout opts d0) as [Ht Hd].
  split; [exact Hd|]. split; [exact Ht|].
  eexists _, _. split; [reflexivity|]. done.
Qed.

(* ===================================================================== *)
(** ** config: defaults, validation and the enabled DSPs *)
(* ===================================================================== *)

Lemma Validate_dsps_None (i : Z) (dsps : list config.DSPConfig) :
  config.Validate_dsps i dsps = None
  ↔ Forall (λ dsp, config.Endpoint dsp ≠ "") dsps.
Proof.
  revert i. induction dsps as [|dsp dsps IH]; intros i; simpl.
  - split; [constructor|done].
  - rewrite Forall_cons. case_decide as He.
    + split; [done|]. by intros [? _].
    + rewrite IH. tauto.
Qed.

Lemma Validate_dsps_Some (i : Z) (dsps : list config.DSPConfig) (err : errors.error) :
  config.Validate_dsps i dsps = Some err →
  ∃ k dsp,
    err = errors.ErrorfD "dsps[%d].endpoint is required" (i + Z.of_nat k)
    ∧ dsps !! k = Some dsp
    ∧ config.Endpoint dsp = ""
    ∧ ∀ j dsp', (j < k)%nat → dsps !! j = Some dsp' → config.Endpoint dsp' ≠ "".
Proof.
  revert i. induction dsps as [|dsp dsps IH]; intros i; simpl; [done|].
  case_decide as He.
  - intros [= <-]. exists 0%nat, dsp. rewrite Z.add_0_r.
    repeat split; try done. intros; lia.
  - intros Herr. destruct (IH _ Herr) as (k & dsp' & -> & Hk & Hempty & Hbefore).
    exists (S k), dsp'. split; [f_equal; lia|]. split; [done|]. split; [done|].
    intros [|j] d Hj Hd; simpl in Hd.
    + by injection Hd as <-.
    + eapply Hbefore; [|done]. lia.
Qed.

Example Validate_missingEndpoint :
  config.Validate scenario_config.missingEndpoint
  = Some (errors.ErrorfD "dsps[%d].endpoint is required" 1).
Proof. reflexivity. Qed.

Example Validate_before_defaults :
  config.Validate scenario_config.onlyDSPs
  = Some (errors.New "server.port must be between 1 and 65535")
  ∧ config.Validate (config.applyDefaults scenario_config.onlyDSPs) = None.
Proof. split; reflexivity. Qed.

Lemma Validate_None_iff (c : config.Config) :
  config.Validate c = None
  ↔ 1 ≤ config.Port (config.Server c) ≤ 65535
    ∧ 0 < config.RequestsPerSecond (config.Simulation c)
    ∧ config.DSPs c ≠ []
    ∧ Forall (λ dsp, config.Endpoint dsp ≠ "") (config.DSPs c).
Proof.
  unfold config.Validate. repeat case_decide.
  - split; [done|]. intros (? & _). lia.
  - split; [done|]. intros (_ & ? & _). lia.
  - split; [done|]. intros (_ & _ & Hne & _).
    by apply length_zero_iff_nil in H1.
  - rewrite Validate_dsps_None. split.
    + intros Hall. repeat split; try lia; try done.
      intros Hnil. by rewrite Hnil in H1.
    + by intros (_ & _ & _ & Hall).
Qed.

(** X9. [Validate] accepts a configuration exactly when its port is
    between 1 and 65535, its requests per second are positive, it has at
    least one DSP and every DSP has an endpoint; names, the enabled
    flags, the scenario, the auction type and the timeout are not
    looked at. When only an endpoint is missing, the error gives the
    index of the first DSP without one. *)
Theorem Validate_accepts_iff (c : config.Config) :
  (config.Validate c = None
   ↔ 1 ≤ config.Port (config.Server c) ≤ 65535
     ∧ 0 < config.RequestsPerSecond (config.Simulation c)
     ∧ config.DSPs c ≠ []
     ∧ Forall (λ dsp, config.Endpoint dsp ≠ "") (config.DSPs c))
  ∧ (1 ≤ config.Port (config.Server c) ≤ 65535 →
     0 < config.RequestsPerSecond (config.Simulation c) →
     ∀ err, config.Validate c = Some err →
       config.DSPs c = []
       ∧ err = errors.New "at least one DSP must be configured"
       ∨ ∃ k dsp,
           err = errors.ErrorfD "dsps[%d].endpoint is required" (Z.of_nat k)
           ∧ config.DSPs c !! k = Some dsp
           ∧ config.Endpoint dsp = ""
           ∧ ∀ j dsp', (j < k)%nat → config.DSPs c !! j = Some dsp' →
                       config.Endpoint dsp' ≠ "").
Proof.
  split; [apply Validate_None_iff|].
  unfold config.Validate.
  - intros Hport Hrps err.
    rewrite decide_False by lia. rewrite decide_False by lia.
    case_decide as Hlen.
    + intros [= <-]. left. by apply length_zero_iff_nil in Hlen.
    + intros Herr. right.
      destruct (Validate_dsps_Some 0 _ _ Herr) as (k & dsp & -> & Hrest).
      exists k, dsp. by rewrite Z.add_0_l.
Qed.

(** X10. [applyDefaults] replaces a zero port by 8080, zero requests
    per second by 10, an empty scenario by "mobile_app", an empty
    auction type by "first_price" and a zero timeout by 100, each on its
    own, and changes nothing else: every other value is kept, negative
    numbers included, the DSPs are untouched, and applying it again
    changes nothing. *)
Theorem applyDefaults_idempotent (c : config.Config) :
  let c' := config.applyDefaults c in
  (config.Port (config.Server c) = 0 → config.Port (config.Server c') = 8080)
  ∧ (config.Port (config.Server c) ≠ 0 →
     config.Port (config.Server c') = config.Port (config.Server c))
  ∧ (config.RequestsPerSecond (config.Simulation c) = 0 →
     config.RequestsPerSecond (config.Simulation c') = 10)
  ∧ (config.RequestsPerSecond (config.Simulation c) ≠ 0 →
     config.RequestsPerSecond (config.Simulation c')
     = config.RequestsPerSecond (config.Simulation c))
  ∧ (config.Scenario (config.Simulation c) = "" →
     config.Scenario (config.Simulation c') = "mobile_app")
  ∧ (config.Scenario (config.Simulation c) ≠ "" →
     config.Scenario (config.Simulation c') = config.Scenario (config.Simulation c))
  ∧ (config.Type_ (config.Auction c) = "" →
     config.Type_ (config.Auction c') = "first_price")
  ∧ (config.Type_ (config.Auction c) ≠ "" →
     config.Type_ (config.Auction c') = config.Type_ (config.Auction c))
  ∧ (config.TimeoutMS (config.Auction c) = 0 →
     config.TimeoutMS (config.Auction c') = 100)
  ∧ (config.TimeoutMS (config.Auction c) ≠ 0 →
     config.TimeoutMS (config.Auction c') = config.TimeoutMS (config.Auction c))
  ∧ config.DSPs c' = config.DSPs c
  ∧ config.applyDefaults c' = c'
  ∧ (config.Port (config.Server c) ≠ 0 →
     config.RequestsPerSecond (config.Simulation c) ≠ 0 →
     config.Scenario (config.Simulation c) ≠ "" →
     config.Type_ (config.Auction c) ≠ "" →
     config.TimeoutMS (config.Auction c) ≠ 0 →
     config.applyDefaults c = c).
Proof.
  destruct c as [[port] [rps scenario] [type timeout] dsps].
  unfold config.applyDefaults. simpl.
  repeat split; intros; repeat case_decide; simpl in *; try done; try congruence.
Qed.

Example applyDefaults_empty :
  config.applyDefaults
    {| config.Server := {| config.Port := 0 |};
       config.Simulation :=
         {| config.RequestsPerSecond := -1; config.Scenario := "" |};
       config.Auction := {| config.Type_ := "second_price"; config.TimeoutMS := 0 |};
       config.DSPs := [] |}
  = {| config.Server := {| config.Port := 8080 |};
       config.Simulation :=
         {| config.RequestsPerSecond := -1; config.Scenario := "mobile_app" |};
       config.Auction := {| config.Type_ := "second_price"; config.TimeoutMS := 100 |};
       config.DSPs := [] |}.
Proof. reflexivity. Qed.

(** X11. A configuration that [Load] returns comes without an error and
    has a port between 1 and 65535, positive requests per second, a
    scenario, an auction type, a timeout that is not zero (it may be
    negative), at least one DSP, and an endpoint for every DSP; and
    [Load] returns a configuration or else an error. *)
Theorem Load_returns_valid
    (ReadFile : string → list Byte.byte * option errors.error)
    (Unmarshal : list Byte.byte → config.Config * option errors.error)
    (path : string) :
  ((config.Load ReadFile Unmarshal path).1 = None
   ↔ is_Some (config.Load ReadFile Unmarshal path).2)
  ∧ ∀ cfg, (config.Load ReadFile Unmarshal path).1 = Some cfg →
      config.Validate cfg = None
      ∧ 1 ≤ config.Port (config.Server cfg) ≤ 65535
      ∧ 0 < config.RequestsPerSecond (config.Simulation cfg)
      ∧ config.Scenario (config.Simulation cfg) ≠ ""
      ∧ config.Type_ (config.Auction cfg) ≠ ""
      ∧ config.TimeoutMS (config.Auction cfg) ≠ 0
      ∧ config.DSPs cfg ≠ []
      ∧ Forall (λ dsp, config.Endpoint dsp ≠ "") (config.DSPs cfg).
Proof.
  unfold config.Load.
  destruct (ReadFile path) as [data [err|]]; simpl.
  { split; [split; eauto|]. by intros cfg. }
  destruct (Unmarshal data) as [cfg0 [err|]]; simpl.
  { split; [split; eauto|]. by intros cfg. }
  destruct (config.Validate (config.applyDefaults cfg0)) as [err|] eqn:Hv; simpl.
  { split; [split; eauto|]. by intros cfg. }
  split.
  { split; [done|]. by intros [? ?]. }
  intros cfg [= <-].
  destruct (proj1 (Validate_None_iff _) Hv) as (Hport & Hrps & Hne & Hall).
  split; [done|]. split; [done|]. split; [done|].
  destruct cfg0 as [[port] [rps scenario] [type timeout] dsps].
  unfold config.applyDefaults in *. simpl in *.
  repeat split; try done;
    match goal with |- context [decide ?P] => by destruct (decide P) end.
Qed.

Lemma Load_returns_valid_witness :
  (config.Load scenario_config.ReadFile scenario_config.Unmarshal "config.yaml").1
  = Some (config.applyDefaults scenario_config.onlyDSPs)
  ∧ config.Validate (config.applyDefaults scenario_config.onlyDSPs) = None.
Proof.
  split; [reflexivity|].
  exact (proj1 (proj2 (Load_returns_valid scenario_config.ReadFile
                         scenario_config.Unmarshal "config.yaml") _ eq_refl)).
Defined.

Lemma EnabledDSPs_filter (c : config.Config) :
  config.EnabledDSPs c = List.filter config.Enabled (config.DSPs c).
Proof.
  unfold config.EnabledDSPs.
  assert (∀ dsps acc,
    fold_left (λ enabled dsp,
                 if config.Enabled dsp then enabled ++ [dsp] else enabled) dsps acc
    = acc ++ List.filter config.Enabled dsps) as H.
  { induction dsps as [|dsp dsps IH]; intros acc; simpl.
    - by rewrite app_nil_r.
    - rewrite IH. destruct (config.Enabled dsp); [|done].
      by rewrite <- app_assoc. }
  by rewrite H.
Qed.

Example EnabledDSPs_onlyDSPs :
  config.EnabledDSPs scenario_config.onlyDSPs
  = [{| config.Name := ""; config.Endpoint := "http://dsp-a/bid";
        config.Enabled := true |}].
Proof. reflexivity. Qed.

(** X12. [EnabledDSPs] returns the enabled DSPs of the configuration
    and no other, in the order of the configuration; it is empty exactly
    when no DSP is enabled. *)
Theorem EnabledDSPs_enabled_in_order (c : config.Config) :
  config.EnabledDSPs c `sublist_of` config.DSPs c
  ∧ (∀ dsp, dsp ∈ config.EnabledDSPs c
            ↔ dsp ∈ config.DSPs c ∧ config.Enabled dsp = true)
  ∧ (config.EnabledDSPs c = []
     ↔ Forall (λ dsp, config.Enabled dsp = false) (config.DSPs c)).
Proof.
  rewrite EnabledDSPs_filter. split; [|split].
  - induction (config.DSPs c) as [|dsp dsps IH]; simpl; [constructor|].
    destruct (config.Enabled dsp); by constructor.
  - intros dsp. rewrite !list_elem_of_In. apply List.filter_In.
  - induction (config.DSPs c) as [|dsp dsps IH]; simpl.
    + split; [constructor|done].
    + rewrite Forall_cons. destruct (config.Enabled dsp); [|tauto].
      split; [done|]. by intros [? _].
Qed.

(* ===================================================================== *)
(** ** Bytes, digits and strings *)
(* ===================================================================== *)

Lemma byte_of_Z_to_N (z : Z) :
  0 ≤ z < 256 → Z.of_N (Byte.to_N (bytes.byte_of_Z z)) = z.
Proof.
  intros Hz. unfold bytes.byte_of_Z, bytes.wrap_u8.
  rewrite Z.mod_small by done.
  destruct (Byte.of_N (Z.to_N z)) as [b|] eqn:Hb.
  - simpl. apply Byte.to_of_N in Hb. rewrite Hb. apply Z2N.id. lia.
  - apply Byte.of_N_None_iff in Hb.
    assert (Z.of_N (Z.to_N z) = z) as Hid by (apply Z2N.id; lia). lia.
Qed.

(** Distinct byte sequences give distinct strings. *)
Lemma go_string_inj (bs1 bs2 : list Z) :
  Forall (λ b, 0 ≤ b < 256) bs1 → Forall (λ b, 0 ≤ b < 256) bs2 →
  bytes.go_string bs1 = bytes.go_string bs2 → bs1 = bs2.
Proof.
  unfold bytes.go_string. intros H1 H2 Heq.
  apply (f_equal String.list_byte_of_string) in Heq.
  rewrite !String.list_byte_of_string_of_list_byte in Heq.
  revert bs2 H2 Heq. induction bs1 as [|b1 bs1 IH]; intros [|b2 bs2] H2 Heq;
    try done.
  apply Forall_cons in H1 as [Hb1 H1]. apply Forall_cons in H2 as [Hb2 H2].
  simpl in Heq. injection Heq as Hb Hrest. f_equal; [|by apply IH].
  rewrite <- (byte_of_Z_to_N b1), <- (byte_of_Z_to_N b2) by done. by rewrite Hb.
Qed.

Lemma decimalValue_snoc (bs : list Z) (b : Z) :
  decimalValue (bs ++ [b]) = decimalValue bs * 10 + (b - 48).
Proof. unfold decimalValue. by rewrite fold_left_app. Qed.

Lemma digitsOf_facts (k : nat) (n : Z) :
  length (digitsOf k n) = k
  ∧ Forall isDigit (digitsOf k n)
  ∧ decimalValue (digitsOf k n) = n mod 10 ^ Z.of_nat k.
Proof.
  revert n. induction k as [|k IH]; intros n.
  - simpl. split; [done|]. split; [constructor|]. by rewrite Z.mod_1_r.
  - destruct (IH (n / 10)) as (Hlen & Hdig & Hval).
    cbn [digitsOf]. split; [|split].
    + rewrite length_app, Hlen. simpl. lia.
    + apply Forall_app. split; [done|]. apply Forall_singleton.
      unfold isDigit. pose proof (Z.mod_pos_bound n 10). lia.
    + rewrite decimalValue_snoc, Hval.
      replace (10 ^ Z.of_nat (S k)) with (10 * 10 ^ Z.of_nat k)
        by (rewrite Nat2Z.inj_succ, Z.pow_succ_r by lia; done).
      rewrite Z.rem_mul_r by lia. lia.
Qed.

Lemma writeDigits_app (k : nat) :
  ∀ (pre mid post : list Z) (n : Z),
    length mid = k →
    bytes.writeDigits k (length pre + k - 1) (pre ++ mid ++ post) n
    = pre ++ digitsOf k n ++ post.
Proof.
  induction k as [|k IH]; intros pre mid post n Hlen.
  - destruct mid; [done|]. done.
  - destruct mid as [|x mid _] using rev_ind; [done|].
    rewrite length_app in Hlen. simpl in Hlen.
    cbn [bytes.writeDigits digitsOf].
    assert (bytes.u8_add 48 (bytes.wrap_u8 (n mod 10)) = 48 + n mod 10) as ->.
    { unfold bytes.u8_add, bytes.wrap_u8. pose proof (Z.mod_pos_bound n 10).
      rewrite (Z.mod_small (n mod 10) 256) by lia.
      by rewrite (Z.mod_small (48 + n mod 10) 256) by lia. }
    replace (length pre + S k - 1)%nat with (length pre + length mid)%nat by lia.
    assert (∀ d, <[(length pre + length mid)%nat := d]> (pre ++ (mid ++ [x]) ++ post)
                 = pre ++ mid ++ d :: post) as ->.
    { intros d. rewrite insert_app_r. f_equal. rewrite <- app_assoc.
      replace (length mid) with (length mid + 0)%nat at 1 by lia.
      by rewrite insert_app_r. }
    replace (length pre + length mid - 1)%nat with (length pre + k - 1)%nat by lia.
    rewrite (IH pre mid ((48 + n mod 10) :: post)) by lia.
    by rewrite <- !app_assoc.
Qed.

(* ===================================================================== *)
(** ** generator: request IDs *)
(* ===================================================================== *)

Lemma go_string_length (bs : list Z) :
  String.length (bytes.go_string bs) = length bs.
Proof.
  unfold bytes.go_string.
  assert (∀ l : list Byte.byte,
            String.length (String.string_of_list_byte l) = length l) as H.
  { induction l as [|b l IH]; [done|].
    change (String.string_of_list_byte (b :: l))
      with (String (Ascii.ascii_of_byte b) (String.string_of_list_byte l)).
    simpl. by rewrite IH. }
  by rewrite H, length_fmap.
Qed.

Lemma nextID_bytes_digits (n : Z) :
  generator.nextID_bytes n = bytes.bytes_of "req-" ++ digitsOf 8 n.
Proof.
  unfold generator.nextID_bytes.
  change (bytes.copy (take 4 (replicate 12 0)) (bytes.bytes_of "req-")
          ++ drop 4 (replicate 12 0))
    with (bytes.bytes_of "req-" ++ replicate 8 0 ++ []).
  change 11%nat with (length (bytes.bytes_of "req-") + 8 - 1)%nat.
  rewrite writeDigits_app by done. by rewrite app_nil_r.
Qed.

Lemma digitsOf_bytes (k : nat) (n : Z) : Forall (λ b, 0 ≤ b < 256) (digitsOf k n).
Proof.
  destruct (digitsOf_facts k n) as (_ & Hdig & _).
  eapply Forall_impl; [exact Hdig|]. unfold isDigit. intros b Hb. simpl. lia.
Qed.

Lemma digitsOf_mod (k : nat) (n1 n2 : Z) :
  n1 mod 10 ^ Z.of_nat k = n2 mod 10 ^ Z.of_nat k → digitsOf k n1 = digitsOf k n2.
Proof.
  revert n1 n2. induction k as [|k IH]; intros n1 n2 Hmod; [done|].
  replace (10 ^ Z.of_nat (S k)) with (10 * 10 ^ Z.of_nat k) in Hmod
    by (rewrite Nat2Z.inj_succ, Z.pow_succ_r by lia; done).
  assert (0 < 10 ^ Z.of_nat k) as Hpos by (apply Z.pow_pos_nonneg; lia).
  rewrite !Z.rem_mul_r in Hmod by lia.
  pose proof (Z.mod_pos_bound n1 10). pose proof (Z.mod_pos_bound n2 10).
  pose proof (Z.mod_pos_bound (n1 / 10) (10 ^ Z.of_nat k) Hpos).
  pose proof (Z.mod_pos_bound (n2 / 10) (10 ^ Z.of_nat k) Hpos).
  cbn [digitsOf]. rewrite (IH (n1 / 10) (n2 / 10)) by lia.
  do 3 f_equal. lia.
Qed.

Lemma nextID_bytes_eq_iff (n1 n2 : Z) :
  bytes.go_string (generator.nextID_bytes n1) = bytes.go_string (generator.nextID_bytes n2)
  ↔ n1 mod 10 ^ 8 = n2 mod 10 ^ 8.
Proof.
  rewrite !nextID_bytes_digits. split.
  - intros Heq. apply go_string_inj in Heq.
    + apply app_inv_head in Heq.
      destruct (digitsOf_facts 8 n1) as (_ & _ & H1).
      destruct (digitsOf_facts 8 n2) as (_ & _ & H2).
      rewrite Heq in H1. rewrite H1 in H2. exact H2.
    + apply Forall_app. split; [|apply digitsOf_bytes].
      repeat constructor; by vm_compute.
    + apply Forall_app. split; [|apply digitsOf_bytes].
      repeat constructor; by vm_compute.
  - intros Hmod. by rewrite (digitsOf_mod 8 n1 n2).
Qed.

Example nextID_first :
  (generator.nextID (generator.New [])).1 = "req-00000001".
Proof. by vm_compute. Qed.

Example nextID_hundred_million :
  bytes.go_string (generator.nextID_bytes 100000000) = "req-00000000".
Proof. by vm_compute. Qed.

(** X13. [nextID] increments the counter and returns a string of 12
    bytes: "req-" followed by 8 decimal digits that read as the new
    counter value modulo 10^8; the ID is zero-padded and keeps only the
    eight low digits of the counter. *)
Theorem nextID_format (g : generator.Generator) :
  let n := u64_add (generator.counter g) 1 in
  generator.counter (generator.nextID g).2 = n
  ∧ String.length (generator.nextID g).1 = 12%nat
  ∧ ∃ ds,
      (generator.nextID g).1 = bytes.go_string (bytes.bytes_of "req-" ++ ds)
      ∧ length ds = 8%nat
      ∧ Forall isDigit ds
      ∧ decimalValue ds = n mod 10 ^ 8.
Proof.
  intros n. subst n. unfold generator.nextID. cbn [fst snd generator.counter].
  destruct (digitsOf_facts 8 (u64_add (generator.counter g) 1)) as (Hlen & Hdig & Hval).
  split; [done|]. split.
  - rewrite go_string_length, nextID_bytes_digits, length_app, Hlen. done.
  - exists (digitsOf 8 (u64_add (generator.counter g) 1)).
    by rewrite nextID_bytes_digits.
Qed.

(** X14. Two calls of [nextID] return the same ID exactly when the
    counter values they reach agree modulo 10^8: IDs repeat every
    hundred million requests, and not before. *)
Theorem nextID_same_iff (g1 g2 : generator.Generator) :
  (generator.nextID g1).1 = (generator.nextID g2).1
  ↔ u64_add (generator.counter g1) 1 mod 10 ^ 8
    = u64_add (generator.counter g2) 1 mod 10 ^ 8.
Proof. unfold generator.nextID. cbn [fst]. apply nextID_bytes_eq_iff. Qed.

Lemma Generate_ID (scenarioGenerate : string → openrtb.BidRequest)
    (g : generator.Generator) :
  (∀ id, openrtb.BidRequest_ID (scenarioGenerate id) = id) →
  openrtb.BidRequest_ID (generator.Generate scenarioGenerate g).1
  = (generator.nextID g).1
  ∧ (generator.Generate scenarioGenerate g).2 = (generator.nextID g).2.
Proof.
  intros Hid. unfold generator.Generate.
  destruct (generator.nextID g) as [id g'] eqn:Hnext. simpl.
  repeat case_decide; simpl; by rewrite ?Hid.
Qed.

Lemma GenerateN_ids (scenarioGenerate : string → openrtb.BidRequest) (k : nat) :
  (∀ id, openrtb.BidRequest_ID (scenarioGenerate id) = id) →
  ∀ g, 0 ≤ generator.counter g →
       generator.counter g + Z.of_nat k < 2 ^ 64 →
       requestIDs (generator.GenerateN scenarioGenerate k g).1
       = (λ i, bytes.go_string
                 (generator.nextID_bytes (generator.counter g + 1 + Z.of_nat i)))
         <$> seq 0 k.
Proof.
  intros Hid. induction k as [|k IH]; intros g Hc Hk; [done|].
  cbn [generator.GenerateN].
  destruct (Generate_ID scenarioGenerate g Hid) as [Hreq Hg].
  destruct (generator.Generate scenarioGenerate g) as [req g1]. simpl in Hreq, Hg.
  assert (generator.counter g1 = generator.counter g + 1) as Hc1.
  { rewrite Hg. unfold generator.nextID, u64_add, wrap_u64. simpl.
    apply Z.mod_small. lia. }
  specialize (IH g1). rewrite Hc1 in IH.
  destruct (generator.GenerateN scenarioGenerate k g1) as [reqs g2]. simpl in IH.
  unfold requestIDs in *. cbn [fst].
  change (seq 0 (S k)) with (0%nat :: seq 1 k). rewrite !fmap_cons.
  rewrite Hreq, IH by lia. f_equal.
  - unfold u64_add, wrap_u64.
    rewrite Z.mod_small by lia. do 2 f_equal. lia.
  - rewrite <- fmap_S_seq, <- list_fmap_compose. apply list_fmap_ext.
    intros i x _. simpl. do 2 f_equal. lia.
Qed.

Lemma generator_applyOptions_counter (opts : list generator.Option)
    (g : generator.Generator) :
  generator.counter (fold_left generator.applyOption opts g) = generator.counter g.
Proof.
  revert g. induction opts as [|opt opts IH]; intros g; [done|].
  simpl. rewrite IH. by destruct opt.
Qed.

Example GenerateN_three :
  requestIDs (generator.GenerateN scenario_generator.scenarioGenerate 3
                (generator.New [])).1
  = ["req-00000001"; "req-00000002"; "req-00000003"].
Proof. by vm_compute. Qed.

(** X15. With a scenario that puts the ID it is given in the request,
    as the mobile-app scenario does, the requests of the first [k] calls
    of [Generate] on a new generator have pairwise distinct IDs as long
    as [k] is below 10^8. *)
Theorem Generate_unique_IDs (scenarioGenerate : string → openrtb.BidRequest)
    (opts : list generator.Option) (k : nat) :
  (∀ id, openrtb.BidRequest_ID (scenarioGenerate id) = id) →
  Z.of_nat k < 10 ^ 8 →
  NoDup (requestIDs (generator.GenerateN scenarioGenerate k (generator.New opts)).1).
Proof.
  intros Hid Hk.
  assert (generator.counter (generator.New opts) = 0) as Hzero
    by apply generator_applyOptions_counter.
  rewrite (GenerateN_ids scenarioGenerate k Hid) by (rewrite Hzero; lia).
  rewrite Hzero. apply NoDup_fmap_2_strong; [|apply NoDup_seq].
  intros i j Hi Hj Heq. apply elem_of_seq in Hi, Hj.
  apply nextID_bytes_eq_iff in Heq.
  rewrite !Z.mod_small in Heq by lia. lia.
Qed.

Lemma Generate_unique_IDs_witness :
  (∀ id, openrtb.BidRequest_ID (scenario_generator.scenarioGenerate id) = id)
  ∧ Z.of_nat 3 < 10 ^ 8
  ∧ NoDup (requestIDs (generator.GenerateN scenario_generator.scenarioGenerate 3
                         (generator.New [])).1).
Proof.
  assert (∀ id, openrtb.BidRequest_ID (scenario_generator.scenarioGenerate id) = id)
    as Hid by reflexivity.
  assert (Z.of_nat 3 < 10 ^ 8) as Hk by (vm_compute; reflexivity).
  split; [exact Hid|]. split; [exact Hk|].
  exact (Generate_unique_IDs scenario_generator.scenarioGenerate [] 3 Hid Hk).
Defined.

Example Generate_overrides_example :
  let req := (generator.Generate scenario_generator.scenarioGenerate
                (generator.New [generator.WithTimeout 0])).1 in
  openrtb.Tmax req = 250 ∧ openrtb.At req = 1.
Proof. by vm_compute. Qed.

(** X16. [Generate] hands the scenario the next ID and returns the
    scenario's request with only the timeout and the auction type
    overridden, each when the generator's value is positive: a zero or
    negative [WithTimeout] or [WithAuctionType] leaves the scenario's
    value. A generator made without options sets a timeout of 100 and
    the first-price auction type on every request. *)
Theorem Generate_overrides (scenarioGenerate : string → openrtb.BidRequest)
    (g : generator.Generator) :
  let req0 := scenarioGenerate (generator.nextID g).1 in
  let req := (generator.Generate scenarioGenerate g).1 in
  openrtb.BidRequest_ID req = openrtb.BidRequest_ID req0
  ∧ openrtb.BidRequest_Imp req = openrtb.BidRequest_Imp req0
  ∧ openrtb.BidRequest_Cur req = openrtb.BidRequest_Cur req0
  ∧ openrtb.Bcat req = openrtb.Bcat req0
  ∧ openrtb.Tmax req
    = (if decide (0 < generator.timeout g) then generator.timeout g
       else openrtb.Tmax req0)
  ∧ openrtb.At req
    = (if decide (0 < generator.auctionType g) then generator.auctionType g
       else openrtb.At req0)
  ∧ (generator.Generate scenarioGenerate g).2 = (generator.nextID g).2
  ∧ openrtb.Tmax (generator.Generate scenarioGenerate (generator.New [])).1 = 100
  ∧ openrtb.At (generator.Generate scenarioGenerate (generator.New [])).1 = 1.
Proof.
  simpl. unfold generator.Generate.
  destruct (generator.nextID g) as [id g'] eqn:Hnext. cbn [fst snd].
  split; [by repeat case_decide|]. split; [by repeat case_decide|].
  split; [by repeat case_decide|]. split; [by repeat case_decide|].
  split; [by repeat case_decide|]. split; [by repeat case_decide|].
  done.
Qed.

(* ===================================================================== *)
(** ** scenarios: addresses and identifiers *)
(* ===================================================================== *)

Lemma store_fill (w rest : list Z) (x b : Z) :
  bytes.store (w ++ x :: rest) (length w) b = Some ((w ++ [b]) ++ rest).
Proof.
  unfold bytes.store.
  rewrite decide_True by (rewrite length_app; simpl; lia). f_equal.
  replace (length w) with (length w + 0)%nat at 1 by lia.
  rewrite insert_app_r. simpl. by rewrite <- app_assoc.
Qed.

Lemma u8_add_digit (x : Z) : 0 ≤ x ≤ 9 → bytes.u8_add 48 x = 48 + x.
Proof. intros. unfold bytes.u8_add, bytes.wrap_u8. apply Z.mod_small. lia. Qed.

Lemma writeUint8_fill (w rest : list Z) (n : Z) :
  0 ≤ n ≤ 255 → (3 ≤ length rest)%nat →
  ∃ ds,
    scenarios.writeUint8 (w ++ rest) (length w) n
    = Some ((w ++ ds) ++ drop (length ds) rest, length ds)
    ∧ (1 ≤ length ds ≤ 3)%nat
    ∧ Forall isDigit ds
    ∧ decimalValue ds = n
    ∧ (length ds = 1%nat ∨ ds !! 0%nat ≠ Some 48).
Proof.
  intros Hn Hm. unfold scenarios.writeUint8.
  rewrite decide_False by (rewrite length_app; lia).
  destruct rest as [|x0 [|x1 [|x2 rest]]]; simpl in Hm; try lia.
  case_decide as H100; [|case_decide as H10].
  - exists [48 + n / 100; 48 + (n / 10) mod 10; 48 + n mod 10].
    rewrite !u8_add_digit by (Z.div_mod_to_equations; lia).
    rewrite store_fill. simpl.
    replace (length w + 1)%nat with (length (w ++ [48 + n / 100]))
      by (rewrite length_app; simpl; lia).
    rewrite store_fill. simpl.
    replace (length w + 2)%nat
      with (length ((w ++ [48 + n / 100]) ++ [48 + (n / 10) mod 10]))
      by (rewrite !length_app; simpl; lia).
    rewrite store_fill. simpl.
    split; [by rewrite <- !app_assoc|].
    split; [lia|]. split.
    { repeat constructor; unfold isDigit; Z.div_mod_to_equations; lia. }
    split.
    { unfold decimalValue. simpl. Z.div_mod_to_equations. lia. }
    right. simpl. intros [= Heq]. Z.div_mod_to_equations. lia.
  - exists [48 + n / 10; 48 + n mod 10].
    rewrite !u8_add_digit by (Z.div_mod_to_equations; lia).
    rewrite store_fill. simpl.
    replace (length w + 1)%nat with (length (w ++ [48 + n / 10]))
      by (rewrite length_app; simpl; lia).
    rewrite store_fill. simpl.
    split; [by rewrite <- !app_assoc|].
    split; [lia|]. split.
    { repeat constructor; unfold isDigit; Z.div_mod_to_equations; lia. }
    split.
    { unfold decimalValue. simpl. Z.div_mod_to_equations. lia. }
    right. simpl. intros [= Heq]. Z.div_mod_to_equations. lia.
  - exists [48 + n].
    rewrite u8_add_digit by lia. rewrite store_fill. simpl.
    split; [done|]. split; [lia|]. split.
    { repeat constructor; unfold isDigit; lia. }
    split; [unfold decimalValue; simpl; lia|]. by left.
Qed.

Example writeUint8_three_digits :
  scenarios.writeUint8 (replicate 15 0) 4 223
  = Some ([0; 0; 0; 0; 50; 50; 51; 0; 0; 0; 0; 0; 0; 0; 0], 3%nat).
Proof. reflexivity. Qed.

Example writeUint8_no_room :
  scenarios.writeUint8 (replicate 15 0) 13 223 = None.
Proof. reflexivity. Qed.

(** X17. [writeUint8] writes the decimal digits of a uint8 at the start
    of the slice it is given, without leading zero, and returns their
    number, between 1 and 3; the bytes before and after stay as they
    are. Three bytes of room are always enough, and on an empty slice it
    panics. *)
Theorem writeUint8_decimal (w rest : list Z) (n : Z) :
  0 ≤ n ≤ 255 →
  ((3 ≤ length rest)%nat →
   ∃ ds,
     scenarios.writeUint8 (w ++ rest) (length w) n
     = Some (w ++ ds ++ drop (length ds) rest, length ds)
     ∧ (1 ≤ length ds ≤ 3)%nat
     ∧ Forall isDigit ds
     ∧ decimalValue ds = n
     ∧ (length ds = 1%nat ∨ ds !! 0%nat ≠ Some 48))
  ∧ (rest = [] → scenarios.writeUint8 (w ++ rest) (length w) n = None).
Proof.
  intros Hn. split.
  - intros Hroom.
    destruct (writeUint8_fill w rest n Hn Hroom) as (ds & Hw & Hrest).
    exists ds. by rewrite Hw, <- app_assoc.
  - intros ->. rewrite app_nil_r. unfold scenarios.writeUint8, bytes.store.
    rewrite decide_False by lia.
    repeat case_decide; simpl; try done; lia.
Qed.

Lemma writeUint8_decimal_witness :
  0 ≤ 223 ≤ 255
  ∧ ∃ ds,
      scenarios.writeUint8 ([49; 46] ++ replicate 13 0) 2 223
      = Some ([49; 46] ++ ds ++ drop (length ds) (replicate 13 0), length ds)
      ∧ decimalValue ds = 223.
Proof.
  assert (0 ≤ 223 ≤ 255) as Hn by lia.
  split; [exact Hn|].
  destruct (proj1 (writeUint8_decimal [49; 46] (replicate 13 0) 223 Hn))
    as (ds & Hw & _ & _ & Hval & _).
  { simpl. lia. }
  exists ds. split; [exact Hw|exact Hval].
Defined.

Lemma octet_then_dot (w rest : list Z) (n : Z) :
  0 ≤ n ≤ 255 → (4 ≤ length rest)%nat →
  ∃ ds buf rest',
    scenarios.writeUint8 (w ++ rest) (length w) n = Some (buf, length ds)
    ∧ bytes.store buf (length w + length ds) 46 = Some ((w ++ ds ++ [46]) ++ rest')
    ∧ (length rest' + length ds + 1 = length rest)%nat
    ∧ (1 ≤ length ds ≤ 3)%nat
    ∧ Forall isDigit ds
    ∧ decimalValue ds = n
    ∧ (length ds = 1%nat ∨ ds !! 0%nat ≠ Some 48).
Proof.
  intros Hn Hroom.
  destruct (writeUint8_fill w rest n Hn) as (ds & Hw & Hlen & Hrest); [lia|].
  destruct (drop (length ds) rest) as [|x rest'] eqn:Hdrop.
  { apply (f_equal length) in Hdrop. rewrite length_drop in Hdrop. simpl in Hdrop. lia. }
  exists ds, ((w ++ ds) ++ x :: rest'), rest'. split; [done|]. split.
  - replace (length w + length ds)%nat with (length (w ++ ds))
      by (by rewrite length_app).
    rewrite store_fill. by rewrite <- !app_assoc.
  - split; [|done]. apply (f_equal length) in Hdrop.
    rewrite length_drop in Hdrop. simpl in Hdrop. lia.
Qed.

Example randomIP_highest : scenarios.randomIP 222 255 255 253 = Some "223.255.255.254".
Proof. by vm_compute. Qed.

(** X18. For numbers in the ranges [rand.IntN] draws them from,
    [randomIP] never writes outside its 15-byte buffer and returns four
    decimal numbers without leading zeros, separated by dots: the first
    is between 1 and 223, the second and third between 0 and 255 and
    the last between 1 and 254, so the string has between 7 and 15
    bytes. *)
Theorem randomIP_dotted_quad (r1 r2 r3 r4 : Z) :
  0 ≤ r1 < 223 → 0 ≤ r2 < 256 → 0 ≤ r3 < 256 → 0 ≤ r4 < 254 →
  ∃ a b c d,
    scenarios.randomIP r1 r2 r3 r4
    = Some (bytes.go_string (a ++ [46] ++ b ++ [46] ++ c ++ [46] ++ d))
    ∧ Forall (λ ds : list Z, Forall isDigit ds
                    ∧ (1 ≤ length ds ≤ 3)%nat
                    ∧ (length ds = 1%nat ∨ ds !! 0%nat ≠ Some 48)) [a; b; c; d]
    ∧ decimalValue a = r1 + 1
    ∧ decimalValue b = r2
    ∧ decimalValue c = r3
    ∧ decimalValue d = r4 + 1
    ∧ (7 ≤ length (a ++ [46%Z] ++ b ++ [46%Z] ++ c ++ [46%Z] ++ d) ≤ 15)%nat.
Proof.
  intros H1 H2 H3 H4. unfold scenarios.randomIP.
  unfold bytes.wrap_u8. rewrite !Z.mod_small by lia.
  destruct (octet_then_dot [] (replicate 15 0) (r1 + 1))
    as (a & buf1 & rest1 & Hw1 & Hs1 & Hl1 & Hla & Hda & Hva & Hza);
    [lia|simpl; lia|].
  cbn [app length Nat.add] in Hw1, Hs1. rewrite length_replicate in Hl1.
  rewrite Hw1. cbn [mbind option_bind Nat.add].
  rewrite Hs1. cbn [mbind option_bind].
  destruct (octet_then_dot (a ++ [46]) rest1 r2)
    as (b & buf2 & rest2 & Hw2 & Hs2 & Hl2 & Hlb & Hdb & Hvb & Hzb);
    [lia|lia|].
  rewrite length_app in Hw2, Hs2. cbn [length] in Hw2, Hs2.
  rewrite Hw2. cbn [mbind option_bind].
  rewrite Hs2. cbn [mbind option_bind].
  destruct (octet_then_dot ((a ++ [46]) ++ b ++ [46]) rest2 r3)
    as (c & buf3 & rest3 & Hw3 & Hs3 & Hl3 & Hlc & Hdc & Hvc & Hzc);
    [lia|lia|].
  rewrite !length_app in Hw3, Hs3. cbn [length] in Hw3, Hs3.
  replace (length a + 1 + length b + 1)%nat
    with (length a + 1 + (length b + 1))%nat by lia.
  rewrite Hw3. cbn [mbind option_bind].
  rewrite Hs3. cbn [mbind option_bind].
  destruct (writeUint8_fill (((a ++ [46]) ++ b ++ [46]) ++ c ++ [46]) rest3 (r4 + 1))
    as (d & Hw4 & Hld & Hdd & Hvd & Hzd); [lia|lia|].
  rewrite !length_app in Hw4. cbn [length] in Hw4.
  replace (length a + 1 + (length b + 1) + length c + 1)%nat
    with (length a + 1 + (length b + 1) + (length c + 1))%nat by lia.
  rewrite Hw4. cbn [mbind option_bind].
  rewrite decide_True by (rewrite !length_app; cbn [length]; lia).
  exists a, b, c, d. split.
  - do 2 f_equal.
    rewrite take_app_length' by (rewrite !length_app; cbn [length]; lia).
    by rewrite <- !app_assoc.
  - split.
    { repeat (apply Forall_cons_2; [done|]). apply Forall_nil_2. }
    repeat (split; [done|]). rewrite !length_app. cbn [length]. lia.
Qed.

Lemma randomIP_dotted_quad_witness :
  0 ≤ 191 < 223 ∧ 0 ≤ 167 < 256 ∧ 0 ≤ 0 < 256 ∧ 0 ≤ 0 < 254
  ∧ ∃ a b c d,
      scenarios.randomIP 191 167 0 0
      = Some (bytes.go_string (a ++ [46] ++ b ++ [46] ++ c ++ [46] ++ d))
      ∧ decimalValue a = 191 + 1.
Proof.
  assert (0 ≤ 191 < 223) as H1 by lia. assert (0 ≤ 167 < 256) as H2 by lia.
  assert (0 ≤ 0 < 256) as H3 by lia. assert (0 ≤ 0 < 254) as H4 by lia.
  split; [exact H1|]. split; [exact H2|]. split; [exact H3|]. split; [exact H4|].
  destruct (randomIP_dotted_quad 191 167 0 0 H1 H2 H3 H4)
    as (a & b & c & d & Hip & _ & Ha & _).
  exists a, b, c, d. split; [exact Hip|exact Ha].
Defined.

Lemma hexChars_lookup (r : Z) :
  0 ≤ r < 16 →
  ∃ c, bytes.bytes_of scenarios.hexChars !! Z.to_nat r = Some c
       ∧ hexValue c = Some r.
Proof.
  intros Hr.
  assert (r = 0 ∨ r = 1 ∨ r = 2 ∨ r = 3 ∨ r = 4 ∨ r = 5 ∨ r = 6 ∨ r = 7
          ∨ r = 8 ∨ r = 9 ∨ r = 10 ∨ r = 11 ∨ r = 12 ∨ r = 13 ∨ r = 14 ∨ r = 15)
    as Hcases by lia.
  repeat (destruct Hcases as [->|Hcases]; [eexists; split; reflexivity|]).
  subst r. eexists; split; reflexivity.
Qed.

Lemma randomUserID_loop_spec (rs : nat → Z) (iters : nat) :
  ∀ (i : nat) (buf : list Z),
    (i + iters ≤ length buf)%nat →
    (∀ j, (i ≤ j < i + iters)%nat → 0 ≤ rs j < 16) →
    ∃ out,
      scenarios.randomUserID_loop iters i rs buf = Some out
      ∧ length out = length buf
      ∧ (∀ j, (j < i)%nat → out !! j = buf !! j)
      ∧ (∀ j, (i ≤ j < i + iters)%nat →
              ∃ c, out !! j = Some c ∧ hexValue c = Some (rs j)).
Proof.
  induction iters as [|iters IH]; intros i buf Hlen Hrs.
  - exists buf. split; [done|]. split; [done|]. split; [done|]. intros; lia.
  - cbn [scenarios.randomUserID_loop].
    rewrite decide_True by (apply Hrs; lia).
    destruct (hexChars_lookup (rs i)) as (c & Hc & Hv); [apply Hrs; lia|].
    rewrite Hc. cbn [mbind option_bind]. unfold bytes.store.
    rewrite decide_True by lia. cbn [mbind option_bind].
    destruct (IH (S i) (<[i := c]> buf)) as (out & Hout & Hlo & Hbefore & Hin).
    + rewrite length_insert. lia.
    + intros j Hj. apply Hrs. lia.
    + exists out. split; [done|]. rewrite length_insert in Hlo.
      split; [done|]. split.
      * intros j Hj. rewrite Hbefore by lia. apply list_lookup_insert_ne. lia.
      * intros j Hj. destruct (decide (j = i)) as [->|Hne].
        -- exists c. split; [|done]. rewrite Hbefore by lia.
           apply list_lookup_insert_eq. lia.
        -- apply Hin. lia.
Qed.

Example randomUserID_example :
  scenarios.randomUserID (λ i, Z.of_nat i mod 16)
  = Some "0123456789abcdef0123456789abcdef".
Proof. by vm_compute. Qed.

(** X19. For numbers below 16, [randomUserID] returns 32 bytes, each a
    lower-case hexadecimal digit whose value is the number drawn at
    that position; a number outside that range would index out of the
    16 hexadecimal characters and panic. *)
Theorem randomUserID_hex (rs : nat → Z) :
  ((∀ i, (i < 32)%nat → 0 ≤ rs i < 16) →
   ∃ cs,
     scenarios.randomUserID rs = Some (bytes.go_string cs)
     ∧ length cs = 32%nat
     ∧ String.length (bytes.go_string cs) = 32%nat
     ∧ ∀ i, (i < 32)%nat → ∃ c, cs !! i = Some c ∧ hexValue c = Some (rs i))
  ∧ (rs 0%nat < 0 ∨ 16 ≤ rs 0%nat → scenarios.randomUserID rs = None).
Proof.
  split.
  - intros Hrs. unfold scenarios.randomUserID.
    destruct (randomUserID_loop_spec rs 32 0 (replicate 32 0))
      as (out & Hout & Hlen & _ & Hin).
    + rewrite length_replicate. lia.
    + intros j Hj. apply Hrs. lia.
    + rewrite Hout. exists out. rewrite length_replicate in Hlen.
      split; [done|]. split; [done|]. split; [by rewrite go_string_length|].
      intros i Hi. apply Hin. lia.
  - intros Hout. unfold scenarios.randomUserID.
    cbn [scenarios.randomUserID_loop]. case_decide as Hneg; [|done].
    destruct Hout as [?|Hbig]; [lia|].
    assert (bytes.bytes_of scenarios.hexChars !! Z.to_nat (rs 0%nat) = None) as ->;
      [|done].
    apply lookup_ge_None. change (length (bytes.bytes_of scenarios.hexChars)) with 16%nat.
    lia.
Qed.

Lemma randomAppID_bytes_digits (n : Z) :
  scenarios.randomAppID_bytes n = bytes.bytes_of "app-" ++ digitsOf 6 n.
Proof.
  unfold scenarios.randomAppID_bytes.
  change (bytes.copy (take 4 (replicate 10 0)) (bytes.bytes_of "app-")
          ++ drop 4 (replicate 10 0))
    with (bytes.bytes_of "app-" ++ replicate 6 0 ++ []).
  change 9%nat with (length (bytes.bytes_of "app-") + 6 - 1)%nat.
  rewrite writeDigits_app by done. by rewrite app_nil_r.
Qed.

Example randomAppID_example : scenarios.randomAppID 4711 = "app-004711".
Proof. by vm_compute. Qed.

(** X20. [randomAppID] returns 10 bytes: "app-" followed by 6 decimal
    digits, zero-padded, that read as the number drawn; it is below
    10^6, so the identifier determines it. *)
Theorem randomAppID_format (n : Z) :
  ∃ ds,
    scenarios.randomAppID n = bytes.go_string (bytes.bytes_of "app-" ++ ds)
    ∧ String.length (scenarios.randomAppID n) = 10%nat
    ∧ length ds = 6%nat
    ∧ Forall isDigit ds
    ∧ decimalValue ds = n mod 10 ^ 6
    ∧ (0 ≤ n < 10 ^ 6 → decimalValue ds = n).
Proof.
  destruct (digitsOf_facts 6 n) as (Hlen & Hdig & Hval).
  exists (digitsOf 6 n). unfold scenarios.randomAppID.
  rewrite randomAppID_bytes_digits. split; [done|]. split.
  - rewrite go_string_length, length_app, Hlen. done.
  - split; [done|]. split; [done|]. split; [done|].
    intros Hn. rewrite Hval. apply Z.mod_small. exact Hn.
Qed.

(* ===================================================================== *)
(** ** dispatcher: what [Dispatch] returns, entry by entry *)
(* ===================================================================== *)

(** X21. When the message of every DSP is received before the context
    is seen done, [Dispatch] returns the outcome of [callDSP] for each
    DSP at the position of the DSP, whatever the order in which the
    goroutines finish. *)
Theorem Dispatch_all_received dsps envs (schedule : list dispatcher.selected) :
  arrivals schedule ≡ₚ seq 0 (length dsps) →
  dispatcher.Dispatch dsps envs schedule
  = Some (imap (λ i dsp, dispatcher.callDSP (envs i) dsp) dsps).
Proof.
  intros Hperm.
  assert (NoDup (arrivals schedule)) as Hnd.
  { rewrite Hperm. apply NoDup_seq. }
  assert (Forall (λ i, (i < length dsps)%nat) (arrivals schedule)) as Hlt.
  { rewrite Hperm. apply Forall_forall. intros i Hi.
    apply elem_of_seq in Hi. lia. }
  rewrite Dispatch_closed by done.
  assert (length (arrivals schedule) = length dsps) as Hlen.
  { rewrite Hperm. apply length_seq. }
  rewrite decide_False by lia. f_equal.
  apply list_eq. intros i. rewrite slots_lookup, list_lookup_imap.
  destruct (dsps !! i) as [dsp|] eqn:Hi; [simpl|done].
  rewrite decide_True; [done|].
  rewrite Hperm. apply elem_of_seq. apply lookup_lt_Some in Hi. lia.
Qed.

Lemma Dispatch_all_received_witness :
  arrivals [dispatcher.received 1; dispatcher.received 0]
    ≡ₚ seq 0 (length scenario_dispatch.dsps)
  ∧ dispatcher.Dispatch scenario_dispatch.dsps scenario_dispatch.envs
      [dispatcher.received 1; dispatcher.received 0]
    = Some (imap (λ i dsp, dispatcher.callDSP (scenario_dispatch.envs i) dsp)
                 scenario_dispatch.dsps).
Proof.
  assert (arrivals [dispatcher.received 1; dispatcher.received 0]
            ≡ₚ seq 0 (length scenario_dispatch.dsps)) as Hperm
    by apply perm_swap.
  split; [exact Hperm|].
  exact (Dispatch_all_received scenario_dispatch.dsps scenario_dispatch.envs
           [dispatcher.received 1; dispatcher.received 0] Hperm).
Defined.

(** X22. When the context is seen done while messages are missing,
    [Dispatch] returns one entry per DSP: the outcome collected for a
    DSP whose message was received and whose name is not empty, and for
    every other DSP an entry with its name, the context's error, no
    response and no latency. *)
Theorem Dispatch_cancelled_entries dsps envs (schedule : list dispatcher.selected)
    (ctxErr : errors.error) :
  NoDup (arrivals schedule) →
  Forall (λ i, (i < length dsps)%nat) (arrivals schedule) →
  (length (arrivals schedule) < length dsps)%nat →
  cancelCause schedule = Some ctxErr →
  ∃ rs,
    dispatcher.Dispatch dsps envs schedule = Some rs
    ∧ length rs = length dsps
    ∧ ∀ i dsp, dsps !! i = Some dsp →
        rs !! i
        = Some (if decide (i ∈ arrivals schedule ∧ config.Name dsp ≠ "")
                then dispatcher.callDSP (envs i) dsp
                else cancelledResult dsp ctxErr).
Proof.
  intros Hnd Hlt Hless Hcause. rewrite Dispatch_closed by done.
  rewrite decide_True by done. rewrite Hcause. simpl.
  eexists. split; [done|]. split.
  { unfold dispatcher.fillRemaining. by rewrite length_imap, slots_length. }
  intros i dsp Hdsp.
  rewrite fillRemaining_lookup, slots_lookup, Hdsp. simpl. f_equal.
  destruct (decide (i ∈ arrivals schedule)) as [Hin|Hnin].
  - rewrite callDSP_name.
    destruct (decide (config.Name dsp = "")) as [Hname|Hname].
    + rewrite decide_False; [done|]. intros [_ ?]. done.
    + by rewrite decide_True.
  - rewrite decide_True by done. rewrite decide_False; [done|].
    intros [? _]. done.
Qed.

Lemma Dispatch_cancelled_entries_witness :
  NoDup (arrivals scenario_dispatch.schedule)
  ∧ ∃ rs,
      dispatcher.Dispatch scenario_dispatch.dsps scenario_dispatch.envs
        scenario_dispatch.schedule = Some rs
      ∧ length rs = length scenario_dispatch.dsps.
Proof.
  assert (NoDup (arrivals scenario_dispatch.schedule)) as Hnd.
  { apply NoDup_singleton. }
  assert (Forall (λ i, (i < length scenario_dispatch.dsps)%nat)
                 (arrivals scenario_dispatch.schedule)) as Hlt.
  { apply Forall_singleton. simpl. lia. }
  assert (length (arrivals scenario_dispatch.schedule)
          < length scenario_dispatch.dsps)%nat as Hless by (simpl; lia).
  assert (cancelCause scenario_dispatch.schedule = Some context.Canceled)
    as Hcause by reflexivity.
  split; [exact Hnd|].
  destruct (Dispatch_cancelled_entries scenario_dispatch.dsps
              scenario_dispatch.envs scenario_dispatch.schedule
              context.Canceled Hnd Hlt Hless Hcause) as (rs & Hrs & Hlen & _).
  exists rs. split; [exact Hrs|exact Hlen].
Defined.

(* ===================================================================== *)
(** ** auction and stats: a tick from end to end *)
(* ===================================================================== *)

(** [Run] in two cases: no eligible bid, or the first of the highest
    eligible bids as the winner. *)
Lemma Run_cases (requestID : string) (bidFloor : float64)
    (results : list dispatcher.Result) :
  let all := eligibleBids_spec bidFloor results in
  (all = []
   ∧ auction.Run requestID bidFloor results
     = {| auction.RequestID := requestID; auction.Winner := None;
          auction.WinningDSP := ""; auction.ClearingPrice := f64_zero;
          auction.AllBids := [] |})
  ∨ (∃ eh,
       eh ∈ all
       ∧ (∀ e, e ∈ all → f64_ge (priceOf eh) (priceOf e) = true)
       ∧ auction.Run requestID bidFloor results
         = {| auction.RequestID := requestID;
              auction.Winner := Some (auction.Bid eh);
              auction.WinningDSP := auction.DSPName eh;
              auction.ClearingPrice := priceOf eh;
              auction.AllBids := all |}).
Proof.
  intros all. unfold auction.Run.
  rewrite (collectResults_app bidFloor results []). simpl. fold all.
  case_decide as Hlen.
  - left. apply length_zero_iff_nil in Hlen. by rewrite Hlen.
  - right.
    assert (Forall (λ e, priceOf e ≠ S754_nan) all) as Hnan.
    { apply Forall_forall. intros e He.
      apply eligibleBids_spec_origin in He as [Hfloor _].
      by eapply f64_ge_not_nan. }
    destruct (highestLoop_first_max all Hnan all [] 0%nat) as (eh & Heh & Hmax & _).
    + done.
    + destruct all; simpl in *; [done|lia].
    + simpl. intros; lia.
    + intros; lia.
    + simpl in Heh. rewrite Heh. exists eh.
      split; [by eapply list_elem_of_lookup_2|]. split; [exact Hmax|done].
Qed.

Lemma f64_ge_nan_r (a : float64) : f64_ge a S754_nan = false.
Proof. by destruct a. Qed.

(** X23. [Run] names a winner exactly when some bid is eligible: there
    is no winner if and only if no result without error holds a bid at
    or above the floor. With a NaN floor no bid is eligible, so there is
    never a winner. *)
Theorem Run_winner_iff_eligible (requestID : string) (bidFloor : float64)
    (results : list dispatcher.Result) :
  (auction.Winner (auction.Run requestID bidFloor results) = None
   ↔ eligibleBids_spec bidFloor results = [])
  ∧ (bidFloor = S754_nan →
     auction.Winner (auction.Run requestID bidFloor results) = None).
Proof.
  assert (auction.Winner (auction.Run requestID bidFloor results) = None
          ↔ eligibleBids_spec bidFloor results = []) as Hiff.
  { destruct (Run_cases requestID bidFloor results)
      as [[Hnil ->]|(eh & Hin & _ & ->)]; simpl.
    - done.
    - split; [done|]. intros Hnil. rewrite Hnil in Hin.
      by apply elem_of_nil in Hin. }
  split; [exact Hiff|].
  intros ->. apply Hiff.
  destruct (eligibleBids_spec S754_nan results) as [|e l] eqn:Hall; [done|].
  assert (e ∈ eligibleBids_spec S754_nan results) as Hin
    by (rewrite Hall; by left).
  apply eligibleBids_spec_origin in Hin as [Hfloor _].
  by rewrite f64_ge_nan_r in Hfloor.
Qed.

(** X24. A tick of the engine with the first-price auction counts one
    request and as many bids as the results hold eligible ones at the
    tick's floor. Without an eligible bid it counts a no-bid and leaves
    wins and revenue alone; with one it counts a win and adds to the
    revenue the price of an eligible bid that no eligible bid exceeds. *)
Theorem tick_first_price_totals (Generate : openrtb.BidRequest)
    (Dispatch : openrtb.BidRequest → list dispatcher.Result)
    (e : engine.Engine) (c : stats.Collector) :
  let c' := engine.tick Generate Dispatch auction.Run e c in
  let all := eligibleBids_spec (engine.tickBidFloor e Generate) (Dispatch Generate) in
  stats.totalRequests c' = u64_add (stats.totalRequests c) 1
  ∧ stats.totalBids c' = u64_add (stats.totalBids c) (Z.of_nat (length all))
  ∧ (all = [] →
     stats.totalNoBids c' = u64_add (stats.totalNoBids c) 1
     ∧ stats.totalWins c' = stats.totalWins c
     ∧ stats.totalRevenue c' = stats.totalRevenue c)
  ∧ (all ≠ [] →
     stats.totalWins c' = u64_add (stats.totalWins c) 1
     ∧ stats.totalNoBids c' = stats.totalNoBids c
     ∧ ∃ w, w ∈ all
            ∧ (∀ b, b ∈ all → f64_ge (priceOf w) (priceOf b) = true)
            ∧ stats.totalRevenue c' = f64_add (stats.totalRevenue c) (priceOf w)).
Proof.
  intros c' all. subst c'. unfold engine.tick.
  set (floor := engine.tickBidFloor e Generate) in *.
  set (results := Dispatch Generate) in *.
  set (o := auction.Run (openrtb.BidRequest_ID Generate) floor results).
  destruct (RecordAuction_totals c o results) as (H1 & H2 & H3 & H4 & H5).
  rewrite H1, H2, H3, H4, H5.
  assert (auction.AllBids o = all) as Hall by apply Run_AllBids.
  rewrite Hall. split; [done|]. split; [done|].
  destruct (Run_cases (openrtb.BidRequest_ID Generate) floor results)
    as [[Hnil Ho]|(eh & Hin & Hmax & Ho)]; fold o in Ho; fold all in Hnil || fold all in Hin, Hmax.
  - split; [|done]. intros _. by rewrite Ho.
  - split.
    + intros Hnil. fold all in Hin. rewrite Hnil in Hin. by apply elem_of_nil in Hin.
    + intros _. rewrite Ho. unfold hasWinner. simpl.
      split; [done|]. split; [done|]. exists eh. done.
Qed.

(** X25. Go ranges over the map of bids per DSP in an order of its own
    choosing; [RecordAuction] gives the same collector whichever order
    is taken. *)
Theorem RecordAuction_order_irrelevant (order1 order2 : list (string * Z))
    (c : stats.Collector) (outcome : auction.Outcome)
    (results : list dispatcher.Result) :
  order1 ≡ₚ map_to_list (stats.countBids (auction.AllBids outcome)) →
  order2 ≡ₚ map_to_list (stats.countBids (auction.AllBids outcome)) →
  stats.RecordAuction_in order1 c outcome results
  = stats.RecordAuction_in order2 c outcome results.
Proof.
  intros H1 H2. unfold stats.RecordAuction_in. f_equal.
  apply recordBidsLoop_Permutation.
  - by rewrite H1, H2.
  - rewrite H1. apply NoDup_fst_map_to_list.
Qed.

Lemma RecordAuction_order_irrelevant_witness :
  stats.RecordAuction_in
    (reverse (map_to_list (stats.countBids
       (auction.AllBids (auction.Run "req-1" scenario.p0_5 scenario.tie)))))
    stats.New (auction.Run "req-1" scenario.p0_5 scenario.tie) scenario.tie
  = stats.RecordAuction_in
      (map_to_list (stats.countBids
         (auction.AllBids (auction.Run "req-1" scenario.p0_5 scenario.tie))))
      stats.New (auction.Run "req-1" scenario.p0_5 scenario.tie) scenario.tie.
Proof.
  apply RecordAuction_order_irrelevant.
  - apply reverse_Permutation.
  - reflexivity.
Defined.

(* ===================================================================== *)
(** ** engine: the ticker of the loop and [Shutdown] *)
(* ===================================================================== *)

Lemma wrap_i64_small (z : Z) : - 2 ^ 63 ≤ z < 2 ^ 63 → wrap_i64 z = z.
Proof. intros Hz. unfold wrap_i64. rewrite Z.mod_small; lia. Qed.

Example loopInterval_default :
  engine.loopInterval (engine.New []) = Some (10 * httpclient.Millisecond).
Proof. by vm_compute. Qed.

Example loopInterval_zero_rps :
  engine.loopInterval (engine.New [engine.WithRPS 0]) = None.
Proof. by vm_compute. Qed.

(** X26. The loop gets a ticker exactly when the requests per second
    are between 1 and 10^9: with zero, [loop] divides by zero, and with
    a negative rate or one above 10^9 the interval is not positive and
    [NewTicker] panics. The interval is the whole number of nanoseconds
    with [interval * rps ≤ 1s < (interval + 1) * rps]. *)
Theorem loopInterval_positive_iff (e : engine.Engine) :
  - 2 ^ 63 ≤ engine.rps e < 2 ^ 63 →
  (engine.loopInterval e = None
   ↔ engine.rps e ≤ 0 ∨ engine.Second < engine.rps e)
  ∧ (∀ d, engine.loopInterval e = Some d →
          1 ≤ d ≤ engine.Second
          ∧ d * engine.rps e ≤ engine.Second < (d + 1) * engine.rps e).
Proof.
  intros Hrange. unfold engine.loopInterval.
  rewrite wrap_i64_small by done. unfold engine.Second.
  set (r := engine.rps e) in *.
  destruct (decide (r = 0)) as [Hz|Hnz].
  - split; [|done]. split; [lia|done].
  - destruct (decide (0 < r)) as [Hpos|Hneg].
    + rewrite Z.quot_div_nonneg by lia.
      pose proof (Z.div_mod 1000000000 r Hnz) as Hdm.
      pose proof (Z.mod_pos_bound 1000000000 r Hpos) as Hmb.
      destruct (decide (1000000000 `div` r ≤ 0)) as [Hle|Hgt].
      * split; [|done]. split; [|done]. intros _. right. nia.
      * split.
        -- split; [done|]. intros [?|?]; [lia|]. 
           rewrite Z.div_small in Hgt by lia. lia.
        -- intros d [= <-]. nia.
    + assert (Z.quot 1000000000 r ≤ 0) as Hq.
      { rewrite <- (Z.opp_involutive r). rewrite Z.quot_opp_r by lia.
        assert (0 ≤ Z.quot 1000000000 (- r)); [|lia].
        apply Z.quot_pos; lia. }
      rewrite decide_True by done. split; [|done]. split; [lia|done].
Qed.

Lemma loopInterval_positive_iff_witness :
  - 2 ^ 63 ≤ engine.rps (engine.New [engine.WithRPS 3]) < 2 ^ 63
  ∧ ∀ d, engine.loopInterval (engine.New [engine.WithRPS 3]) = Some d →
         1 ≤ d ≤ engine.Second.
Proof.
  assert (- 2 ^ 63 ≤ engine.rps (engine.New [engine.WithRPS 3]) < 2 ^ 63)
    as Hrange by (simpl; lia).
  split; [exact Hrange|].
  intros d Hd.
  destruct (loopInterval_positive_iff (engine.New [engine.WithRPS 3]) Hrange)
    as [_ Hsome].
  destruct (Hsome d Hd) as [Hbounds _]. exact Hbounds.
Defined.

Lemma loopsLeft_Stop_cancel_twice (e : engine.Engine) :
  engine.loopsLeft (engine.Stop_cancel (engine.Stop_cancel e))
  = engine.loopsLeft (engine.Stop_cancel e).
Proof.
  destruct e as [rps floor run [ctx|] loops cd next]; [|done].
  unfold engine.loopsLeft. simpl. apply list_filter_iff.
  intros x. rewrite !not_elem_of_cons. tauto.
Qed.

(** X27. A [Shutdown] whose context expires before the loops are seen
    to return gives the context's error and leaves the engine running
    with its cancel function called: [Start] then fails with the
    already-running error, and a [Stop] that follows leaves the engine
    idle whenever a [Stop] in place of the [Shutdown] would have
    returned. A [Shutdown] that sees the loops return first does what
    [Stop] does and returns nil. *)
Theorem Shutdown_expired_keeps_running (e : engine.Engine) (ctxErr : errors.error) :
  engine.IsRunning e = true →
  ∃ e1,
    engine.Shutdown (engine.ctxExpired ctxErr) e = Some (Some ctxErr, e1)
    ∧ engine.IsRunning e1 = true
    ∧ engine.Start e1 = (Some engine.ErrAlreadyRunning, e1)
    ∧ (∀ ctx, engine.cancel e = Some ctx → ctx ∈ engine.cancelled e1)
    ∧ (is_Some (engine.Stop e) → ∃ e2, engine.Stop e1 = Some e2 ∧ idle e2)
    ∧ engine.Shutdown engine.doneClosed e = (λ e', (None, e')) <$> engine.Stop e.
Proof.
  intros Hrun. exists (engine.Stop_cancel e).
  assert (engine.IsRunning (engine.Stop_cancel e) = true) as Hrun'.
  { unfold engine.Stop_cancel. by destruct (engine.cancel e). }
  split; [done|]. split; [done|]. split.
  { unfold engine.Start, engine.IsRunning in *. by rewrite Hrun'. }
  split.
  { intros ctx Hctx. unfold engine.Stop_cancel. rewrite Hctx. simpl. by left. }
  split.
  - intros [e2 Hstop]. unfold engine.Stop, engine.wgWait in *.
    rewrite loopsLeft_Stop_cancel_twice.
    destruct (decide (engine.loopsLeft (engine.Stop_cancel e) = []))
      as [Hnil|]; [|done].
    eexists. split; [done|]. done.
  - unfold engine.Shutdown, engine.Stop.
    by destruct (engine.wgWait (engine.Stop_cancel e)).
Qed.

Lemma Shutdown_expired_keeps_running_witness :
  engine.IsRunning (engine.Start (engine.New [])).2 = true
  ∧ ∃ e1,
      engine.Shutdown (engine.ctxExpired context.DeadlineExceeded)
        (engine.Start (engine.New [])).2
      = Some (Some context.DeadlineExceeded, e1)
      ∧ engine.IsRunning e1 = true.
Proof.
  assert (engine.IsRunning (engine.Start (engine.New [])).2 = true) as Hrun
    by reflexivity.
  split; [exact Hrun|].
  destruct (Shutdown_expired_keeps_running (engine.Start (engine.New [])).2
              context.DeadlineExceeded Hrun) as (e1 & Hshut & Hrun1 & _).
  exists e1. split; [exact Hshut|exact Hrun1].
Defined.

(* ===================================================================== *)
(** ** api: the handlers over the engine *)
(* ===================================================================== *)

Ltac handler_cases :=
  unfold api.StatusOK, api.StatusConflict, api.StatusMethodNotAllowed,
    api.StatusInternalServerError;
  repeat split; intros; try done; try tauto; try lia;
  try (exfalso; intuition congruence).

(** X28. With one request handled at a time, and a rate that gives the
    loop a ticker whenever the engine is to be started, [handleStart]
    never answers 500: it answers 405 to a method other than POST, 409
    when the engine is running, and 200 otherwise. The engine is running
    after a 200 and left as it was after anything else. *)
Theorem handleStart_statuses (method : string) (e : engine.Engine) :
  (method = api.MethodPost → engine.IsRunning e = false →
   is_Some (engine.loopInterval e)) →
  let r := (api.handleStart method e).1 in
  let e' := (api.handleStart method e).2 in
  api.statusCode r ≠ api.StatusInternalServerError
  ∧ (api.statusCode r = api.StatusMethodNotAllowed ↔ method ≠ api.MethodPost)
  ∧ (api.statusCode r = api.StatusConflict
     ↔ method = api.MethodPost ∧ engine.IsRunning e = true)
  ∧ (api.statusCode r = api.StatusOK
     ↔ method = api.MethodPost ∧ engine.IsRunning e = false)
  ∧ (api.statusCode r = api.StatusOK →
     r = api.writeJSON api.StatusOK (api.StatusResponse true "simulation started")
     ∧ engine.IsRunning e' = true)
  ∧ (api.statusCode r ≠ api.StatusOK → e' = e).
Proof.
  intros _. simpl. unfold api.handleStart.
  destruct (decide (method ≠ api.MethodPost)) as [Hm|Hm].
  - simpl. handler_cases.
  - apply dec_stable in Hm.
    destruct (engine.IsRunning e) eqn:Hrun.
    + simpl. handler_cases.
    + unfold engine.Start. unfold engine.IsRunning in Hrun. rewrite Hrun. simpl.
      handler_cases.
Qed.

Lemma handleStart_statuses_witness :
  (api.MethodPost = api.MethodPost → engine.IsRunning (engine.New []) = false →
   is_Some (engine.loopInterval (engine.New [])))
  ∧ api.statusCode (api.handleStart api.MethodPost (engine.New [])).1 = api.StatusOK
  ∧ engine.IsRunning (api.handleStart api.MethodPost (engine.New [])).2 = true.
Proof.
  assert (api.MethodPost = api.MethodPost → engine.IsRunning (engine.New []) = false →
          is_Some (engine.loopInterval (engine.New []))) as Hticker
    by (intros _ _; eexists; reflexivity).
  split; [exact Hticker|].
  destruct (handleStart_statuses api.MethodPost (engine.New []) Hticker)
    as (_ & _ & _ & Hok & Hrunning & _).
  assert (api.statusCode (api.handleStart api.MethodPost (engine.New [])).1
          = api.StatusOK) as H200.
  { apply Hok. split; reflexivity. }
  split; [exact H200|]. exact (proj2 (Hrunning H200)).
Defined.

Example api_start_conflict :
  (api.handleStart "POST" (api.handleStart "POST" (engine.New [])).2).1
  = api.writeJSON 409 (api.ErrorResponse "engine is already running").
Proof. by vm_compute. Qed.

(** X29. After a POST to /start on an idle engine whose rate gives the
    loop a ticker, /status reports the engine as running; a POST to
    /stop then answers 200 and leaves the engine idle, and /status
    reports it as stopped. A POST to /stop on an idle engine, one that
    was never started, also answers 200 and changes nothing. *)
Theorem start_status_stop_status (e : engine.Engine) :
  idle e →
  (is_Some (engine.loopInterval e) →
   let e1 := (api.handleStart api.MethodPost e).2 in
   api.handleStatus api.MethodGet e1
   = api.writeJSON api.StatusOK (api.StatusResponse true "")
   ∧ ∃ e2,
       api.handleStop api.MethodPost e1
       = Some (api.writeJSON api.StatusOK
                 (api.StatusResponse false "simulation stopped"), e2)
       ∧ idle e2
       ∧ api.handleStatus api.MethodGet e2
         = api.writeJSON api.StatusOK (api.StatusResponse false ""))
  ∧ api.handleStop api.MethodPost e
    = Some (api.writeJSON api.StatusOK
              (api.StatusResponse false "simulation stopped"), e).
Proof.
  intros Hidle.
  assert (engine.IsRunning e = false) as Hrun by (by destruct Hidle).
  split.
  - intros Hticker. simpl.
    assert ((api.handleStart api.MethodPost e).2 = (engine.Start e).2) as ->.
    { unfold api.handleStart. rewrite decide_False by (intros H; by apply H).
      rewrite Hrun. unfold engine.Start. unfold engine.IsRunning in Hrun.
      by rewrite Hrun. }
    split.
    { unfold api.handleStatus. rewrite decide_False by (intros H; by apply H).
      unfold engine.Start. unfold engine.IsRunning in Hrun. by rewrite Hrun. }
    destruct (Stop_after_Start e Hidle Hticker) as (e2 & Hstop & Hidle2).
    exists e2. unfold api.handleStop.
    rewrite decide_False by (intros H; by apply H). rewrite Hstop.
    split; [done|]. split; [done|].
    unfold api.handleStatus. rewrite decide_False by (intros H; by apply H).
    unfold engine.IsRunning. by destruct Hidle2 as (-> & _).
  - unfold api.handleStop. rewrite decide_False by (intros H; by apply H).
    by rewrite Stop_idle.
Qed.

Lemma start_status_stop_status_witness :
  idle (engine.New [])
  ∧ is_Some (engine.loopInterval (engine.New []))
  ∧ api.handleStatus api.MethodGet
      (api.handleStart api.MethodPost (engine.New [])).2
    = api.writeJSON api.StatusOK (api.StatusResponse true "").
Proof.
  assert (idle (engine.New [])) as Hidle by (by repeat split).
  assert (is_Some (engine.loopInterval (engine.New []))) as Hticker
    by (eexists; reflexivity).
  split; [exact Hidle|]. split; [exact Hticker|].
  destruct (start_status_stop_status (engine.New []) Hidle) as [Hstart _].
  destruct (Hstart Hticker) as [Hstatus _].
  exact Hstatus.
Defined.

(* ===================================================================== *)
(** ** stats: the wins of a DSP *)
(* ===================================================================== *)

Lemma recordWin_wins (c : stats.Collector) (o : auction.Outcome) (d : string) :
  stats.wins (dspOf (stats.recordWin c o) d)
  = if decide (hasWinner o = true ∧ auction.WinningDSP o = d ∧ d ≠ "")
    then u64_add (stats.wins (dspOf c d)) 1
    else stats.wins (dspOf c d).
Proof.
  unfold stats.recordWin, hasWinner.
  destruct (auction.Winner o).
  2: { rewrite decide_False; [done|]. by intros [? _]. }
  destruct (decide (auction.WinningDSP o = "")) as [Hempty|Hname].
  { rewrite decide_False; [done|]. intros (_ & <- & Hne). done. }
  unfold dspOf at 1.
  destruct (getOrCreateDSP_insert (stats.dspStats c) (auction.WinningDSP o)
              stats.dspStatsInternal_zero) as [_ Hdsp].
  destruct (stats.getOrCreateDSP (stats.dspStats c) (auction.WinningDSP o))
    as [m dsp] eqn:Hget.
  simpl in Hdsp. subst dsp. simpl.
  match goal with |- context [stats.storeDSP m _ ?dsp'] =>
    destruct (getOrCreateDSP_insert (stats.dspStats c) (auction.WinningDSP o) dsp')
      as [Hst _];
    rewrite Hget in Hst; simpl in Hst; rewrite Hst
  end.
  destruct (decide (auction.WinningDSP o = d)) as [Hd|Hd].
  - subst d. rewrite lookup_insert_eq. simpl. by rewrite decide_True.
  - rewrite lookup_insert_ne by done. rewrite decide_False; [done|].
    intros (_ & ? & _). done.
Qed.

Example win_of_unnamed_DSP :
  let results := [scenario.answered "" (scenario.response "req-1"
                    [[scenario.bid "bid-1" scenario.p2]]) 10] in
  let o := auction.Run "req-1" scenario.p0_5 results in
  let c := stats.RecordAuction stats.New o results in
  hasWinner o = true ∧ stats.totalWins c = 1 ∧ stats.wins (dspOf c "") = 0.
Proof. by vm_compute. Qed.

(** X30. [RecordAuction] increments the wins of the winning DSP and of
    no other. A winner whose DSP has an empty name is counted in the
    global wins and in the wins of no DSP. *)
Theorem RecordAuction_wins (c : stats.Collector) (outcome : auction.Outcome)
    (results : list dispatcher.Result) :
  let c' := stats.RecordAuction c outcome results in
  (∀ d, stats.wins (dspOf c' d)
        = if decide (hasWinner outcome = true
                     ∧ auction.WinningDSP outcome = d ∧ d ≠ "")
          then u64_add (stats.wins (dspOf c d)) 1
          else stats.wins (dspOf c d))
  ∧ (hasWinner outcome = true → auction.WinningDSP outcome = "" →
     stats.totalWins c' = u64_add (stats.totalWins c) 1
     ∧ ∀ d, stats.wins (dspOf c' d) = stats.wins (dspOf c d)).
Proof.
  simpl.
  assert (∀ d, stats.wins (dspOf (stats.RecordAuction c outcome results) d)
               = if decide (hasWinner outcome = true
                            ∧ auction.WinningDSP outcome = d ∧ d ≠ "")
                 then u64_add (stats.wins (dspOf c d)) 1
                 else stats.wins (dspOf c d)) as Hwins.
  { intros d. unfold stats.RecordAuction, stats.RecordAuction_in.
    set (c1 := stats.recordOutcome c outcome).
    set (c2 := fold_left stats.recordResult results c1).
    set (order := map_to_list (stats.countBids (auction.AllBids outcome))).
    set (c3 := fold_left stats.recordBids order c2).
    rewrite recordWin_wins.
    assert (stats.wins (dspOf c3 d) = stats.wins (dspOf c d)) as ->; [|done].
    assert (dspOf c1 d = dspOf c d) as H1.
    { unfold c1, stats.recordOutcome, dspOf. by destruct (auction.Winner outcome). }
    pose proof (recordResults_dspOf results c1 d) as H2. fold c2 in H2.
    rewrite H1 in H2.
    destruct (updResults_fields (resultsOf d results) (dspOf c d))
      as (_ & _ & _ & _ & _ & Fwins).
    rewrite <- H2 in Fwins. rewrite <- Fwins.
    unfold c3. rewrite recordBidsLoop_dspOf by apply NoDup_fst_map_to_list.
    by destruct (_ !! d). }
  split; [exact Hwins|].
  intros Hw Hempty. split.
  - destruct (RecordAuction_totals c outcome results) as (_ & _ & H3 & _).
    rewrite H3. by rewrite Hw.
  - intros d. rewrite Hwins. rewrite decide_False; [done|].
    intros (_ & Hd & Hne). apply Hne. by rewrite <- Hd.
Qed.
